(** * Overlap-add STFT buffering engine (OverlappingFFTProcessor)

    A shallow embedding of [Source/OverlappingFFTProcessor.h], of its
    older siblings [Source/fftWithHopSizeAndHannWindowProcessor.h] (a
    template) and [unnamed/part_000] (the class before it became one), and
    of the calls the demo plug-in of [Source/PluginProcessor.cpp] makes.

    Conventions of the embedding.
    - C++ [int] values are integers of [Z]; every quantity below is bounded
      by a buffer size, so no 32-bit overflow is modelled.
    - [float] samples are an abstract type [sample] with abstract
      operations: no algebraic law of the arithmetic is assumed unless a
      statement says so, hence every result holds for IEEE arithmetic too.
    - A [juce::AudioBuffer<float>] / [dsp::AudioBlock<float>] is a record of
      its channel count, its sample count and its content, the content
      being a function from (channel, index) to samples.  The content
      outside the allocated rectangle is never consulted: every access is
      guarded by a bounds check, and a call in which one access would leave
      an allocated buffer yields [None].
    - A [for (ch = 0; ch < n; ++ch)] loop whose iterations touch channel
      [ch] only is written as one guarded update over the channels
      [0 <= ch < n].
    - The calls into the JUCE library ([AudioBuffer], [AudioBlock],
      [FloatVectorOperations]) follow the documented contract of the
      library: [addFrom] adds sample by sample, [copy] copies, [clear]
      writes zeros, [setSize] leaves the new samples indeterminate.
    - [while] loops are recursive functions on a fuel counter large enough
      for every valid configuration (proved below); [None] also stands for
      a call that would not return. *)

From Stdlib Require Import ZArith QArith Qabs Lia Bool List
  FunctionalExtensionality.
Import ListNotations.
Open Scope Z_scope.

Notation "x <- m ;; k" :=
  (match m with Some x => k | None => None end)
  (at level 61, m at next level, right associativity).
Notation "'check' c ;; k" :=
  (if c then k else None)
  (at level 61, c at next level, right associativity).

Section Engine.

Variable sample : Type.
Variable zero : sample.
Variable one : sample.
Variables add mul sdiv : sample -> sample -> sample.
(** conversion [int -> float] *)
Variable ofInt : Z -> sample.
(** [dsp::WindowingFunction<float>::fillWindowingTables (_, size, hann, false)]:
    the table of the JUCE library, entry [i] of a table of [size] entries. *)
Variable hannTable : Z -> Z -> sample.
(** The content [AudioBuffer::setSize] leaves in freshly allocated, not
    cleared memory (for [notYetUsedAudioData] and [fftInOutBuffer]). *)
Variables junkCarry junkFrame : Z -> Z -> sample.

(** ** Buffers *)

Record AudioBuffer := mkBuffer {
  numChannels : Z;
  numSamples : Z;
  at_ : Z -> Z -> sample
}.

Definition setData (b : AudioBuffer) (f : Z -> Z -> sample) : AudioBuffer :=
  mkBuffer (numChannels b) (numSamples b) f.

Definition inChan (c lo hi : Z) : bool := (lo <=? c) && (c <? hi).
Definition inRange (i off num : Z) : bool := (off <=? i) && (i <? off + num).

(** The accesses of a loop over the channels [lo <= ch < hi] that touches
    the samples [off, off + num) of channel [ch] stay inside [b]. *)
Definition chansOk (b : AudioBuffer) (lo hi off num : Z) : bool :=
  (hi <=? lo) ||
  ((0 <=? lo) && (hi <=? numChannels b) &&
   (0 <=? off) && (0 <=? num) && (off + num <=? numSamples b)).

(** The accesses [w + off, w + off + num) stay inside a vector of [size]. *)
Definition vecOk (n size off num : Z) : bool :=
  (n <=? 0) || ((0 <=? off) && (0 <=? num) && (off + num <=? size)).

(** [for ch < n: FloatVectorOperations::multiply (dst[ch] + doff, src[ch] + soff, w + woff, num)] *)
Definition multiply (n : Z) (dst : AudioBuffer) (doff : Z)
    (src : AudioBuffer) (soff : Z) (w : Z -> sample) (wsize woff num : Z)
    : option AudioBuffer :=
  check (chansOk dst 0 n doff num && chansOk src 0 n soff num && vecOk n wsize woff num) ;;
  Some (setData dst (fun c i =>
    if inChan c 0 n && inRange i doff num
    then mul (at_ src c (i - doff + soff)) (w (i - doff + woff))
    else at_ dst c i)).

(** [for ch < n: FloatVectorOperations::copy (dst[ch] + doff, src[ch] + soff, num)];
    where source and destination overlap the destination lies below the
    source, so the forward copy reads every sample before it is overwritten. *)
Definition copy (n : Z) (dst : AudioBuffer) (doff : Z)
    (src : AudioBuffer) (soff num : Z) : option AudioBuffer :=
  check (chansOk dst 0 n doff num && chansOk src 0 n soff num) ;;
  Some (setData dst (fun c i =>
    if inChan c 0 n && inRange i doff num
    then at_ src c (i - doff + soff)
    else at_ dst c i)).

(** [for ch < n: dst.addFrom (ch, doff, src, ch, soff, num)] *)
Definition addFrom (n : Z) (dst : AudioBuffer) (doff : Z)
    (src : AudioBuffer) (soff num : Z) : option AudioBuffer :=
  check (chansOk dst 0 n doff num && chansOk src 0 n soff num) ;;
  Some (setData dst (fun c i =>
    if inChan c 0 n && inRange i doff num
    then add (at_ dst c i) (at_ src c (i - doff + soff))
    else at_ dst c i)).

(** [for (ch = lo; ch < hi; ++ch) FloatVectorOperations::clear (dst[ch], num)] *)
Definition clearChannels (lo hi : Z) (dst : AudioBuffer) (num : Z)
    : option AudioBuffer :=
  check (chansOk dst lo hi 0 num) ;;
  Some (setData dst (fun c i =>
    if inChan c lo hi && inRange i 0 num then zero else at_ dst c i)).

(** [AudioBuffer::setSize (nCh, n)] on a buffer whose content need not be
    kept; the new content is [junk]. *)
Definition setSize (nCh n : Z) (junk : Z -> Z -> sample) : option AudioBuffer :=
  check ((0 <=? nCh) && (0 <=? n)) ;; Some (mkBuffer nCh n junk).

(** [AudioBuffer::clear ()] *)
Definition clear (b : AudioBuffer) : AudioBuffer :=
  setData b (fun _ _ => zero).

(** ** The engine *)

Record Engine := mkEngine {
  window : Z -> sample;            (* std::vector<float>, of size fftSize *)
  fftInOutBuffer : AudioBuffer;
  fftSize : Z;
  hopSize : Z;
  nChIn : Z;
  nChOut : Z;
  notYetUsedAudioData : AudioBuffer;
  outputBuffer : AudioBuffer;
  outputOffset : Z;
  notYetUsedAudioDataCount : Z
}.

(** The overridable frame transform; it sees [fftInOutBuffer] and the
    channel count handed to it.  The default is [fun _ b => b]. *)
Variable processFrameInBuffer : Z -> AudioBuffer -> AudioBuffer.

Definition emptyBuffer : AudioBuffer := mkBuffer 0 0 (fun _ _ => zero).

(** [createWindow]: the Hann table, every entry scaled by
    [1.0f / (fftSize / hopSize / 2)] (integer divisions). *)
Definition createWindow (fftSize hopSize : Z) : Z -> sample :=
  let hopSizeCompensateFactor := sdiv one (ofInt (Z.quot (Z.quot fftSize hopSize) 2)) in
  fun i => mul (hannTable fftSize i) hopSizeCompensateFactor.

(** The constructor.  Both [jassert]s fall under [check]; the channel
    counts and [outputOffset] are indeterminate until [prepare] and stand
    at 0 here. *)
Definition construct (fftSizeAsPowerOf2 hopSizeDividerAsPowerOf2 : Z) : option Engine :=
  let fftSize := Z.shiftl 1 fftSizeAsPowerOf2 in
  let hopSize := Z.shiftr fftSize hopSizeDividerAsPowerOf2 in
  check (0 <? hopSizeDividerAsPowerOf2) ;;
  check (hopSizeDividerAsPowerOf2 <=? fftSizeAsPowerOf2) ;;
  Some (mkEngine (createWindow fftSize hopSize) emptyBuffer fftSize hopSize
                 0 0 emptyBuffer emptyBuffer 0 0).

Definition reset (e : Engine) : Engine := e.

(** The loop [while (offset < fftSize) offset += bufferSize;] of [prepare]. *)
Fixpoint offsetLoop (fuel : nat) (offset fftSz bufferSize : Z) : option Z :=
  if offset <? fftSz then
    match fuel with
    | O => None
    | S fuel' => offsetLoop fuel' (offset + bufferSize) fftSz bufferSize
    end
  else Some offset.

(** [k = floor (1.0f + ((float) (bufferSize - 1)) / hopSize)] is computed
    here on integers: [/] on [Z] rounds down, [hopSize] is a positive power
    of two, and the [float] expression is exact as long as its value fits
    the 24 bits of a [float] significand.  The [while] loop on [offset]
    only feeds an assignment that the next statement overrides, but it
    does not end for [bufferSize <= 0]. *)
Definition prepare (e : Engine) (sampleRate : Z)
    (maximumBlockSize numInputChannels numOutputChannels : Z) : option Engine :=
  let nIn := numInputChannels in
  let nOut := numOutputChannels in
  let maxCh := Z.max nIn nOut in
  let bufferSize := maximumBlockSize in
  nyu <- setSize nIn (fftSize e - 1) junkCarry ;;
  fb <- setSize maxCh (2 * fftSize e) junkFrame ;;
  let k := 1 + (bufferSize - 1) / hopSize e in
  let M := k * hopSize e + (fftSize e - hopSize e) in
  ob <- setSize nIn (M + bufferSize - 1) junkCarry ;;
  let ob := clear ob in
  offset <- offsetLoop (Z.to_nat (fftSize e)) 0 (fftSize e) bufferSize ;;
  let outputOffset0 := offset - bufferSize in
  let outputOffset1 := fftSize e - 1 in
  Some (mkEngine (window e) fb (fftSize e) (hopSize e) nIn nOut nyu ob
                 outputOffset1 0).

Definition setFrame (e : Engine) (fb : AudioBuffer) : Engine :=
  mkEngine (window e) fb (fftSize e) (hopSize e) (nChIn e) (nChOut e)
           (notYetUsedAudioData e) (outputBuffer e) (outputOffset e)
           (notYetUsedAudioDataCount e).

Definition setCarry (e : Engine) (nyu : AudioBuffer) (count : Z) : Engine :=
  mkEngine (window e) (fftInOutBuffer e) (fftSize e) (hopSize e) (nChIn e)
           (nChOut e) nyu (outputBuffer e) (outputOffset e) count.

Definition setCount (e : Engine) (count : Z) : Engine :=
  setCarry e (notYetUsedAudioData e) count.

Definition setOutput (e : Engine) (ob : AudioBuffer) (off : Z) : Engine :=
  mkEngine (window e) (fftInOutBuffer e) (fftSize e) (hopSize e) (nChIn e)
           (nChOut e) (notYetUsedAudioData e) ob off
           (notYetUsedAudioDataCount e).

Definition writeBackFrame (e : Engine) : option Engine :=
  let ov := fftSize e - hopSize e in
  ob1 <- addFrom (nChOut e) (outputBuffer e) (outputOffset e)
                 (fftInOutBuffer e) 0 ov ;;
  ob2 <- copy (nChOut e) ob1 (outputOffset e + ov)
              (fftInOutBuffer e) ov (hopSize e) ;;
  Some (setOutput e ob2 (outputOffset e + hopSize e)).

(** [processFrameInBuffer (maxNumChannels); writeBackFrame ();] *)
Definition processAndWriteBack (maxNumChannels : Z) (e : Engine) : option Engine :=
  writeBackFrame (setFrame e (processFrameInBuffer maxNumChannels (fftInOutBuffer e))).

(** First loop of [process]: frames made of left-over samples followed by
    new ones.  The second component is [notYetUsedAudioDataOffset]. *)
Fixpoint useLeftOvers (fuel : nat) (inputBlock : AudioBuffer)
    (numChIn maxNumChannels : Z) (e : Engine) (notYetUsedAudioDataOffset : Z)
    : option (Engine * Z) :=
  let L := numSamples inputBlock in
  let count := notYetUsedAudioDataCount e in
  if (0 <? count) && (fftSize e <=? count + L) then
    match fuel with
    | O => None
    | S fuel' =>
      fb1 <- multiply numChIn (fftInOutBuffer e) 0
               (notYetUsedAudioData e) notYetUsedAudioDataOffset
               (window e) (fftSize e) 0 count ;;
      fb2 <- multiply numChIn fb1 count inputBlock 0
               (window e) (fftSize e) count (fftSize e - count) ;;
      e1 <- processAndWriteBack maxNumChannels (setFrame e fb2) ;;
      useLeftOvers fuel' inputBlock numChIn maxNumChannels
        (setCount e1 (count - hopSize e))
        (notYetUsedAudioDataOffset + hopSize e)
    end
  else Some (e, notYetUsedAudioDataOffset).

(** Second loop of [process]: frames made of new samples only.  The second
    component is [dataOffset]. *)
Fixpoint useNewSamples (fuel : nat) (inputBlock : AudioBuffer)
    (numChIn maxNumChannels : Z) (e : Engine) (dataOffset : Z)
    : option (Engine * Z) :=
  let L := numSamples inputBlock in
  if fftSize e <=? L - dataOffset then
    match fuel with
    | O => None
    | S fuel' =>
      fb <- multiply numChIn (fftInOutBuffer e) 0 inputBlock dataOffset
              (window e) (fftSize e) 0 (fftSize e) ;;
      e1 <- processAndWriteBack maxNumChannels (setFrame e fb) ;;
      useNewSamples fuel' inputBlock numChIn maxNumChannels e1
        (dataOffset + hopSize e)
    end
  else Some (e, dataOffset).

(** The part of [process] that consumes the input block (up to the comment
    "return processed samples from outputBuffer"). *)
Definition consumeInput (e : Engine) (inputBlock : AudioBuffer)
    (numChIn maxNumChannels : Z) : option Engine :=
  let L := numSamples inputBlock in
  let initialNotYetUsedAudioDataCount := notYetUsedAudioDataCount e in
  let usedSamples := 0 in
  r <- useLeftOvers (Z.to_nat (notYetUsedAudioDataCount e)) inputBlock
         numChIn maxNumChannels e 0 ;;
  let e1 := fst r in
  let count := notYetUsedAudioDataCount e1 in
  if 0 <? count then
    nyu1 <- copy numChIn (notYetUsedAudioData e1) 0 (notYetUsedAudioData e1)
              (initialNotYetUsedAudioDataCount - count) count ;;
    nyu2 <- copy numChIn nyu1 count inputBlock usedSamples L ;;
    Some (setCarry e1 nyu2 (count + L))
  else
    r2 <- useNewSamples (Z.to_nat (L - (- count))) inputBlock
            numChIn maxNumChannels e1 (- count) ;;
    let e2 := fst r2 in
    let dataOffset := snd r2 in
    let remainingSamples := L - dataOffset in
    nyu <- (if 0 <? remainingSamples
            then copy numChIn (notYetUsedAudioData e2) 0 inputBlock dataOffset
                      (L - dataOffset)
            else Some (notYetUsedAudioData e2)) ;;
    Some (setCarry e2 nyu remainingSamples).

(** The part of [process] that returns [L] samples and shifts
    [outputBuffer].  [numChOut] is the smaller of two channel counts and
    taken to be non-negative: the last loop compares its [int] counter
    with a [size_t], so that for a negative [numChOut] it would not run,
    where [clearChannels] yields [None]. *)
Definition returnSamples (e : Engine) (L numChOut : Z) (outputBlock : AudioBuffer)
    : option (Engine * AudioBuffer) :=
  let shiftStart := L in
  let shiftL := outputOffset e + fftSize e - hopSize e - L in
  let tooMuch := shiftStart + shiftL - numSamples (outputBuffer e) in
  let shiftL := if 0 <? tooMuch then shiftL - tooMuch else shiftL in
  out1 <- copy numChOut outputBlock 0 (outputBuffer e) 0 L ;;
  ob1 <- copy numChOut (outputBuffer e) 0 (outputBuffer e) shiftStart shiftL ;;
  out2 <- clearChannels numChOut (numChannels outputBlock) out1 L ;;
  Some (setOutput e ob1 (outputOffset e - L), out2).

Definition process (e : Engine) (inputBlock outputBlock : AudioBuffer)
    : option (Engine * AudioBuffer) :=
  let L := numSamples inputBlock in
  let numChIn := Z.min (numChannels inputBlock) (nChIn e) in
  let numChOut := Z.min (numChannels outputBlock) (nChOut e) in
  let maxNumChannels := Z.max numChIn numChOut in
  e1 <- consumeInput e inputBlock numChIn maxNumChannels ;;
  returnSamples e1 L numChOut outputBlock.

(** [process (const dsp::ProcessContextReplacing<float>&)]: the input block
    and the output block are the same memory.  Every read of the input
    block precedes the first write to the output block. *)
Definition processReplacing (e : Engine) (block : AudioBuffer)
    : option (Engine * AudioBuffer) :=
  process e block block.

(** ** The template variant, [FftWithHopSizeAndHannWindowProcessor<fftPowerOf2>]

    Embedded from [Source/fftWithHopSizeAndHannWindowProcessor.h]; the
    members carry the prefix [h_], the member functions the prefix
    [Hann_]. *)

Record HannProcessor := mkHann {
  h_fftInOutBuffer : AudioBuffer;
  h_fftSize : Z;
  h_hopSize : Z;
  hannWindow : Z -> sample;        (* Array<float>, of size fftSize *)
  h_notYetUsedAudioData : AudioBuffer;
  h_outputBuffer : AudioBuffer;
  h_outputOffset : Z;
  h_notYetUsedAudioDataCount : Z
}.

(** Its overridable frame transform takes no argument. *)
Variable Hann_processFrameInBuffer : AudioBuffer -> AudioBuffer.

Definition Hann_reset (t : HannProcessor) : HannProcessor :=
  mkHann (h_fftInOutBuffer t) (h_fftSize t) (h_hopSize t) (hannWindow t)
         (h_notYetUsedAudioData t) (h_outputBuffer t) (h_outputOffset t) 0.

(** The constructor: [fftSize = 1 << fftPowerOf2], [hopSize = fftSize / 2],
    the plain Hann table, then [reset ()].  [outputOffset] is indeterminate
    until [prepare] and stands at 0. *)
Definition Hann_construct (fftPowerOf2 : Z) : HannProcessor :=
  let fftSize := Z.shiftl 1 fftPowerOf2 in
  let hopSize := Z.quot fftSize 2 in
  Hann_reset (mkHann emptyBuffer fftSize hopSize (hannTable fftSize)
                     emptyBuffer emptyBuffer 0 0).

(** [prepare (const ProcessSpec&)], with [spec.maximumBlockSize] and
    [spec.numChannels]. *)
Definition Hann_prepare (t : HannProcessor) (maximumBlockSize numChannels_ : Z)
    : option HannProcessor :=
  let nCh := numChannels_ in
  let bufferSize := maximumBlockSize in
  nyu <- setSize nCh (h_fftSize t - 1) junkCarry ;;
  fb <- setSize nCh (2 * h_fftSize t) junkFrame ;;
  let k := 1 + (bufferSize - 1) / h_hopSize t in
  let M := k * h_hopSize t + h_hopSize t in
  ob <- setSize nCh (M + bufferSize - 1) junkCarry ;;
  let ob := clear ob in
  offset <- offsetLoop (Z.to_nat (h_fftSize t)) 0 (h_fftSize t) bufferSize ;;
  let outputOffset0 := offset - bufferSize in
  let outputOffset1 := h_fftSize t - 1 in
  Some (Hann_reset
          (mkHann fb (h_fftSize t) (h_hopSize t) (hannWindow t) nyu ob
                  outputOffset1 (h_notYetUsedAudioDataCount t))).

Definition h_setFrame (t : HannProcessor) (fb : AudioBuffer) : HannProcessor :=
  mkHann fb (h_fftSize t) (h_hopSize t) (hannWindow t)
         (h_notYetUsedAudioData t) (h_outputBuffer t) (h_outputOffset t)
         (h_notYetUsedAudioDataCount t).

Definition h_setCarry (t : HannProcessor) (nyu : AudioBuffer) (count : Z)
    : HannProcessor :=
  mkHann (h_fftInOutBuffer t) (h_fftSize t) (h_hopSize t) (hannWindow t)
         nyu (h_outputBuffer t) (h_outputOffset t) count.

Definition h_setCount (t : HannProcessor) (count : Z) : HannProcessor :=
  h_setCarry t (h_notYetUsedAudioData t) count.

Definition h_setOutput (t : HannProcessor) (ob : AudioBuffer) (off : Z)
    : HannProcessor :=
  mkHann (h_fftInOutBuffer t) (h_fftSize t) (h_hopSize t) (hannWindow t)
         (h_notYetUsedAudioData t) ob off (h_notYetUsedAudioDataCount t).

Definition Hann_writeBackFrame (t : HannProcessor) : option HannProcessor :=
  let nCh := numChannels (h_outputBuffer t) in
  ob1 <- addFrom nCh (h_outputBuffer t) (h_outputOffset t)
                 (h_fftInOutBuffer t) 0 (h_hopSize t) ;;
  ob2 <- copy nCh ob1 (h_outputOffset t + h_hopSize t)
              (h_fftInOutBuffer t) (h_hopSize t) (h_hopSize t) ;;
  Some (h_setOutput t ob2 (h_outputOffset t + h_hopSize t)).

Definition Hann_processAndBufferOutput (t : HannProcessor)
    : option HannProcessor :=
  Hann_writeBackFrame
    (h_setFrame t (Hann_processFrameInBuffer (h_fftInOutBuffer t))).

Fixpoint Hann_useLeftOvers (fuel : nat) (inputBlock : AudioBuffer)
    (nChannels : Z) (t : HannProcessor) (notYetUsedAudioDataOffset : Z)
    : option (HannProcessor * Z) :=
  let L := numSamples inputBlock in
  let count := h_notYetUsedAudioDataCount t in
  if (0 <? count) && (h_fftSize t <=? count + L) then
    match fuel with
    | O => None
    | S fuel' =>
      fb1 <- multiply nChannels (h_fftInOutBuffer t) 0
               (h_notYetUsedAudioData t) notYetUsedAudioDataOffset
               (hannWindow t) (h_fftSize t) 0 count ;;
      fb2 <- multiply nChannels fb1 count inputBlock 0
               (hannWindow t) (h_fftSize t) count (h_fftSize t - count) ;;
      t1 <- Hann_processAndBufferOutput (h_setFrame t fb2) ;;
      Hann_useLeftOvers fuel' inputBlock nChannels
        (h_setCount t1 (count - h_hopSize t))
        (notYetUsedAudioDataOffset + h_hopSize t)
    end
  else Some (t, notYetUsedAudioDataOffset).

Fixpoint Hann_useNewSamples (fuel : nat) (inputBlock : AudioBuffer)
    (nChannels : Z) (t : HannProcessor) (dataOffset : Z)
    : option (HannProcessor * Z) :=
  let L := numSamples inputBlock in
  if h_fftSize t <=? L - dataOffset then
    match fuel with
    | O => None
    | S fuel' =>
      fb <- multiply nChannels (h_fftInOutBuffer t) 0 inputBlock dataOffset
              (hannWindow t) (h_fftSize t) 0 (h_fftSize t) ;;
      t1 <- Hann_processAndBufferOutput (h_setFrame t fb) ;;
      Hann_useNewSamples fuel' inputBlock nChannels t1
        (dataOffset + h_hopSize t)
    end
  else Some (t, dataOffset).

Definition Hann_consumeInput (t : HannProcessor) (inputBlock : AudioBuffer)
    (nChannels : Z) : option HannProcessor :=
  let L := numSamples inputBlock in
  let initialNotYetUsedAudioDataCount := h_notYetUsedAudioDataCount t in
  let usedSamples := 0 in
  r <- Hann_useLeftOvers (Z.to_nat (h_notYetUsedAudioDataCount t)) inputBlock
         nChannels t 0 ;;
  let t1 := fst r in
  let count := h_notYetUsedAudioDataCount t1 in
  if 0 <? count then
    nyu1 <- copy nChannels (h_notYetUsedAudioData t1) 0
              (h_notYetUsedAudioData t1)
              (initialNotYetUsedAudioDataCount - count) count ;;
    nyu2 <- copy nChannels nyu1 count inputBlock usedSamples L ;;
    Some (h_setCarry t1 nyu2 (count + L))
  else
    r2 <- Hann_useNewSamples (Z.to_nat (L - (- count))) inputBlock
            nChannels t1 (- count) ;;
    let t2 := fst r2 in
    let dataOffset := snd r2 in
    let remainingSamples := L - dataOffset in
    nyu <- (if 0 <? remainingSamples
            then copy nChannels (h_notYetUsedAudioData t2) 0 inputBlock
                      dataOffset (L - dataOffset)
            else Some (h_notYetUsedAudioData t2)) ;;
    Some (h_setCarry t2 nyu remainingSamples).

Definition Hann_returnSamples (t : HannProcessor) (L : Z)
    (outputBlock : AudioBuffer) : option (HannProcessor * AudioBuffer) :=
  let nChOut := numChannels outputBlock in
  let shiftStart := L in
  let shiftL := h_outputOffset t + h_hopSize t - L in
  let tooMuch := shiftStart + shiftL - numSamples (h_outputBuffer t) in
  let shiftL := if 0 <? tooMuch then shiftL - tooMuch else shiftL in
  out1 <- copy nChOut outputBlock 0 (h_outputBuffer t) 0 L ;;
  ob1 <- copy nChOut (h_outputBuffer t) 0 (h_outputBuffer t) shiftStart shiftL ;;
  Some (h_setOutput t ob1 (h_outputOffset t - L), out1).

(** [process (ProcessContextNonReplacing<float>)] *)
Definition Hann_process (t : HannProcessor) (inputBlock outputBlock : AudioBuffer)
    : option (HannProcessor * AudioBuffer) :=
  let L := numSamples inputBlock in
  let nChannels := numChannels inputBlock in
  t1 <- Hann_consumeInput t inputBlock nChannels ;;
  Hann_returnSamples t1 L outputBlock.

(** ** Driving the engines *)

(** The state of the template variant read as a state of the runtime
    variant prepared for [nCh] input and [nCh] output channels. *)
Definition toEngine (nCh : Z) (t : HannProcessor) : Engine :=
  mkEngine (hannWindow t) (h_fftInOutBuffer t) (h_fftSize t) (h_hopSize t)
           nCh nCh (h_notYetUsedAudioData t) (h_outputBuffer t)
           (h_outputOffset t) (h_notYetUsedAudioDataCount t).

(** Feeding a sequence of (input block, output block) pairs. *)
Fixpoint runCalls (e : Engine) (calls : list (AudioBuffer * AudioBuffer))
    : option (Engine * list AudioBuffer) :=
  match calls with
  | [] => Some (e, [])
  | (i, o) :: rest =>
      r <- process e i o ;;
      r' <- runCalls (fst r) rest ;;
      Some (fst r', snd r :: snd r')
  end.

Fixpoint Hann_runCalls (t : HannProcessor)
    (calls : list (AudioBuffer * AudioBuffer))
    : option (HannProcessor * list AudioBuffer) :=
  match calls with
  | [] => Some (t, [])
  | (i, o) :: rest =>
      r <- Hann_process t i o ;;
      r' <- Hann_runCalls (fst r) rest ;;
      Some (fst r', snd r :: snd r')
  end.

(** The block holding the [L] samples of [X] from position [T] on. *)
Definition blockOf (X : Z -> Z -> sample) (C T L : Z) : AudioBuffer :=
  mkBuffer C L (fun c i => X c (T + i)).

(** Feeding the stream [X] from position [T] on, in blocks of the lengths
    [ls]; [Y] is what the caller's output blocks hold beforehand.  The
    result is the final state and the output stream, block after block. *)
Fixpoint runChunks (e : Engine) (X Y : Z -> Z -> sample) (Cin Cout : Z)
    (T : Z) (ls : list Z) (acc : Z -> Z -> sample)
    : option (Engine * (Z -> Z -> sample)) :=
  match ls with
  | [] => Some (e, acc)
  | L :: ls' =>
      r <- process e (blockOf X Cin T L) (blockOf Y Cout T L) ;;
      runChunks (fst r) X Y Cin Cout (T + L) ls'
        (fun c n => if inRange n T L then at_ (snd r) c (n - T) else acc c n)
  end.

Definition total (ls : list Z) : Z := fold_right Z.add 0 ls.

(** Two input blocks that an engine prepared for [n] input channels is to
    treat alike: they hold the same number of samples, have the same
    number of channels below [n] (any number at or above it), and hold the
    same samples on those channels. *)
Definition agree (n : Z) (s1 s2 : AudioBuffer) : Prop :=
  Z.min (numChannels s1) n = Z.min (numChannels s2) n /\
  numSamples s1 = numSamples s2 /\
  forall c i, 0 <= c < Z.min (numChannels s1) n -> 0 <= i < numSamples s1 ->
              at_ s1 c i = at_ s2 c i.

(** The states a prepared engine [e0] reaches through [process] calls with
    blocks of at most [B] samples. *)
Inductive Reachable (e0 : Engine) (B : Z) : Engine -> Prop :=
| reach_prepared : Reachable e0 B e0
| reach_process e inputBlock outputBlock e' out :
    Reachable e0 B e ->
    0 <= numSamples inputBlock <= B ->
    numSamples inputBlock <= numSamples outputBlock ->
    process e inputBlock outputBlock = Some (e', out) ->
    Reachable e0 B e'.

(** ** Valid configurations and prepared engines *)

(** What the constructor's two assertions give: the hop is at least one
    sample and at most half a frame. *)
Definition Valid (e : Engine) : Prop :=
  1 <= hopSize e /\ 2 * hopSize e <= fftSize e.

(** The allocation made by [prepare] for a maximum block size [B]. *)
Record Sized (e : Engine) (B : Z) : Prop := {
  sz_valid : Valid e;
  sz_B : 1 <= B;
  sz_nyu_c : numChannels (notYetUsedAudioData e) = nChIn e;
  sz_nyu_s : numSamples (notYetUsedAudioData e) = fftSize e - 1;
  sz_fb_c : numChannels (fftInOutBuffer e) = Z.max (nChIn e) (nChOut e);
  sz_fb_s : numSamples (fftInOutBuffer e) = 2 * fftSize e;
  sz_ob_c : numChannels (outputBuffer e) = nChIn e;
  sz_ob_s : fftSize e - 1 + B <= numSamples (outputBuffer e)
}.

(** Same construction constants and same allocation. *)
Record Config (e0 e : Engine) : Prop := {
  cf_window : window e = window e0;
  cf_fft : fftSize e = fftSize e0;
  cf_hop : hopSize e = hopSize e0;
  cf_in : nChIn e = nChIn e0;
  cf_out : nChOut e = nChOut e0;
  cf_nyu_c : numChannels (notYetUsedAudioData e) = numChannels (notYetUsedAudioData e0);
  cf_nyu_s : numSamples (notYetUsedAudioData e) = numSamples (notYetUsedAudioData e0);
  cf_fb_c : numChannels (fftInOutBuffer e) = numChannels (fftInOutBuffer e0);
  cf_fb_s : numSamples (fftInOutBuffer e) = numSamples (fftInOutBuffer e0);
  cf_ob_c : numChannels (outputBuffer e) = numChannels (outputBuffer e0);
  cf_ob_s : numSamples (outputBuffer e) = numSamples (outputBuffer e0)
}.

(** The frame transform keeps the shape of [fftInOutBuffer]. *)
Definition KeepsShape : Prop :=
  forall n b, numChannels (processFrameInBuffer n b) = numChannels b /\
              numSamples (processFrameInBuffer n b) = numSamples b.

(** The value the overlap-add of the first [j] windowed frames of the
    signal [x] gives to the output position [m + fftSize - 1]: frame [j']
    covers the input positions [j' * H, j' * H + N) and contributes
    [x m * w (m - j' * H)], summed in the order of the frames. *)
Fixpoint overlapAdd (w : Z -> sample) (N H : Z) (x : Z -> sample)
    (j : nat) (m : Z) : sample :=
  match j with
  | O => zero
  | S j' =>
      let k := m - Z.of_nat j' * H in
      if inRange k 0 (N - H)
      then add (overlapAdd w N H x j' m) (mul (x m) (w k))
      else if inRange k (N - H) H
      then mul (x m) (w k)
      else overlapAdd w N H x j' m
  end.

(** ** The remaining members and the callers

    [getNumInputChannels], [getNumOutputChannels] and the overload
    [process (const dsp::ProcessContextNonReplacing<float>&)] of
    [OverlappingFFTProcessor]. *)

Definition getNumInputChannels (e : Engine) : Z := nChIn e.
Definition getNumOutputChannels (e : Engine) : Z := nChOut e.

Definition processNonReplacing (e : Engine) (inputBlock outputBlock : AudioBuffer)
    : option (Engine * AudioBuffer) :=
  process e inputBlock outputBlock.

(** [process (const ProcessContextReplacing<float>&)] of the template
    variant: a non-replacing context is built from the input block and the
    output block of the replacing one, which are the same memory. *)
Definition Hann_processReplacing (t : HannProcessor) (block : AudioBuffer)
    : option (HannProcessor * AudioBuffer) :=
  Hann_process t block block.

(** ** The older class, [FftWithHopSizeAndHannWindowProcessor]
    (fftSizeAsPowerOf2, hopSizeDividerAsPowerOf2)

    The class of the same name that is not a template: the hop divider is
    a constructor argument, one channel count serves the input and the
    output, and the channel counts of the blocks are taken as they come.
    It has the members of the template variant, so its states are
    [HannProcessor] records; its member functions carry the prefix
    [Hop_]. *)

(** Its overridable frame transform. *)
Variable Hop_processFrameInBuffer : AudioBuffer -> AudioBuffer.

(** The constructor: the Hann table scaled by
    [1.0f / (1 << (hopSizeDividerAsPowerOf2 - 1))]; both [jassert]s fall
    under [check]. *)
Definition Hop_construct (fftSizeAsPowerOf2 hopSizeDividerAsPowerOf2 : Z)
    : option HannProcessor :=
  let fftSize := Z.shiftl 1 fftSizeAsPowerOf2 in
  let hopSize := Z.shiftr fftSize hopSizeDividerAsPowerOf2 in
  check (0 <? hopSizeDividerAsPowerOf2) ;;
  check (hopSizeDividerAsPowerOf2 <=? fftSizeAsPowerOf2) ;;
  let hopSizeCompensateFactor :=
    sdiv one (ofInt (Z.shiftl 1 (hopSizeDividerAsPowerOf2 - 1))) in
  Some (mkHann emptyBuffer fftSize hopSize
               (fun i => mul (hannTable fftSize i) hopSizeCompensateFactor)
               emptyBuffer emptyBuffer 0 0).

(** [void reset() override {}] *)
Definition Hop_reset (t : HannProcessor) : HannProcessor := t.

Definition Hop_prepare (t : HannProcessor) (maximumBlockSize numChannels_ : Z)
    : option HannProcessor :=
  let nCh := numChannels_ in
  let bufferSize := maximumBlockSize in
  nyu <- setSize nCh (h_fftSize t - 1) junkCarry ;;
  fb <- setSize nCh (2 * h_fftSize t) junkFrame ;;
  let k := 1 + (bufferSize - 1) / h_hopSize t in
  let M := k * h_hopSize t + (h_fftSize t - h_hopSize t) in
  ob <- setSize nCh (M + bufferSize - 1) junkCarry ;;
  let ob := clear ob in
  offset <- offsetLoop (Z.to_nat (h_fftSize t)) 0 (h_fftSize t) bufferSize ;;
  let outputOffset0 := offset - bufferSize in
  let outputOffset1 := h_fftSize t - 1 in
  Some (mkHann fb (h_fftSize t) (h_hopSize t) (hannWindow t) nyu ob
               outputOffset1 0).

Definition Hop_writeBackFrame (t : HannProcessor) : option HannProcessor :=
  let nCh := numChannels (h_outputBuffer t) in
  ob1 <- addFrom nCh (h_outputBuffer t) (h_outputOffset t)
                 (h_fftInOutBuffer t) 0 (h_fftSize t - h_hopSize t) ;;
  ob2 <- copy nCh ob1 (h_outputOffset t + h_fftSize t - h_hopSize t)
              (h_fftInOutBuffer t) (h_fftSize t - h_hopSize t) (h_hopSize t) ;;
  Some (h_setOutput t ob2 (h_outputOffset t + h_hopSize t)).

Definition Hop_processAndBufferOutput (t : HannProcessor)
    : option HannProcessor :=
  Hop_writeBackFrame
    (h_setFrame t (Hop_processFrameInBuffer (h_fftInOutBuffer t))).

Fixpoint Hop_useLeftOvers (fuel : nat) (inputBlock : AudioBuffer)
    (nChannels : Z) (t : HannProcessor) (notYetUsedAudioDataOffset : Z)
    : option (HannProcessor * Z) :=
  let L := numSamples inputBlock in
  let count := h_notYetUsedAudioDataCount t in
  if (0 <? count) && (h_fftSize t <=? count + L) then
    match fuel with
    | O => None
    | S fuel' =>
      fb1 <- multiply nChannels (h_fftInOutBuffer t) 0
               (h_notYetUsedAudioData t) notYetUsedAudioDataOffset
               (hannWindow t) (h_fftSize t) 0 count ;;
      fb2 <- multiply nChannels fb1 count inputBlock 0
               (hannWindow t) (h_fftSize t) count (h_fftSize t - count) ;;
      t1 <- Hop_processAndBufferOutput (h_setFrame t fb2) ;;
      Hop_useLeftOvers fuel' inputBlock nChannels
        (h_setCount t1 (count - h_hopSize t))
        (notYetUsedAudioDataOffset + h_hopSize t)
    end
  else Some (t, notYetUsedAudioDataOffset).

Fixpoint Hop_useNewSamples (fuel : nat) (inputBlock : AudioBuffer)
    (nChannels : Z) (t : HannProcessor) (dataOffset : Z)
    : option (HannProcessor * Z) :=
  let L := numSamples inputBlock in
  if h_fftSize t <=? L - dataOffset then
    match fuel with
    | O => None
    | S fuel' =>
      fb <- multiply nChannels (h_fftInOutBuffer t) 0 inputBlock dataOffset
              (hannWindow t) (h_fftSize t) 0 (h_fftSize t) ;;
      t1 <- Hop_processAndBufferOutput (h_setFrame t fb) ;;
      Hop_useNewSamples fuel' inputBlock nChannels t1
        (dataOffset + h_hopSize t)
    end
  else Some (t, dataOffset).

Definition Hop_consumeInput (t : HannProcessor) (inputBlock : AudioBuffer)
    (nChannels : Z) : option HannProcessor :=
  let L := numSamples inputBlock in
  let initialNotYetUsedAudioDataCount := h_notYetUsedAudioDataCount t in
  let usedSamples := 0 in
  r <- Hop_useLeftOvers (Z.to_nat (h_notYetUsedAudioDataCount t)) inputBlock
         nChannels t 0 ;;
  let t1 := fst r in
  let count := h_notYetUsedAudioDataCount t1 in
  if 0 <? count then
    nyu1 <- copy nChannels (h_notYetUsedAudioData t1) 0
              (h_notYetUsedAudioData t1)
              (initialNotYetUsedAudioDataCount - count) count ;;
    nyu2 <- copy nChannels nyu1 count inputBlock usedSamples L ;;
    Some (h_setCarry t1 nyu2 (count + L))
  else
    r2 <- Hop_useNewSamples (Z.to_nat (L - (- count))) inputBlock
            nChannels t1 (- count) ;;
    let t2 := fst r2 in
    let dataOffset := snd r2 in
    let remainingSamples := L - dataOffset in
    nyu <- (if 0 <? remainingSamples
            then copy nChannels (h_notYetUsedAudioData t2) 0 inputBlock
                      dataOffset (L - dataOffset)
            else Some (h_notYetUsedAudioData t2)) ;;
    Some (h_setCarry t2 nyu remainingSamples).

Definition Hop_returnSamples (t : HannProcessor) (L : Z)
    (outputBlock : AudioBuffer) : option (HannProcessor * AudioBuffer) :=
  let nChOut := numChannels outputBlock in
  let shiftStart := L in
  let shiftL := h_outputOffset t + h_fftSize t - h_hopSize t - L in
  let tooMuch := shiftStart + shiftL - numSamples (h_outputBuffer t) in
  let shiftL := if 0 <? tooMuch then shiftL - tooMuch else shiftL in
  out1 <- copy nChOut outputBlock 0 (h_outputBuffer t) 0 L ;;
  ob1 <- copy nChOut (h_outputBuffer t) 0 (h_outputBuffer t) shiftStart shiftL ;;
  Some (h_setOutput t ob1 (h_outputOffset t - L), out1).

(** [process (ProcessContextNonReplacing<float>)] *)
Definition Hop_process (t : HannProcessor) (inputBlock outputBlock : AudioBuffer)
    : option (HannProcessor * AudioBuffer) :=
  let L := numSamples inputBlock in
  let nChannels := numChannels inputBlock in
  t1 <- Hop_consumeInput t inputBlock nChannels ;;
  Hop_returnSamples t1 L outputBlock.

(** [process (const ProcessContextReplacing<float>&)] *)
Definition Hop_processReplacing (t : HannProcessor) (block : AudioBuffer)
    : option (HannProcessor * AudioBuffer) :=
  Hop_process t block block.

Fixpoint Hop_runCalls (t : HannProcessor)
    (calls : list (AudioBuffer * AudioBuffer))
    : option (HannProcessor * list AudioBuffer) :=
  match calls with
  | [] => Some (t, [])
  | (i, o) :: rest =>
      r <- Hop_process t i o ;;
      r' <- Hop_runCalls (fst r) rest ;;
      Some (fst r', snd r :: snd r')
  end.


(** The demo plug-in of [Source/PluginProcessor.cpp] owns one [MyProcessor],
    an [OverlappingFFTProcessor (11, 2)] whose override of
    [processFrameInBuffer] runs the FFT of the library in place on the
    channels of [fftInOutBuffer]; that override is the frame transform
    [processFrameInBuffer] of this development. *)
Record OverlappingFFTProcessorDemoAudioProcessor := mkPlugin {
  myProcessor : Engine
}.

Definition MyProcessor : option Engine := construct 11 2.

(** [createPluginFilter] *)
Definition createPluginFilter : option OverlappingFFTProcessorDemoAudioProcessor :=
  m <- MyProcessor ;; Some (mkPlugin m).

(** [prepareToPlay]: [myProcessor.prepare (sampleRate, samplesPerBlock, 2, 2)] *)
Definition prepareToPlay (p : OverlappingFFTProcessorDemoAudioProcessor)
    (sampleRate samplesPerBlock : Z)
    : option OverlappingFFTProcessorDemoAudioProcessor :=
  e <- prepare (myProcessor p) sampleRate samplesPerBlock 2 2 ;;
  Some (mkPlugin e).

(** [processBlock]: the whole host buffer is wrapped into one block and
    processed in place; the MIDI buffer is not used. *)
Definition processBlock (p : OverlappingFFTProcessorDemoAudioProcessor)
    (buffer : AudioBuffer)
    : option (OverlappingFFTProcessorDemoAudioProcessor * AudioBuffer) :=
  r <- processReplacing (myProcessor p) buffer ;;
  Some (mkPlugin (fst r), snd r).

(** The host calling [processBlock] buffer after buffer. *)
Fixpoint runBlocks (p : OverlappingFFTProcessorDemoAudioProcessor)
    (buffers : list AudioBuffer)
    : option (OverlappingFFTProcessorDemoAudioProcessor * list AudioBuffer) :=
  match buffers with
  | [] => Some (p, [])
  | b :: rest =>
      r <- processBlock p b ;;
      r' <- runBlocks (fst r) rest ;;
      Some (fst r', snd r :: snd r')
  end.

(** ** Sequences of calls *)

(** A call a host may make on an engine prepared for blocks of at most [B]
    samples: the input block holds between 0 and [B] samples and the output
    block has room for as many. *)
Definition validCall (B : Z) (c : AudioBuffer * AudioBuffer) : Prop :=
  0 <= numSamples (fst c) <= B /\ numSamples (fst c) <= numSamples (snd c).

(** The number of input samples a sequence of calls delivers. *)
Definition consumed (calls : list (AudioBuffer * AudioBuffer)) : Z :=
  total (map (fun c => numSamples (fst c)) calls).

(** What an output channel receives when no input channel feeds its row of
    [fftInOutBuffer] and the frame transform leaves that row as it is: the
    overlap-add of the row [f] itself, frame after frame, at the output
    position [m + fftSize - 1]. *)
Fixpoint staleAdd (f : Z -> sample) (N H : Z) (j : nat) (m : Z) : sample :=
  match j with
  | O => zero
  | S j' =>
      let k := m - Z.of_nat j' * H in
      if inRange k 0 (N - H)
      then add (staleAdd f N H j' m) (f k)
      else if inRange k (N - H) H
      then f k
      else staleAdd f N H j' m
  end.

(** What no call changes: the construction constants, the prepared
    channel counts and the sizes of the carry-over and output buffers. *)
Definition SameSetup (e e' : Engine) : Prop :=
  window e' = window e /\ fftSize e' = fftSize e /\ hopSize e' = hopSize e /\
  nChIn e' = nChIn e /\ nChOut e' = nChOut e /\
  numChannels (notYetUsedAudioData e') = numChannels (notYetUsedAudioData e) /\
  numSamples (notYetUsedAudioData e') = numSamples (notYetUsedAudioData e) /\
  numChannels (outputBuffer e') = numChannels (outputBuffer e) /\
  numSamples (outputBuffer e') = numSamples (outputBuffer e).

(** Two buffers of the same shape. *)
Definition sameShape (a b : AudioBuffer) : Prop :=
  numChannels a = numChannels b /\ numSamples a = numSamples b.

(** The sum of the [i + 1] values of [f] at [top], [top - H], ...,
    [top - i * H], in the order in which [writeBackFrame] accumulates the
    frames that cover one output position: the oldest frame first. *)
Fixpoint hopSum (f : Z -> sample) (top H : Z) (i : nat) : sample :=
  match i with
  | O => f top
  | S i' => add (hopSum f top H i') (f (top - Z.of_nat (S i') * H))
  end.

(** Constant overlap-add: at every offset [r] inside a hop, the
    [N / H] coefficients of the window that meet at one output position
    sum to one. *)
Definition ConstantOverlapAdd (w : Z -> sample) (N H : Z) : Prop :=
  forall r, 0 <= r < H ->
    hopSum w (r + N - H) H (Z.to_nat (N / H - 1)) = one.

(** ** The frames a call completes

    The states of the engine in which [process] calls [writeBackFrame],
    that is, one state per completed frame, [fftInOutBuffer] holding the
    transformed frame: those of the first loop, those of the second, and
    those of the whole call, in the order of the calls. *)
Fixpoint useLeftOvers_frames (fuel : nat) (inputBlock : AudioBuffer)
    (numChIn maxNumChannels : Z) (e : Engine) (notYetUsedAudioDataOffset : Z)
    : list Engine :=
  let L := numSamples inputBlock in
  let count := notYetUsedAudioDataCount e in
  if (0 <? count) && (fftSize e <=? count + L) then
    match fuel with
    | O => []
    | S fuel' =>
      match multiply numChIn (fftInOutBuffer e) 0
              (notYetUsedAudioData e) notYetUsedAudioDataOffset
              (window e) (fftSize e) 0 count with
      | None => []
      | Some fb1 =>
        match multiply numChIn fb1 count inputBlock 0
                (window e) (fftSize e) count (fftSize e - count) with
        | None => []
        | Some fb2 =>
          let ef := setFrame (setFrame e fb2)
                             (processFrameInBuffer maxNumChannels fb2) in
          ef :: match writeBackFrame ef with
                | None => []
                | Some e1 =>
                    useLeftOvers_frames fuel' inputBlock numChIn
                      maxNumChannels (setCount e1 (count - hopSize e))
                      (notYetUsedAudioDataOffset + hopSize e)
                end
        end
      end
    end
  else [].

Fixpoint useNewSamples_frames (fuel : nat) (inputBlock : AudioBuffer)
    (numChIn maxNumChannels : Z) (e : Engine) (dataOffset : Z)
    : list Engine :=
  let L := numSamples inputBlock in
  if fftSize e <=? L - dataOffset then
    match fuel with
    | O => []
    | S fuel' =>
      match multiply numChIn (fftInOutBuffer e) 0 inputBlock dataOffset
              (window e) (fftSize e) 0 (fftSize e) with
      | None => []
      | Some fb =>
        let ef := setFrame (setFrame e fb)
                           (processFrameInBuffer maxNumChannels fb) in
        ef :: match writeBackFrame ef with
              | None => []
              | Some e1 =>
                  useNewSamples_frames fuel' inputBlock numChIn
                    maxNumChannels e1 (dataOffset + hopSize e)
              end
      end
    end
  else [].

Definition consumeInput_frames (e : Engine) (inputBlock : AudioBuffer)
    (numChIn maxNumChannels : Z) : list Engine :=
  let L := numSamples inputBlock in
  let fuel := Z.to_nat (notYetUsedAudioDataCount e) in
  useLeftOvers_frames fuel inputBlock numChIn maxNumChannels e 0 ++
  match useLeftOvers fuel inputBlock numChIn maxNumChannels e 0 with
  | None => []
  | Some r =>
      let count := notYetUsedAudioDataCount (fst r) in
      if 0 <? count then []
      else useNewSamples_frames (Z.to_nat (L - (- count))) inputBlock
             numChIn maxNumChannels (fst r) (- count)
  end.

(** The number of frames that [L] new samples complete when [count]
    samples are carried over: none while fewer than [fftSize] samples are
    at hand, then one more for every [hopSize] samples. *)
Definition framesCompleted (count L fftSz hopSz : Z) : Z :=
  if count + L <? fftSz then 0 else (count + L - fftSz) / hopSz + 1.

(** What one [writeBackFrame] makes of the output buffer [ob] at the hop
    offset [off], the transformed frame being [fftInOutBuffer f]: its
    first [fftSize - hopSize] samples are added to what the buffer holds
    from [off] on, its last [hopSize] samples are stored after them. *)
Definition foldedInto (ob : AudioBuffer) (off : Z) (f : Engine)
    (ob' : AudioBuffer) : Prop :=
  forall c i, at_ ob' c i =
    if inChan c 0 (nChOut f) then
      if inRange i off (fftSize f - hopSize f)
      then add (at_ ob c i) (at_ (fftInOutBuffer f) c (i - off))
      else if inRange i (off + (fftSize f - hopSize f)) (hopSize f)
      then at_ (fftInOutBuffer f) c (i - off)
      else at_ ob c i
    else at_ ob c i.

(** The output buffer and the hop offset through the write-backs of the
    frames [fs]: each frame finds the buffer and the offset the frame
    before it left, is folded into the buffer at that offset, and leaves
    the offset [hopSize] further. *)
Fixpoint WriteBacks (ob : AudioBuffer) (off : Z) (fs : list Engine)
    (ob' : AudioBuffer) (off' : Z) : Prop :=
  match fs with
  | [] => ob' = ob /\ off' = off
  | f :: fs' =>
      outputBuffer f = ob /\ outputOffset f = off /\
      exists f', writeBackFrame f = Some f' /\
        foldedInto ob off f (outputBuffer f') /\
        outputOffset f' = off + hopSize f /\
        WriteBacks (outputBuffer f') (outputOffset f') fs' ob' off'
  end.

(** * Proofs *)

(** ** Elementary facts on the primitives *)

Lemma inChan_true c lo hi : inChan c lo hi = true <-> lo <= c < hi.
Proof.
  unfold inChan. rewrite andb_true_iff, Z.leb_le, Z.ltb_lt.
  split; intros H; exact H.
Qed.

Lemma inRange_true i off num : inRange i off num = true <-> off <= i < off + num.
Proof.
  unfold inRange. rewrite andb_true_iff, Z.leb_le, Z.ltb_lt.
  split; intros H; exact H.
Qed.

Lemma inChan_false c lo hi : inChan c lo hi = false <-> ~ (lo <= c < hi).
Proof.
  rewrite <- inChan_true.
  destruct (inChan c lo hi); split; intros H; congruence.
Qed.

Lemma inRange_false i off num : inRange i off num = false <-> ~ (off <= i < off + num).
Proof.
  rewrite <- inRange_true.
  destruct (inRange i off num); split; intros H; congruence.
Qed.

Lemma chansOk_true b lo hi off num :
  chansOk b lo hi off num = true <->
  (hi <= lo \/ (0 <= lo /\ hi <= numChannels b /\ 0 <= off /\ 0 <= num /\
                off + num <= numSamples b)).
Proof.
  unfold chansOk.
  rewrite orb_true_iff, !andb_true_iff, !Z.leb_le.
  split.
  - intros [H|[[[[H1 H2] H3] H4] H5]]; [left; exact H|right].
    repeat split; assumption.
  - intros [H|(H1 & H2 & H3 & H4 & H5)]; [left; exact H|right].
    repeat split; assumption.
Qed.

Lemma vecOk_true n size off num :
  vecOk n size off num = true <->
  (n <= 0 \/ (0 <= off /\ 0 <= num /\ off + num <= size)).
Proof.
  unfold vecOk.
  rewrite orb_true_iff, !andb_true_iff, !Z.leb_le.
  split.
  - intros [H|[[H1 H2] H3]]; [left; exact H|right].
    repeat split; assumption.
  - intros [H|(H1 & H2 & H3)]; [left; exact H|right].
    repeat split; assumption.
Qed.

Lemma buffer_eq (a b : AudioBuffer) :
  numChannels a = numChannels b -> numSamples a = numSamples b ->
  (forall c i, at_ a c i = at_ b c i) -> a = b.
Proof.
  destruct a as [ca sa fa], b as [cb sb fb_]; simpl; intros -> -> H.
  f_equal. extensionality c. extensionality i. apply H.
Qed.

(** Deciding the membership tests inside a goal or a hypothesis. *)
Ltac decide_tests :=
  repeat match goal with
  | |- context [inChan ?c ?lo ?hi] =>
      let E := fresh "E" in
      destruct (inChan c lo hi) eqn:E;
      [apply inChan_true in E | apply inChan_false in E]
  | |- context [inRange ?i ?o ?n] =>
      let E := fresh "E" in
      destruct (inRange i o n) eqn:E;
      [apply inRange_true in E | apply inRange_false in E]
  end; simpl andb; cbv iota.

Lemma multiply_inv n dst doff src soff w wsize woff num r :
  multiply n dst doff src soff w wsize woff num = Some r ->
  numChannels r = numChannels dst /\ numSamples r = numSamples dst /\
  forall c i, at_ r c i =
    if inChan c 0 n && inRange i doff num
    then mul (at_ src c (i - doff + soff)) (w (i - doff + woff))
    else at_ dst c i.
Proof.
  unfold multiply. destruct (_ && _ && _); [|discriminate].
  intros [= <-]. simpl. auto.
Qed.

Lemma copy_inv n dst doff src soff num r :
  copy n dst doff src soff num = Some r ->
  numChannels r = numChannels dst /\ numSamples r = numSamples dst /\
  forall c i, at_ r c i =
    if inChan c 0 n && inRange i doff num
    then at_ src c (i - doff + soff) else at_ dst c i.
Proof.
  unfold copy. destruct (_ && _); [|discriminate].
  intros [= <-]. simpl. auto.
Qed.

Lemma addFrom_inv n dst doff src soff num r :
  addFrom n dst doff src soff num = Some r ->
  numChannels r = numChannels dst /\ numSamples r = numSamples dst /\
  forall c i, at_ r c i =
    if inChan c 0 n && inRange i doff num
    then add (at_ dst c i) (at_ src c (i - doff + soff)) else at_ dst c i.
Proof.
  unfold addFrom. destruct (_ && _); [|discriminate].
  intros [= <-]. simpl. auto.
Qed.

Lemma clearChannels_inv lo hi dst num r :
  clearChannels lo hi dst num = Some r ->
  numChannels r = numChannels dst /\ numSamples r = numSamples dst /\
  forall c i, at_ r c i =
    if inChan c lo hi && inRange i 0 num then zero else at_ dst c i.
Proof.
  unfold clearChannels. destruct (chansOk _ _ _ _ _); [|discriminate].
  intros [= <-]. simpl. auto.
Qed.

Lemma clearChannels_ok lo hi dst num r :
  clearChannels lo hi dst num = Some r ->
  hi <= lo \/ (0 <= lo /\ hi <= numChannels dst /\ 0 <= 0 /\ 0 <= num /\
               0 + num <= numSamples dst).
Proof.
  unfold clearChannels. destruct (chansOk _ _ _ _ _) eqn:E; [|discriminate].
  intros _. apply chansOk_true. exact E.
Qed.

Lemma multiply_None n dst doff src soff w wsize woff num :
  multiply n dst doff src soff w wsize woff num = None ->
  chansOk dst 0 n doff num = false \/ chansOk src 0 n soff num = false \/
  vecOk n wsize woff num = false.
Proof.
  unfold multiply.
  destruct (chansOk dst 0 n doff num), (chansOk src 0 n soff num),
           (vecOk n wsize woff num); simpl; auto; discriminate.
Qed.

Lemma copy_None n dst doff src soff num :
  copy n dst doff src soff num = None ->
  chansOk dst 0 n doff num = false \/ chansOk src 0 n soff num = false.
Proof.
  unfold copy.
  destruct (chansOk dst 0 n doff num), (chansOk src 0 n soff num);
    simpl; auto; discriminate.
Qed.

Lemma addFrom_None n dst doff src soff num :
  addFrom n dst doff src soff num = None ->
  chansOk dst 0 n doff num = false \/ chansOk src 0 n soff num = false.
Proof.
  unfold addFrom.
  destruct (chansOk dst 0 n doff num), (chansOk src 0 n soff num);
    simpl; auto; discriminate.
Qed.

Lemma clearChannels_None lo hi dst num :
  clearChannels lo hi dst num = None -> chansOk dst lo hi 0 num = false.
Proof.
  unfold clearChannels. destruct (chansOk dst lo hi 0 num); auto; discriminate.
Qed.

Lemma chansOk_false b lo hi off num :
  chansOk b lo hi off num = false ->
  lo < hi /\ ~ (0 <= lo /\ hi <= numChannels b /\ 0 <= off /\ 0 <= num /\
                off + num <= numSamples b).
Proof.
  intros E. split.
  - destruct (Z_lt_le_dec lo hi) as [|Hle]; auto.
    assert (chansOk b lo hi off num = true) by (apply chansOk_true; auto).
    congruence.
  - intros Hc.
    assert (chansOk b lo hi off num = true) by (apply chansOk_true; auto).
    congruence.
Qed.

Lemma vecOk_false n size off num :
  vecOk n size off num = false ->
  0 < n /\ ~ (0 <= off /\ 0 <= num /\ off + num <= size).
Proof.
  intros E. split.
  - destruct (Z_lt_le_dec 0 n) as [|Hle]; auto.
    assert (vecOk n size off num = true) by (apply vecOk_true; auto).
    congruence.
  - intros Hc.
    assert (vecOk n size off num = true) by (apply vecOk_true; auto).
    congruence.
Qed.

Lemma Config_refl e : Config e e.
Proof. constructor; reflexivity. Qed.

(** ** The stream semantics the engine implements

    For an input stream [X] (channel, position) the [j]-th frame covers the
    positions [j * hopSize, j * hopSize + fftSize) and is folded into the
    output stream at position [fftSize - 1 + j * hopSize]. *)

Section Stream.

Variable e0 : Engine.
Variable B : Z.
Variable X : Z -> Z -> sample.
(** channel counts of the input blocks and of the output blocks *)
Variables Cin Cout : Z.
(** Whether the content of the buffers is related to the stream: the
    relations on the counters hold on their own ([D := False]), whatever
    the blocks hold and however their channel counts vary. *)
Variable D : Prop.

Let N := fftSize e0.
Let H := hopSize e0.
Let numChIn := Z.min Cin (nChIn e0).
Let numChOut := Z.min Cout (nChOut e0).
Let maxNumChannels := Z.max numChIn numChOut.

Definition fillFrame (fb : AudioBuffer) (j : Z) : AudioBuffer :=
  setData fb (fun c i =>
    if inChan c 0 numChIn && inRange i 0 N
    then mul (X c (j * H + i)) (window e0 i)
    else at_ fb c i).

Fixpoint frameAfter (j : nat) : AudioBuffer :=
  match j with
  | O => fftInOutBuffer e0
  | S j' => processFrameInBuffer maxNumChannels (fillFrame (frameAfter j') (Z.of_nat j'))
  end.

Definition foldFrame (s : Z -> Z -> sample) (fb : AudioBuffer) (P : Z)
    : Z -> Z -> sample :=
  fun c n =>
    if inChan c 0 (nChOut e0) && inRange n P (N - H)
    then add (s c n) (at_ fb c (n - P))
    else if inChan c 0 (nChOut e0) && inRange n (P + (N - H)) H
    then at_ fb c (n - P)
    else s c n.

Fixpoint streamAfter (j : nat) : Z -> Z -> sample :=
  match j with
  | O => fun _ _ => zero
  | S j' => foldFrame (streamAfter j') (frameAfter (S j')) (N - 1 + Z.of_nat j' * H)
  end.

(** The output stream: position [n] is final once frame [n + 1] starts. *)
Definition outStream (c n : Z) : sample :=
  if inChan c 0 numChOut then streamAfter (Z.to_nat (n + 1)) c n else zero.

Hypothesis Hsized : Sized e0 B.
Hypothesis Hhook : KeepsShape.

Definition Safe : Prop := 0 <= nChOut e0 <= nChIn e0.

Lemma frameAfter_shape j :
  numChannels (frameAfter j) = numChannels (fftInOutBuffer e0) /\
  numSamples (frameAfter j) = numSamples (fftInOutBuffer e0).
Proof.
  induction j as [|j IH]; simpl; [auto|].
  destruct (Hhook maxNumChannels (fillFrame (frameAfter j) (Z.of_nat j))) as [-> ->].
  exact IH.
Qed.

Lemma streamAfter_stable k : forall j c n,
  n < N - 1 + Z.of_nat j * H ->
  streamAfter (k + j) c n = streamAfter j c n.
Proof.
  destruct Hsized as [[Hh Hv] _ _ _ _ _ _ _]. fold H in Hh, Hv.
  induction k as [|k IH]; intros j c n Hn; [reflexivity|].
  simpl plus. cbn [streamAfter]. unfold foldFrame.
  assert (Hge : N - 1 + Z.of_nat j * H <= N - 1 + Z.of_nat (k + j) * H) by nia.
  fold N in Hv.
  decide_tests; try lia; apply IH; assumption.
Qed.

Lemma streamAfter_any j1 j2 c n :
  n < N - 1 + Z.of_nat j1 * H -> n < N - 1 + Z.of_nat j2 * H ->
  streamAfter j1 c n = streamAfter j2 c n.
Proof.
  intros H1 H2.
  destruct (Nat.le_ge_cases j1 j2) as [Hle|Hle].
  - replace j2 with ((j2 - j1) + j1)%nat by lia.
    symmetry. apply streamAfter_stable. assumption.
  - replace j1 with ((j1 - j2) + j2)%nat by lia.
    apply streamAfter_stable. assumption.
Qed.

(** The state inside one [process] call that started after [T] input
    samples: [j] frames are complete and the next frame still lacks all
    but [cur] of its samples ([cur] is [notYetUsedAudioDataCount] in the
    first loop and [- dataOffset] in the second). *)
Record Mid (T L : Z) (nyu0 : AudioBuffer) (e : Engine) (j : nat) (cur : Z)
    : Prop := {
  m_cfg : Config e0 e;
  m_T : T = Z.of_nat j * H + cur;
  m_hi : cur < N;
  m_lo : 0 <= cur \/ N - H <= cur + L;
  m_started : j = 0%nat \/ N - H <= cur + L;
  m_off : outputOffset e = N - 1 - cur;
  m_fb : D -> fftInOutBuffer e = frameAfter j;
  m_nyu : notYetUsedAudioData e = nyu0;
  m_ob : D -> forall c i, 0 <= c < numChOut ->
         0 <= i < numSamples (outputBuffer e0) ->
         (i < outputOffset e + N - H \/ j = 0%nat) ->
         at_ (outputBuffer e) c i = streamAfter j c (T + i);
  m_zero : j = 0%nat -> forall c i, at_ (outputBuffer e) c i = zero
}.

(** Reducing record projections applied to the state updates. *)
Ltac fields_in H :=
  cbn [setOutput setFrame setCarry setCount setData
       window fftInOutBuffer fftSize hopSize nChIn nChOut
       notYetUsedAudioData outputBuffer outputOffset
       notYetUsedAudioDataCount numChannels numSamples at_ fst snd] in H.

Ltac fields :=
  cbn [setOutput setFrame setCarry setCount setData
       window fftInOutBuffer fftSize hopSize nChIn nChOut
       notYetUsedAudioData outputBuffer outputOffset
       notYetUsedAudioDataCount numChannels numSamples at_ fst snd];
  repeat match goal with
  | H : ?T |- _ =>
      match type of T with Prop => progress fields_in H end
  end.

(** [unfold] and [set] restricted to the goal and the hypotheses. *)
Tactic Notation "unfold_all" constr(c) :=
  try unfold c;
  repeat match goal with
  | H : ?T |- _ =>
      match type of T with Prop => progress unfold c in H end
  end.

Tactic Notation "set_all" ident(x) constr(t) :=
  set (x := t);
  repeat match goal with
  | H : ?T |- _ =>
      match type of T with Prop => progress change t with x in H end
  end.

(** Turning a failed bounds check into arithmetic. *)
Ltac failed_check :=
  repeat match goal with
  | H : _ \/ _ |- _ => destruct H
  | H : chansOk _ _ _ _ _ = false |- _ => apply chansOk_false in H; destruct H
  | H : vecOk _ _ _ _ = false |- _ => apply vecOk_false in H; destruct H
  end.

Lemma frame_step T L nyu0 e j cur fb :
  0 <= L <= B ->
  Mid T L nyu0 e j cur ->
  N <= cur + L ->
  numChannels fb = numChannels (fftInOutBuffer e0) ->
  numSamples fb = numSamples (fftInOutBuffer e0) ->
  (D -> fb = fillFrame (frameAfter j) (Z.of_nat j)) ->
  match processAndWriteBack maxNumChannels (setFrame e fb) with
  | Some e1 =>
      Mid T L nyu0 e1 (S j) (cur - H) /\
      notYetUsedAudioDataCount e1 = notYetUsedAudioDataCount e
  | None => ~ Safe
  end.
Proof.
  intros HL M Hfull Hsc Hss Hfb.
  destruct Hsized as [[Hh Hv] HB Hnc Hns Hfc Hfs Hoc Hos].
  fold H in Hh, Hv. fold N in Hv, Hns, Hfs, Hos.
  destruct M as [C MT Mhi Mlo Mst Moff Mfb Mnyu Mob Mz].
  destruct C as [Cw Cf Ch Ci Co Cnc Cns Cfc Cfs Coc Cos].
  destruct (Hhook maxNumChannels fb) as [Fc Fs].
  unfold processAndWriteBack, writeBackFrame. fields.
  rewrite Cf, Ch, Co, Moff. fold N H.
  destruct (addFrom _ _ _ _ _ _) as [ob1|] eqn:E1.
  - destruct (addFrom_inv _ _ _ _ _ _ _ E1) as (A1 & A2 & A3).
    destruct (copy _ _ _ _ _ _) as [ob2|] eqn:E2.
    + destruct (copy_inv _ _ _ _ _ _ _ E2) as (B1 & B2 & B3).
      fields. split; [|reflexivity].
      constructor; fields; try lia; try assumption; try reflexivity;
        try (intros Hz; discriminate Hz).
      * constructor; fields; try assumption; congruence.
      * intros Dd. rewrite (Hfb Dd). reflexivity.
      * intros Dd c i Hc Hi Hr.
        cbn [streamAfter frameAfter]. unfold foldFrame. fold N H.
        rewrite <- (Hfb Dd), B3, A3.
        assert (Hn : 0 <= c < nChOut e0) by (unfold numChOut in Hc; lia).
        replace (N - 1 + Z.of_nat j * H) with (T + (N - 1 - cur)) by lia.
        decide_tests; try lia.
        -- f_equal; lia.
        -- f_equal; [apply (Mob Dd); lia | f_equal; lia].
        -- apply (Mob Dd); lia.
    + intros [S1 S2]. apply copy_None in E2.
      failed_check; lia.
  - intros [S1 S2]. apply addFrom_None in E1.
    failed_check; lia.
Qed.

Lemma Mid_setCount T L nyu0 e j cur k :
  Mid T L nyu0 e j cur -> Mid T L nyu0 (setCount e k) j cur.
Proof.
  intros [[] ? ? ? ? ? ? ? ? ?].
  constructor; fields; try assumption.
  constructor; fields; assumption.
Qed.

(** The state between two [process] calls, after [T] input samples of
    which [j] frames have been made. *)
Record Rel (T : Z) (e : Engine) (j : nat) : Prop := {
  r_cfg : Config e0 e;
  r_T : T = Z.of_nat j * H + notYetUsedAudioDataCount e;
  r_lo : 0 <= notYetUsedAudioDataCount e;
  r_hi : notYetUsedAudioDataCount e < N;
  r_started : j = 0%nat \/ N - H <= notYetUsedAudioDataCount e;
  r_off : outputOffset e = N - 1 - notYetUsedAudioDataCount e;
  r_fb : D -> fftInOutBuffer e = frameAfter j;
  r_nyu : D -> forall c i, 0 <= c < numChIn ->
          0 <= i < notYetUsedAudioDataCount e ->
          at_ (notYetUsedAudioData e) c i =
          X c (T - notYetUsedAudioDataCount e + i);
  r_ob : D -> forall c i, 0 <= c < numChOut ->
         0 <= i < numSamples (outputBuffer e0) ->
         (i < outputOffset e + N - H \/ j = 0%nat) ->
         at_ (outputBuffer e) c i = streamAfter j c (T + i);
  r_zero : j = 0%nat -> forall c i, at_ (outputBuffer e) c i = zero
}.

Section Call.

(** One [process] call: [T] samples were consumed before it, the input
    block carries the [L] samples that follow. *)
Variable T : Z.
Variable inputBlock : AudioBuffer.
Let L := numSamples inputBlock.
Hypothesis HL : 0 <= L <= B.
Hypothesis Hin_c : numChannels inputBlock = Cin.
Hypothesis Hin_d : D -> forall c i, 0 <= c < numChIn -> 0 <= i < L ->
  at_ inputBlock c i = X c (T + i).

(** [count0], [nyu0]: the carry-over when the call starts. *)
Variable count0 : Z.
Variable nyu0 : AudioBuffer.
Hypothesis Hcount0 : count0 < N.
Hypothesis Hnyu0 : D -> forall c i, 0 <= c < numChIn -> 0 <= i < count0 ->
  at_ nyu0 c i = X c (T - count0 + i).

Lemma useLeftOvers_spec fuel : forall e j off,
  Mid T L nyu0 e j (notYetUsedAudioDataCount e) ->
  off = count0 - notYetUsedAudioDataCount e ->
  notYetUsedAudioDataCount e <= count0 ->
  (Z.to_nat (notYetUsedAudioDataCount e) <= fuel)%nat ->
  match useLeftOvers fuel inputBlock numChIn maxNumChannels e off with
  | Some (e', _) =>
      exists j', Mid T L nyu0 e' j' (notYetUsedAudioDataCount e') /\
                 ~ (0 < notYetUsedAudioDataCount e' /\
                    N <= notYetUsedAudioDataCount e' + L) /\
                 notYetUsedAudioDataCount e' <= count0
  | None => ~ Safe
  end.
Proof.
  destruct Hsized as [[Hh Hv] HB Hnc Hns Hfc Hfs Hoc Hos].
  fold H in Hh, Hv. fold N in Hv, Hns, Hfs, Hos.
  assert (Hexit : forall e j,
    Mid T L nyu0 e j (notYetUsedAudioDataCount e) ->
    notYetUsedAudioDataCount e <= count0 ->
    (0 <? notYetUsedAudioDataCount e) &&
      (N <=? notYetUsedAudioDataCount e + L) = false ->
    exists j', Mid T L nyu0 e j' (notYetUsedAudioDataCount e) /\
               ~ (0 < notYetUsedAudioDataCount e /\
                  N <= notYetUsedAudioDataCount e + L) /\
               notYetUsedAudioDataCount e <= count0).
  { intros e j M Hle Ec. exists j. split; [exact M|]. split; [|exact Hle].
    intros [C1 C2]. apply Z.ltb_lt in C1. apply Z.leb_le in C2.
    rewrite C1, C2 in Ec. discriminate. }
  induction fuel as [|fuel IH]; intros e j off M Hoff Hle Hfuel;
    cbn [useLeftOvers]; fold L;
    pose proof (cf_fft _ _ (m_cfg _ _ _ _ _ _ M)) as Cf;
    pose proof (cf_hop _ _ (m_cfg _ _ _ _ _ _ M)) as Ch;
    pose proof (cf_window _ _ (m_cfg _ _ _ _ _ _ M)) as Cw;
    rewrite Cf; fold N;
    (destruct ((0 <? notYetUsedAudioDataCount e) &&
               (N <=? notYetUsedAudioDataCount e + L)) eqn:Ec;
     [apply andb_true_iff in Ec; destruct Ec as [Ec1 Ec2];
      apply Z.ltb_lt in Ec1; apply Z.leb_le in Ec2
     | eapply Hexit; eassumption]).
  - intros _. lia.
  - set_all cur (notYetUsedAudioDataCount e).
    pose proof M as M'.
    destruct M' as [C MT Mhi Mlo Mst Moff Mfb Mnyu Mob Mz].
    destruct C as [_ _ _ Ci Co Cnc Cns Cfc Cfs Coc Cos].
    rewrite Mnyu, Cw.
    destruct (multiply numChIn (fftInOutBuffer e) 0 nyu0 off _ _ _ _)
      as [fb1|] eqn:E1.
    + destruct (multiply_inv _ _ _ _ _ _ _ _ _ _ E1) as (A1 & A2 & A3).
      destruct (multiply numChIn fb1 cur inputBlock 0 _ _ _ _)
        as [fb2|] eqn:E2.
      * destruct (multiply_inv _ _ _ _ _ _ _ _ _ _ E2) as (B1 & B2 & B3).
        assert (Efb : D -> fb2 = fillFrame (frameAfter j) (Z.of_nat j)).
        { intros Dd.
          apply buffer_eq; unfold fillFrame; fields;
            rewrite <- ?(Mfb Dd); try congruence.
          intros c i. rewrite B3, A3.
          decide_tests; try lia; try reflexivity.
          - f_equal; [|f_equal; lia].
            rewrite (Hin_d Dd) by lia. f_equal. lia.
          - f_equal; [|f_equal; lia].
            rewrite (Hnyu0 Dd) by lia. f_equal. lia. }
        assert (Esc : numChannels fb2 = numChannels (fftInOutBuffer e0))
          by congruence.
        assert (Ess : numSamples fb2 = numSamples (fftInOutBuffer e0))
          by congruence.
        pose proof (frame_step T L nyu0 e j cur fb2 HL M Ec2 Esc Ess Efb) as FS.
        destruct (processAndWriteBack maxNumChannels (setFrame e fb2))
          as [e1|]; [|exact FS].
        destruct FS as [M1 Hc1].
        rewrite Ch. fold H.
        apply (IH (setCount e1 (cur - H)) (S j) (off + H)).
        -- fields. apply Mid_setCount. exact M1.
        -- fields. lia.
        -- fields. lia.
        -- fields. lia.
      * intros _. apply multiply_None in E2.
        subst L. rewrite <- Mnyu in *.
        failed_check; unfold_all numChIn; lia.
    + intros _. apply multiply_None in E1.
      rewrite <- Mnyu in *.
      failed_check; unfold_all numChIn; lia.
Qed.

Lemma useNewSamples_spec fuel : forall e j dataOffset,
  Mid T L nyu0 e j (- dataOffset) ->
  0 <= dataOffset ->
  (Z.to_nat (L - dataOffset) <= fuel)%nat ->
  match useNewSamples fuel inputBlock numChIn maxNumChannels e dataOffset with
  | Some (e', d') =>
      exists j', Mid T L nyu0 e' j' (- d') /\ L - d' < N /\ 0 <= d'
  | None => ~ Safe
  end.
Proof.
  destruct Hsized as [[Hh Hv] HB Hnc Hns Hfc Hfs Hoc Hos].
  fold H in Hh, Hv. fold N in Hv, Hns, Hfs, Hos.
  induction fuel as [|fuel IH]; intros e j d M Hd Hfuel;
    cbn [useNewSamples]; fold L;
    pose proof (cf_fft _ _ (m_cfg _ _ _ _ _ _ M)) as Cf;
    pose proof (cf_hop _ _ (m_cfg _ _ _ _ _ _ M)) as Ch;
    pose proof (cf_window _ _ (m_cfg _ _ _ _ _ _ M)) as Cw;
    rewrite Cf; fold N;
    (destruct (N <=? L - d) eqn:Ec;
     [apply Z.leb_le in Ec
     | apply Z.leb_gt in Ec; exists j; split; [exact M | split; [lia | exact Hd]]]).
  - intros _. lia.
  - pose proof M as M'.
    destruct M' as [C MT Mhi Mlo Mst Moff Mfb Mnyu Mob Mz].
    destruct C as [_ _ _ Ci Co Cnc Cns Cfc Cfs Coc Cos].
    rewrite Cw.
    destruct (multiply numChIn (fftInOutBuffer e) 0 inputBlock d _ _ _ _)
      as [fb|] eqn:E1.
    + destruct (multiply_inv _ _ _ _ _ _ _ _ _ _ E1) as (A1 & A2 & A3).
      assert (Efb : D -> fb = fillFrame (frameAfter j) (Z.of_nat j)).
      { intros Dd.
        apply buffer_eq; unfold fillFrame; fields;
          rewrite <- ?(Mfb Dd); try congruence.
        intros c i. rewrite A3.
        decide_tests; try lia; try reflexivity.
        f_equal; [|f_equal; lia].
        rewrite (Hin_d Dd) by lia. f_equal. lia. }
      assert (Hfull : N <= - d + L) by lia.
      assert (Esc : numChannels fb = numChannels (fftInOutBuffer e0))
        by congruence.
      assert (Ess : numSamples fb = numSamples (fftInOutBuffer e0))
        by congruence.
      pose proof (frame_step T L nyu0 e j (- d) fb HL M Hfull Esc Ess Efb)
        as FS.
      destruct (processAndWriteBack maxNumChannels (setFrame e fb))
        as [e1|]; [|exact FS].
      destruct FS as [M1 Hc1].
      rewrite Ch. fold H.
      apply (IH e1 (S j) (d + H)).
      * replace (- (d + H)) with (- d - H) by lia. exact M1.
      * lia.
      * lia.
    + intros _. apply multiply_None in E1.
      subst L. failed_check; unfold_all numChIn; lia.
Qed.

(** The state between the two halves of [process]. *)
Record Consumed (e : Engine) (j : nat) : Prop := {
  c_cfg : Config e0 e;
  c_T : T + L = Z.of_nat j * H + notYetUsedAudioDataCount e;
  c_lo : 0 <= notYetUsedAudioDataCount e;
  c_hi : notYetUsedAudioDataCount e < N;
  c_started : j = 0%nat \/ N - H <= notYetUsedAudioDataCount e;
  c_off : outputOffset e = N - 1 - (notYetUsedAudioDataCount e - L);
  c_fb : D -> fftInOutBuffer e = frameAfter j;
  c_nyu : D -> forall c i, 0 <= c < numChIn ->
          0 <= i < notYetUsedAudioDataCount e ->
          at_ (notYetUsedAudioData e) c i =
          X c (T + L - notYetUsedAudioDataCount e + i);
  c_ob : D -> forall c i, 0 <= c < numChOut ->
         0 <= i < numSamples (outputBuffer e0) ->
         (i < outputOffset e + N - H \/ j = 0%nat) ->
         at_ (outputBuffer e) c i = streamAfter j c (T + i);
  c_zero : j = 0%nat -> forall c i, at_ (outputBuffer e) c i = zero
}.

Lemma Mid_setCarry e j cur nyu k :
  Mid T L nyu0 e j cur ->
  numChannels nyu = numChannels nyu0 -> numSamples nyu = numSamples nyu0 ->
  0 <= k < N -> k = cur + L ->
  (D -> forall c i, 0 <= c < numChIn -> 0 <= i < k ->
               at_ nyu c i = X c (T + L - k + i)) ->
  Consumed (setCarry e nyu k) j.
Proof.
  intros [[] ? ? ? ? ? ? Hn ? ?] Hc Hs Hk -> Hd.
  constructor; fields; try assumption; try lia.
  constructor; fields; try assumption; congruence.
Qed.

Lemma consumeInput_spec e j :
  Mid T L nyu0 e j count0 ->
  notYetUsedAudioDataCount e = count0 ->
  0 <= count0 ->
  match consumeInput e inputBlock numChIn maxNumChannels with
  | Some e1 => exists j', Consumed e1 j'
  | None => ~ Safe
  end.
Proof.
  intros M Hc0 Hpos.
  destruct Hsized as [[Hh Hv] HB Hnc Hns Hfc Hfs Hoc Hos].
  fold H in Hh, Hv. fold N in Hv, Hns, Hfs, Hos.
  unfold consumeInput. fold L. rewrite Hc0.
  assert (M0 : Mid T L nyu0 e j (notYetUsedAudioDataCount e))
    by (rewrite Hc0; exact M).
  pose proof (useLeftOvers_spec (Z.to_nat count0) e j 0 M0) as S1.
  destruct (useLeftOvers _ _ _ _ _ _) as [[e1 off1]|];
    [|apply S1; rewrite ?Hc0; lia].
  destruct S1 as (j1 & M1 & Hexit & Hle1); [lia | lia | lia |].
  fields. set_all cur (notYetUsedAudioDataCount e1).
  pose proof M1 as M1'.
  destruct M1' as [C MT Mhi Mlo Mst Moff Mfb Mnyu Mob Mz].
  destruct C as [Cw Cf Ch Ci Co Cnc Cns Cfc Cfs Coc Cos].
  fold N in Cf. fold H in Ch.
  destruct (0 <? cur) eqn:Ecur.
  - apply Z.ltb_lt in Ecur.
    destruct (copy numChIn _ 0 _ (count0 - cur) cur) as [nyu1|] eqn:E1.
    + destruct (copy_inv _ _ _ _ _ _ _ E1) as (A1 & A2 & A3).
      destruct (copy numChIn nyu1 cur inputBlock 0 L) as [nyu2|] eqn:E2.
      * destruct (copy_inv _ _ _ _ _ _ _ E2) as (B1 & B2 & B3).
        exists j1. eapply Mid_setCarry; [exact M1 | | | lia | reflexivity |].
        -- congruence.
        -- congruence.
        -- intros Dd c i Hc Hi. rewrite B3, A3, Mnyu.
           decide_tests; try lia.
           ++ rewrite (Hin_d Dd) by lia. f_equal. lia.
           ++ rewrite (Hnyu0 Dd) by lia. f_equal. lia.
      * intros _. apply copy_None in E2. subst L.
        failed_check; unfold_all numChIn; lia.
    + intros _. apply copy_None in E1.
      failed_check; unfold_all numChIn; lia.
  - apply Z.ltb_ge in Ecur.
    assert (M2 : Mid T L nyu0 e1 j1 (- - cur))
      by (rewrite Z.opp_involutive; exact M1).
    pose proof (useNewSamples_spec (Z.to_nat (L - - cur)) e1 j1 (- cur) M2)
      as S2.
    destruct (useNewSamples _ _ _ _ _ _) as [[e2 d]|];
      [|apply S2; lia].
    destruct S2 as (j2 & M3 & Hex & Hd); [lia | lia |].
    fields. clear M1 M2 Mob Mfb Moff Mst Mlo Mhi MT Mnyu.
    pose proof M3 as M3'.
    destruct M3' as [C MT Mhi Mlo Mst Moff Mfb Mnyu Mob Mz'].
    destruct C as [Cw' Cf' Ch' Ci' Co' Cnc' Cns' Cfc' Cfs' Coc' Cos'].
    destruct (0 <? L - d) eqn:Erem.
    + apply Z.ltb_lt in Erem.
      destruct (copy numChIn _ 0 inputBlock d (L - d)) as [nyu|] eqn:E1.
      * destruct (copy_inv _ _ _ _ _ _ _ E1) as (A1 & A2 & A3).
        exists j2. eapply Mid_setCarry; [exact M3 | | | lia | lia |].
        -- congruence.
        -- congruence.
        -- intros Dd c i Hc Hi. rewrite A3.
           decide_tests; try lia.
           rewrite (Hin_d Dd) by lia. f_equal. lia.
      * intros _. apply copy_None in E1. subst L.
        failed_check; unfold_all numChIn; lia.
    + apply Z.ltb_ge in Erem.
      exists j2. eapply Mid_setCarry; [exact M3 | | | lia | lia |].
      * congruence.
      * congruence.
      * intros Dd c i Hc Hi. lia.
Qed.

Hypothesis HT : 0 <= T.
Variable outputBlock : AudioBuffer.
Hypothesis Hout_c : numChannels outputBlock = Cout.
Hypothesis Hout_s : L <= numSamples outputBlock.

(** What [returnSamples] wrote into the caller's block, and whether the
    clamp of the shift length was active. *)
Definition Returned (out : AudioBuffer) : Prop :=
  numChannels out = numChannels outputBlock /\
  numSamples out = numSamples outputBlock /\
  (D -> forall c i, 0 <= c < Cout -> 0 <= i < L ->
               at_ out c i = outStream c (T + i)) /\
  (forall c i, ~ (0 <= c < Cout /\ 0 <= i < L) ->
               at_ out c i = at_ outputBlock c i).

Lemma returnSamples_spec e j :
  Consumed e j ->
  match returnSamples e L numChOut outputBlock with
  | Some (e', out) => Rel (T + L) e' j /\ Returned out
  | None => ~ Safe
  end.
Proof.
  intros Cs.
  destruct Hsized as [[Hh Hv] HB Hnc Hns Hfc Hfs Hoc Hos].
  fold H in Hh, Hv. fold N in Hv, Hns, Hfs, Hos.
  destruct Cs as [C CT Clo Chi Cst Coff Cfb Cnyu Cob Cz].
  pose proof C as C'.
  destruct C' as [Cw Cf Ch Ci Co Cnc Cns Cfc Cfs Coc Cos].
  unfold returnSamples. rewrite Cf, Ch, Coff, Cos. fold N H.
  set_all count (notYetUsedAudioDataCount e).
  set_all S (numSamples (outputBuffer e0)).
  set (shiftL0 := N - 1 - (count - L) + N - H - L).
  set (shiftL := if 0 <? L + shiftL0 - S
                 then shiftL0 - (L + shiftL0 - S) else shiftL0).
  assert (Hshift : 0 <= shiftL /\ L + shiftL <= S /\
                   (shiftL = shiftL0 \/ j = 0%nat)).
  { unfold shiftL.
    destruct (0 <? L + shiftL0 - S) eqn:Et;
      [apply Z.ltb_lt in Et | apply Z.ltb_ge in Et];
      unfold_all shiftL0; lia. }
  destruct Hshift as (Hs0 & Hs1 & Hs2).
  destruct (copy numChOut outputBlock 0 (outputBuffer e) 0 L)
    as [out1|] eqn:E1.
  - destruct (copy_inv _ _ _ _ _ _ _ E1) as (A1 & A2 & A3).
    destruct (copy numChOut (outputBuffer e) 0 (outputBuffer e) L shiftL)
      as [ob1|] eqn:E2.
    + destruct (copy_inv _ _ _ _ _ _ _ E2) as (B1 & B2 & B3).
      destruct (clearChannels numChOut (numChannels outputBlock) out1 L)
        as [out2|] eqn:E3.
      * destruct (clearChannels_inv _ _ _ _ _ E3) as (D1 & D2 & D3).
        split.
        -- constructor; fields; try assumption; try lia.
           ++ constructor; fields; try assumption;
                unfold_all S; congruence.
           ++ intros Dd c i Hc Hi Hr. rewrite B3.
              decide_tests.
              1: replace (T + L + i) with (T + (i - 0 + L)) by lia;
                 apply (Cob Dd); lia.
              all: destruct (Nat.eq_dec j 0) as [->|Hj];
                [rewrite (Cz eq_refl); reflexivity | unfold_all shiftL0; lia].
           ++ intros Hj c i. rewrite B3.
              decide_tests; apply Cz; assumption.
        -- repeat split; try congruence.
           ++ intros Dd c i Hc Hi. unfold outStream. rewrite D3, A3, Hout_c.
              decide_tests; try lia; try reflexivity.
              replace (i - 0 + 0) with i by lia.
              rewrite (Cob Dd) by lia.
              apply streamAfter_any; [nia|].
              rewrite Z2Nat.id by lia. nia.
           ++ intros c i Hn. rewrite D3, A3, Hout_c.
              pose proof (clearChannels_ok _ _ _ _ _ E3) as G.
              decide_tests; try lia; try reflexivity;
                unfold_all numChOut; lia.
      * intros [S1 S2]. apply clearChannels_None in E3.
        failed_check; unfold_all numChOut; lia.
    + intros [S1 S2]. apply copy_None in E2.
      failed_check; unfold_all numChOut; lia.
  - intros [S1 S2]. apply copy_None in E1.
    failed_check; unfold_all numChOut; lia.
Qed.

End Call.
Lemma Rel_nonneg T e j : Rel T e j -> 0 <= T.
Proof.
  destruct Hsized as [[Hh Hv] _ _ _ _ _ _ _]. fold H in Hh.
  intros [_ RT Rlo _ _ _ _ _ _ _]. nia.
Qed.

Lemma process_spec T e j inputBlock outputBlock :
  Rel T e j ->
  0 <= numSamples inputBlock <= B ->
  numChannels inputBlock = Cin ->
  (D -> forall c i, 0 <= c < numChIn -> 0 <= i < numSamples inputBlock ->
               at_ inputBlock c i = X c (T + i)) ->
  numChannels outputBlock = Cout ->
  numSamples inputBlock <= numSamples outputBlock ->
  match process e inputBlock outputBlock with
  | Some (e', out) =>
      (exists j', Rel (T + numSamples inputBlock) e' j') /\
      Returned T inputBlock outputBlock out
  | None => ~ Safe
  end.
Proof.
  intros R HL Hc Hd Hoc Hos.
  pose proof (Rel_nonneg _ _ _ R) as HT.
  pose proof R as R'.
  destruct R' as [C RT Rlo Rhi Rst Roff Rfb Rnyu Rob Rz].
  unfold process.
  rewrite Hc, Hoc, (cf_in _ _ C), (cf_out _ _ C).
  fold numChIn numChOut maxNumChannels.
  assert (M : Mid T (numSamples inputBlock) (notYetUsedAudioData e) e j
                  (notYetUsedAudioDataCount e)).
  { constructor; try assumption; try reflexivity; lia. }
  pose proof (consumeInput_spec T inputBlock HL Hc Hd
                (notYetUsedAudioDataCount e) (notYetUsedAudioData e)
                Rhi Rnyu e j M eq_refl Rlo) as S1.
  destruct (consumeInput e inputBlock numChIn maxNumChannels) as [e1|];
    [|exact S1].
  destruct S1 as [j1 Cs].
  pose proof (returnSamples_spec T inputBlock HL Hc HT outputBlock Hoc Hos
                e1 j1 Cs) as S2.
  destruct (returnSamples e1 _ numChOut outputBlock) as [[e2 out]|];
    [|exact S2].
  destruct S2 as [R2 Ret]. split; [exists j1; exact R2 | exact Ret].
Qed.

(** A freshly prepared engine. *)
Definition Fresh : Prop :=
  notYetUsedAudioDataCount e0 = 0 /\ outputOffset e0 = N - 1 /\
  forall c i, at_ (outputBuffer e0) c i = zero.

Lemma Rel_fresh : Fresh -> Rel 0 e0 0.
Proof.
  destruct Hsized as [[Hh Hv] _ _ _ _ _ _ _]. fold H in Hh, Hv. fold N in Hv.
  intros (F1 & F2 & F3).
  constructor; try rewrite F1; try rewrite F2; try lia; auto;
    try apply Config_refl.
Qed.

(** With the identity transform, the frames are the windowed input. *)
Hypothesis Hid : forall n b, processFrameInBuffer n b = b.

Lemma frameAfter_identity j c i :
  0 <= c < numChIn -> 0 <= i < N ->
  at_ (frameAfter (S j)) c i = mul (X c (Z.of_nat j * H + i)) (window e0 i).
Proof.
  intros Hc Hi. cbn [frameAfter]. rewrite Hid. unfold fillFrame.
  cbn [setData at_]. decide_tests; try lia. reflexivity.
Qed.

Lemma streamAfter_identity j : forall c n,
  0 <= c < numChIn -> c < nChOut e0 ->
  streamAfter j c n = overlapAdd (window e0) N H (X c) j (n - (N - 1)).
Proof.
  destruct Hsized as [[Hh Hv] _ _ _ _ _ _ _]. fold H in Hh, Hv. fold N in Hv.
  induction j as [|j IH]; intros c n Hc Hc'; [reflexivity|].
  cbn [streamAfter overlapAdd]. unfold foldFrame.
  rewrite IH by assumption.
  decide_tests; try lia; try reflexivity.
  - rewrite frameAfter_identity by lia.
    f_equal. f_equal; f_equal; lia.
  - rewrite frameAfter_identity by lia.
    f_equal; f_equal; lia.
Qed.

End Stream.

(** ** A stream delivered in chunks *)

Lemma total_nonneg_aux (ls : list Z) B :
  Forall (fun l => 0 <= l <= B) ls -> 0 <= fold_right Z.add 0 ls.
Proof.
  induction 1 as [|l ls Hl _ IH]; cbn [fold_right]; lia.
Qed.


Lemma runChunks_spec e0 B X Y Cin Cout :
  Sized e0 B -> KeepsShape ->
  forall ls T e j acc,
  Rel e0 X Cin Cout True T e j ->
  Forall (fun l => 0 <= l <= B) ls ->
  match runChunks e X Y Cin Cout T ls acc with
  | Some (e', out) =>
      (exists j', Rel e0 X Cin Cout True (T + total ls) e' j') /\
      forall c n,
        (0 <= c < Cout -> T <= n < T + total ls ->
         out c n = outStream e0 X Cin Cout c n) /\
        (~ (T <= n < T + total ls) -> out c n = acc c n)
  | None => ~ Safe e0
  end.
Proof.
  intros Hs Hk.
  induction ls as [|l ls IH]; intros T e j acc R HF; cbn [runChunks total fold_right].
  - split; [exists j; rewrite Z.add_0_r; exact R|].
    intros c n. split; [lia | reflexivity].
  - inversion HF as [|? ? Hl HF']; subst.
    pose proof (process_spec e0 B X Cin Cout True Hs Hk T e j
                  (blockOf X Cin T l) (blockOf Y Cout T l) R) as PS.
    unfold Returned in PS. cbn [blockOf numSamples numChannels at_] in PS.
    specialize (PS Hl eq_refl (fun _ c i _ _ => eq_refl) eq_refl (Z.le_refl _)).
    destruct (process e _ _) as [[e1 out]|]; [|exact PS].
    destruct PS as [[j1 R1] (_ & _ & Rd & _)].
    cbn [fst snd].
    specialize (IH (T + l) e1 j1
      (fun c n => if inRange n T l then at_ out c (n - T) else acc c n)
      R1 HF').
    destruct (runChunks e1 _ _ _ _ _ _ _) as [[e2 out2]|]; [|exact IH].
    destruct IH as [[j2 R2] IHd]. fold (total ls) in R2, IHd |- *.
    split; [exists j2; rewrite Z.add_assoc; exact R2|].
    pose proof (total_nonneg_aux ls B HF') as Hn. fold (total ls) in Hn.
    intros c n. destruct (IHd c n) as [I1 I2]. split.
    + intros Hc Hr.
      destruct (Z_lt_le_dec n (T + l)) as [Hlt|Hge].
      * rewrite I2 by lia.
        assert (E : inRange n T l = true) by (apply inRange_true; lia).
        rewrite E.
        rewrite (Rd I) by lia. f_equal. lia.
      * apply I1; [assumption|lia].
    + intros Hr. rewrite I2 by lia.
      assert (E : inRange n T l = false) by (apply inRange_false; lia).
      rewrite E. reflexivity.
Qed.

(** ** The constructor and [prepare] *)

Lemma construct_valid p d e :
  construct p d = Some e ->
  Valid e /\ fftSize e = 2 ^ p /\ hopSize e = 2 ^ (p - d) /\
  window e = createWindow (2 ^ p) (2 ^ (p - d)) /\ 0 < d <= p.
Proof.
  unfold construct.
  destruct (0 <? d) eqn:E1; [|discriminate].
  destruct (d <=? p) eqn:E2; [|discriminate].
  apply Z.ltb_lt in E1. apply Z.leb_le in E2.
  intros [= <-]. cbn [fftSize hopSize window Valid].
  rewrite Z.shiftl_1_l, Z.shiftr_div_pow2 by lia.
  assert (Hd : 2 ^ p / 2 ^ d = 2 ^ (p - d))
    by (rewrite Z.pow_sub_r by lia; reflexivity).
  rewrite Hd. unfold Valid. cbn [fftSize hopSize].
  repeat split; try reflexivity; try assumption.
  - assert (0 < 2 ^ (p - d)) by (apply Z.pow_pos_nonneg; lia). lia.
  - replace p with ((p - d) + d) at 2 by lia.
    rewrite Z.pow_add_r by lia.
    assert (0 < 2 ^ (p - d)) by (apply Z.pow_pos_nonneg; lia).
    assert (Hd2 : 2 ^ 1 <= 2 ^ d) by (apply Z.pow_le_mono_r; lia).
    change (2 ^ 1) with 2 in Hd2. nia.
Qed.

Lemma offsetLoop_stuck fuel : forall offset fftSz bufferSize,
  bufferSize <= 0 -> offset < fftSz ->
  offsetLoop fuel offset fftSz bufferSize = None.
Proof.
  induction fuel as [|fuel IH]; intros offset fftSz b Hb Ho; cbn [offsetLoop];
    (destruct (offset <? fftSz) eqn:E; [|apply Z.ltb_ge in E; lia]).
  - reflexivity.
  - apply IH; lia.
Qed.

Lemma offsetLoop_total fuel : forall offset fftSz bufferSize,
  1 <= bufferSize -> (Z.to_nat (fftSz - offset) <= fuel)%nat ->
  exists r, offsetLoop fuel offset fftSz bufferSize = Some r.
Proof.
  induction fuel as [|fuel IH]; intros offset fftSz b Hb Hf; cbn [offsetLoop];
    (destruct (offset <? fftSz) eqn:E;
     [apply Z.ltb_lt in E | eexists; reflexivity]).
  - lia.
  - apply IH; lia.
Qed.

Lemma prepare_spec e sampleRate B nIn nOut e0 :
  Valid e ->
  prepare e sampleRate B nIn nOut = Some e0 ->
  Sized e0 B /\ Fresh e0 /\
  window e0 = window e /\ fftSize e0 = fftSize e /\ hopSize e0 = hopSize e /\
  nChIn e0 = nIn /\ nChOut e0 = nOut /\ 0 <= nIn /\
  fftInOutBuffer e0 = mkBuffer (Z.max nIn nOut) (2 * fftSize e) junkFrame.
Proof.
  intros [Hh Hv]. unfold prepare, setSize. cbv zeta.
  destruct ((0 <=? nIn) && (0 <=? fftSize e - 1)) eqn:E1;
    cbv iota beta; [|discriminate].
  destruct ((0 <=? Z.max nIn nOut) && (0 <=? 2 * fftSize e)) eqn:E2;
    cbv iota beta; [|discriminate].
  match goal with |- context [(0 <=? nIn) && (0 <=? ?m)] =>
    destruct ((0 <=? nIn) && (0 <=? m)) eqn:E3
  end; cbv iota beta; [|discriminate].
  destruct (offsetLoop _ _ _ _) as [offset|] eqn:E4;
    cbv iota beta; [|discriminate].
  intros [= <-].
  apply andb_true_iff in E1. destruct E1 as [E1 _]. apply Z.leb_le in E1.
  assert (HB : 1 <= B).
  { destruct (Z_lt_le_dec 0 B) as [|Hle]; [lia|].
    rewrite offsetLoop_stuck in E4 by lia. discriminate. }
  assert (Hq : 0 <= (B - 1) / hopSize e) by (apply Z.div_pos; lia).
  assert (Hsz : fftSize e - 1 + B <=
                (1 + (B - 1) / hopSize e) * hopSize e +
                (fftSize e - hopSize e) + B - 1) by nia.
  unfold Fresh, clear, setData.
  split; [|repeat split; try reflexivity; assumption].
  constructor; try exact Hsz;
    cbn [window fftInOutBuffer fftSize hopSize nChIn nChOut
         notYetUsedAudioData outputBuffer outputOffset
         notYetUsedAudioDataCount numChannels numSamples at_];
    try reflexivity; try assumption; try nia.
  split; assumption.
Qed.

Lemma prepare_total e sampleRate B nIn nOut :
  Valid e -> 1 <= B -> 0 <= nIn ->
  exists e0, prepare e sampleRate B nIn nOut = Some e0.
Proof.
  intros [Hh Hv] HB Hn. unfold prepare, setSize. cbv zeta.
  assert (Hq : 0 <= (B - 1) / hopSize e) by (apply Z.div_pos; lia).
  replace ((0 <=? nIn) && (0 <=? fftSize e - 1)) with true
    by (symmetry; apply andb_true_iff; split; apply Z.leb_le; lia).
  replace ((0 <=? Z.max nIn nOut) && (0 <=? 2 * fftSize e)) with true
    by (symmetry; apply andb_true_iff; split; apply Z.leb_le; lia).
  match goal with |- context [(0 <=? nIn) && (0 <=? ?m)] =>
    replace ((0 <=? nIn) && (0 <=? m)) with true
      by (symmetry; apply andb_true_iff; split; apply Z.leb_le; nia)
  end.
  destruct (offsetLoop_total (Z.to_nat (fftSize e)) 0 (fftSize e) B HB)
    as [r ->]; [lia|].
  eexists. reflexivity.
Qed.

(** ** Calls with arbitrary blocks *)

Lemma Rel_counters e0 X Cin Cout T e j X' Cin' Cout' :
  Rel e0 X Cin Cout False T e j -> Rel e0 X' Cin' Cout' False T e j.
Proof.
  intros [? ? ? ? ? ? ? ? ? ?].
  constructor; try assumption; intros [].
Qed.

Lemma Reachable_Rel e0 B e :
  Sized e0 B -> KeepsShape -> Fresh e0 -> Reachable e0 B e ->
  exists T j, Rel e0 (fun _ _ => zero) 0 0 False T e j.
Proof.
  intros Hs Hk Hf HR.
  induction HR as [|e inp outB e' out HR IH HL Hroom HP].
  - exists 0, 0%nat. eapply Rel_fresh; eassumption.
  - destruct IH as (T & j & R).
    pose proof (process_spec e0 B (fun _ _ => zero)
                  (numChannels inp) (numChannels outB) False Hs Hk T e j
                  inp outB (Rel_counters _ _ _ _ _ _ _ _ _ _ R) HL eq_refl
                  (fun F => match F with end) eq_refl Hroom) as PS.
    rewrite HP in PS. destruct PS as [[j' R'] _].
    exists (T + numSamples inp), j'.
    eapply Rel_counters. exact R'.
Qed.

(** No access of a [process] call leaves an allocated buffer when the
    engine was prepared with no more output than input channels. *)
Lemma process_safe e0 B e inputBlock outputBlock :
  Sized e0 B -> KeepsShape -> Fresh e0 -> Reachable e0 B e ->
  0 <= nChOut e0 <= nChIn e0 ->
  0 <= numSamples inputBlock <= B ->
  numSamples inputBlock <= numSamples outputBlock ->
  exists e' out, process e inputBlock outputBlock = Some (e', out) /\
    numChannels out = numChannels outputBlock /\
    numSamples out = numSamples outputBlock /\
    forall c i, ~ (0 <= c < numChannels outputBlock /\
                   0 <= i < numSamples inputBlock) ->
                at_ out c i = at_ outputBlock c i.
Proof.
  intros Hs Hk Hf HR Hsafe HL Hroom.
  destruct (Reachable_Rel e0 B e Hs Hk Hf HR) as (T & j & R).
  pose proof (process_spec e0 B (fun _ _ => zero)
                (numChannels inputBlock) (numChannels outputBlock) False
                Hs Hk T e j inputBlock outputBlock
                (Rel_counters _ _ _ _ _ _ _ _ _ _ R) HL eq_refl
                (fun F => match F with end) eq_refl Hroom) as PS.
  destruct (process e inputBlock outputBlock) as [[e' out]|].
  - destruct PS as [_ (R1 & R2 & _ & R4)].
    exists e', out. repeat split; assumption.
  - exfalso. apply PS. exact Hsafe.
Qed.

(** The clamp of the shift length only ever acts while no frame has been
    written, that is, while [outputBuffer] holds nothing but zeros. *)
Lemma clamp_only_on_silence e0 B e inputBlock outputBlock e1 :
  Sized e0 B -> KeepsShape -> Fresh e0 -> Reachable e0 B e ->
  0 <= numSamples inputBlock <= B ->
  consumeInput e inputBlock
    (Z.min (numChannels inputBlock) (nChIn e))
    (Z.max (Z.min (numChannels inputBlock) (nChIn e))
           (Z.min (numChannels outputBlock) (nChOut e))) = Some e1 ->
  0 < numSamples inputBlock +
      (outputOffset e1 + fftSize e1 - hopSize e1 - numSamples inputBlock) -
      numSamples (outputBuffer e1) ->
  forall c i, at_ (outputBuffer e1) c i = zero.
Proof.
  intros Hs Hk Hf HR HL HC Hclamp.
  destruct (Reachable_Rel e0 B e Hs Hk Hf HR) as (T & j & R).
  pose proof (Rel_counters _ _ _ _ _ _ _ (fun _ _ => zero)
                (numChannels inputBlock) (numChannels outputBlock) R) as R'.
  destruct R' as [C RT Rlo Rhi Rst Roff Rfb Rnyu Rob Rz].
  assert (M : Mid e0 (fun _ _ => zero) (numChannels inputBlock)
                  (numChannels outputBlock) False T (numSamples inputBlock)
                  (notYetUsedAudioData e) e j (notYetUsedAudioDataCount e)).
  { constructor; try assumption; try reflexivity; lia. }
  pose proof (consumeInput_spec e0 B (fun _ _ => zero)
                (numChannels inputBlock) (numChannels outputBlock) False
                Hs Hk T inputBlock HL eq_refl (fun F => match F with end)
                (notYetUsedAudioDataCount e) (notYetUsedAudioData e)
                Rhi Rnyu e j M eq_refl Rlo) as S1.
  rewrite <- (cf_in _ _ C), <- (cf_out _ _ C) in S1.
  rewrite HC in S1. destruct S1 as [j1 Cs].
  destruct Cs as [C1 CT Clo Chi Cst Coff Cfb Cnyu Cob Cz].
  destruct Hs as [[Hh Hv] HB Hnc Hns Hfc Hfs Hoc Hos].
  apply Cz.
  destruct Cst as [E|Hge]; [exact E|exfalso].
  rewrite Coff, (cf_fft _ _ C1), (cf_hop _ _ C1), (cf_ob_s _ _ C1) in Hclamp.
  lia.
Qed.

(** ** Claims on the runtime-parameterised engine *)

(** C8.  After every [process] call of a prepared engine (blocks of at most
    [maximumBlockSize] samples) the carry-over count lies between 0 and
    [fftSize - 1], the number of samples allocated per channel of
    [notYetUsedAudioData]. *)
Theorem carry_over_count_bounded e sampleRate B nIn nOut e0 e' :
  Valid e -> KeepsShape ->
  prepare e sampleRate B nIn nOut = Some e0 ->
  Reachable e0 B e' ->
  0 <= notYetUsedAudioDataCount e' <= fftSize e' - 1 /\
  numSamples (notYetUsedAudioData e') = fftSize e' - 1.
Proof.
  intros Hv Hk Hp HR.
  destruct (prepare_spec _ _ _ _ _ _ Hv Hp) as (Hs & Hf & _).
  destruct (Reachable_Rel e0 B e' Hs Hk Hf HR) as (T & j & R).
  destruct R as [C _ Rlo Rhi _ _ _ _ _ _].
  rewrite (cf_fft _ _ C), (cf_nyu_s _ _ C), (sz_nyu_s _ _ Hs).
  split; [lia | reflexivity].
Qed.

(** C4.  Two ways of cutting the same input stream into blocks of at most
    [maximumBlockSize] samples give the same output stream, sample for
    sample; both runs complete when the engine was prepared with no more
    output than input channels. *)
Theorem block_size_independence e sampleRate B nIn nOut e0
    (X Y1 Y2 : Z -> Z -> sample) (Cin Cout : Z) (ls1 ls2 : list Z)
    (acc1 acc2 : Z -> Z -> sample) :
  Valid e -> KeepsShape ->
  prepare e sampleRate B nIn nOut = Some e0 ->
  Forall (fun l => 0 <= l <= B) ls1 ->
  Forall (fun l => 0 <= l <= B) ls2 ->
  total ls1 = total ls2 ->
  (0 <= nOut <= nIn ->
   exists r1 r2, runChunks e0 X Y1 Cin Cout 0 ls1 acc1 = Some r1 /\
                 runChunks e0 X Y2 Cin Cout 0 ls2 acc2 = Some r2) /\
  (forall r1 r2,
   runChunks e0 X Y1 Cin Cout 0 ls1 acc1 = Some r1 ->
   runChunks e0 X Y2 Cin Cout 0 ls2 acc2 = Some r2 ->
   forall c n, 0 <= c < Cout -> 0 <= n < total ls1 ->
               snd r1 c n = snd r2 c n).
Proof.
  intros Hv Hk Hp HF1 HF2 Ht.
  destruct (prepare_spec _ _ _ _ _ _ Hv Hp)
    as (Hs & Hf & _ & _ & _ & Hin & Hout & _).
  pose proof (Rel_fresh e0 B X Cin Cout True Hs Hf) as R0.
  pose proof (runChunks_spec e0 B X Y1 Cin Cout Hs Hk ls1 0 e0 0%nat acc1
                R0 HF1) as S1.
  pose proof (runChunks_spec e0 B X Y2 Cin Cout Hs Hk ls2 0 e0 0%nat acc2
                R0 HF2) as S2.
  split.
  - intros Hsafe.
    destruct (runChunks e0 X Y1 Cin Cout 0 ls1 acc1) as [r1|];
      [|exfalso; apply S1; unfold Safe; lia].
    destruct (runChunks e0 X Y2 Cin Cout 0 ls2 acc2) as [r2|];
      [|exfalso; apply S2; unfold Safe; lia].
    exists r1, r2. split; reflexivity.
  - intros [e1 o1] [e2 o2] E1 E2 c n Hc Hn.
    rewrite E1 in S1. rewrite E2 in S2. cbn [snd].
    destruct S1 as [_ S1]. destruct S2 as [_ S2].
    destruct (S1 c n) as [A1 _]. destruct (S2 c n) as [A2 _].
    rewrite A1, A2 by (assumption || lia). reflexivity.
Qed.

(** *** Hop-offset accounting *)

Lemma writeBackFrame_inv e e1 :
  writeBackFrame e = Some e1 ->
  outputOffset e1 = outputOffset e + hopSize e /\
  hopSize e1 = hopSize e /\
  foldedInto (outputBuffer e) (outputOffset e) e (outputBuffer e1).
Proof.
  unfold writeBackFrame.
  destruct (addFrom _ _ _ _ _ _) as [ob1|] eqn:E1; [|discriminate].
  destruct (copy _ _ _ _ _ _) as [ob2|] eqn:E2; [|discriminate].
  intros [= <-].
  destruct (addFrom_inv _ _ _ _ _ _ _ E1) as (_ & _ & A3).
  destruct (copy_inv _ _ _ _ _ _ _ E2) as (_ & _ & B3).
  cbn [setOutput outputOffset outputBuffer hopSize].
  split; [reflexivity|]. split; [reflexivity|].
  intros c i. rewrite B3, A3.
  decide_tests; try lia; try reflexivity;
    try (f_equal; lia); f_equal; f_equal; lia.
Qed.

Lemma WriteBacks_app fs1 : forall ob off fs2 ob1 off1 ob2 off2,
  WriteBacks ob off fs1 ob1 off1 ->
  WriteBacks ob1 off1 fs2 ob2 off2 ->
  WriteBacks ob off (fs1 ++ fs2) ob2 off2.
Proof.
  induction fs1 as [|f fs1 IH]; intros ob off fs2 ob1 off1 ob2 off2;
    cbn [WriteBacks app].
  - intros [-> ->] W. exact W.
  - intros (A1 & A2 & f' & A3 & A4 & A5 & A6) W.
    split; [exact A1|]. split; [exact A2|].
    exists f'. split; [exact A3|]. split; [exact A4|]. split; [exact A5|].
    exact (IH _ _ _ _ _ _ _ A6 W).
Qed.

Lemma useLeftOvers_frames_spec fuel inputBlock n m : forall e off e' off',
  useLeftOvers fuel inputBlock n m e off = Some (e', off') ->
  WriteBacks (outputBuffer e) (outputOffset e)
             (useLeftOvers_frames fuel inputBlock n m e off)
             (outputBuffer e') (outputOffset e') /\
  hopSize e' = hopSize e /\
  outputOffset e' = outputOffset e +
    Z.of_nat (length (useLeftOvers_frames fuel inputBlock n m e off))
    * hopSize e.
Proof.
  induction fuel as [|fuel IH]; intros e off e' off';
    cbn [useLeftOvers useLeftOvers_frames];
    destruct (_ && _); try discriminate;
    try (intros [= <- <-]; cbn [WriteBacks length];
         split; [split; reflexivity|]; split; [reflexivity | lia]).
  destruct (multiply _ _ _ _ _ _ _ _ _) as [fb1|]; [|discriminate].
  destruct (multiply _ _ _ _ _ _ _ _ _) as [fb2|]; [|discriminate].
  unfold processAndWriteBack. cbn [setFrame fftInOutBuffer].
  match goal with |- context [writeBackFrame ?x] =>
    destruct (writeBackFrame x) as [e1|] eqn:E
  end; [|discriminate].
  destruct (writeBackFrame_inv _ _ E) as (W1 & W2 & W3).
  intros HR. apply IH in HR. destruct HR as (I1 & I2 & I3).
  cbn [setCount setCarry setFrame hopSize outputOffset outputBuffer
       fftInOutBuffer] in I1, I2, I3, W1, W2, W3.
  cbn [WriteBacks length setFrame outputBuffer outputOffset hopSize].
  split; [|split; [congruence | rewrite I3, W1, W2; lia]].
  split; [reflexivity|]. split; [reflexivity|].
  exists e1. split; [exact E|]. split; [exact W3|]. split; [exact W1|].
  exact I1.
Qed.

Lemma useNewSamples_frames_spec fuel inputBlock n m : forall e d e' d',
  useNewSamples fuel inputBlock n m e d = Some (e', d') ->
  WriteBacks (outputBuffer e) (outputOffset e)
             (useNewSamples_frames fuel inputBlock n m e d)
             (outputBuffer e') (outputOffset e') /\
  hopSize e' = hopSize e /\
  outputOffset e' = outputOffset e +
    Z.of_nat (length (useNewSamples_frames fuel inputBlock n m e d))
    * hopSize e.
Proof.
  induction fuel as [|fuel IH]; intros e d e' d';
    cbn [useNewSamples useNewSamples_frames];
    destruct (_ <=? _); try discriminate;
    try (intros [= <- <-]; cbn [WriteBacks length];
         split; [split; reflexivity|]; split; [reflexivity | lia]).
  destruct (multiply _ _ _ _ _ _ _ _ _) as [fb|]; [|discriminate].
  unfold processAndWriteBack. cbn [setFrame fftInOutBuffer].
  match goal with |- context [writeBackFrame ?x] =>
    destruct (writeBackFrame x) as [e1|] eqn:E
  end; [|discriminate].
  destruct (writeBackFrame_inv _ _ E) as (W1 & W2 & W3).
  intros HR. apply IH in HR. destruct HR as (I1 & I2 & I3).
  cbn [setCount setCarry setFrame hopSize outputOffset outputBuffer
       fftInOutBuffer] in I1, I2, I3, W1, W2, W3.
  cbn [WriteBacks length setFrame outputBuffer outputOffset hopSize].
  split; [|split; [congruence | rewrite I3, W1, W2; lia]].
  split; [reflexivity|]. split; [reflexivity|].
  exists e1. split; [exact E|]. split; [exact W3|]. split; [exact W1|].
  exact I1.
Qed.

Lemma consumeInput_frames_spec e inputBlock n m e1 :
  consumeInput e inputBlock n m = Some e1 ->
  WriteBacks (outputBuffer e) (outputOffset e)
             (consumeInput_frames e inputBlock n m)
             (outputBuffer e1) (outputOffset e1) /\
  outputOffset e1 = outputOffset e +
    Z.of_nat (length (consumeInput_frames e inputBlock n m)) * hopSize e.
Proof.
  unfold consumeInput, consumeInput_frames.
  destruct (useLeftOvers _ _ _ _ _ _) as [[ea offa]|] eqn:E1; [|discriminate].
  apply useLeftOvers_frames_spec in E1. destruct E1 as (A1 & A2 & A3).
  cbn [fst snd].
  destruct (0 <? notYetUsedAudioDataCount ea).
  - destruct (copy _ _ _ _ _ _) as [nyu1|]; [|discriminate].
    destruct (copy _ _ _ _ _ _) as [nyu2|]; [|discriminate].
    intros [= <-]. rewrite app_nil_r.
    cbn [setCarry outputBuffer outputOffset]. split; assumption.
  - destruct (useNewSamples _ _ _ _ _ _) as [[eb db]|] eqn:E2; [|discriminate].
    apply useNewSamples_frames_spec in E2. destruct E2 as (B1 & B2 & B3).
    cbn [fst snd].
    destruct (if 0 <? _ then _ else _) as [nyu|]; [|discriminate].
    intros [= <-]. cbn [setCarry outputBuffer outputOffset].
    split; [exact (WriteBacks_app _ _ _ _ _ _ _ _ A1 B1)|].
    rewrite length_app, B3, A3, A2. lia.
Qed.


(** *** Channels beyond the prepared counts *)

Lemma chansOk_agree n m s1 s2 off num :
  agree n s1 s2 -> m = Z.min (numChannels s1) n ->
  chansOk s1 0 m off num = chansOk s2 0 m off num.
Proof.
  intros (A1 & A2 & _) Hm. unfold chansOk. rewrite <- A2.
  assert (E1 : (m <=? numChannels s1) = true) by (apply Z.leb_le; lia).
  assert (E2 : (m <=? numChannels s2) = true) by (apply Z.leb_le; lia).
  rewrite E1, E2. reflexivity.
Qed.

Lemma multiply_src_ext n m dst doff s1 s2 soff w wsize woff num :
  agree n s1 s2 -> m = Z.min (numChannels s1) n ->
  multiply m dst doff s1 soff w wsize woff num =
  multiply m dst doff s2 soff w wsize woff num.
Proof.
  intros A Hm. unfold multiply.
  rewrite (chansOk_agree n m s1 s2) by assumption.
  destruct (chansOk dst 0 m doff num); [|reflexivity].
  destruct (chansOk s2 0 m soff num) eqn:G; [|reflexivity].
  destruct (vecOk m wsize woff num); [|reflexivity].
  cbn [andb]. f_equal. unfold setData. f_equal.
  extensionality c. extensionality i.
  destruct A as (A1 & A2 & A3). apply chansOk_true in G.
  decide_tests; try reflexivity.
  f_equal. apply A3; lia.
Qed.

Lemma copy_src_ext n m dst doff s1 s2 soff num :
  agree n s1 s2 -> m = Z.min (numChannels s1) n ->
  copy m dst doff s1 soff num = copy m dst doff s2 soff num.
Proof.
  intros A Hm. unfold copy.
  rewrite (chansOk_agree n m s1 s2) by assumption.
  destruct (chansOk dst 0 m doff num); [|reflexivity].
  destruct (chansOk s2 0 m soff num) eqn:G; [|reflexivity].
  cbn [andb]. f_equal. unfold setData. f_equal.
  extensionality c. extensionality i.
  destruct A as (A1 & A2 & A3). apply chansOk_true in G.
  decide_tests; try reflexivity.
  apply A3; lia.
Qed.

Lemma useLeftOvers_src_ext n m mx s1 s2 fuel : forall e off,
  agree n s1 s2 -> m = Z.min (numChannels s1) n ->
  useLeftOvers fuel s1 m mx e off = useLeftOvers fuel s2 m mx e off.
Proof.
  induction fuel as [|fuel IH]; intros e off A Hm; cbn [useLeftOvers];
    rewrite (proj1 (proj2 A)); [reflexivity|].
  destruct (_ && _); [|reflexivity].
  destruct (multiply m (fftInOutBuffer e) _ _ _ _ _ _ _) as [fb1|];
    [|reflexivity].
  rewrite (multiply_src_ext n m fb1 _ s1 s2) by assumption.
  destruct (multiply m fb1 _ s2 _ _ _ _ _) as [fb2|]; [|reflexivity].
  destruct (processAndWriteBack _ _) as [e1|]; [|reflexivity].
  apply IH; assumption.
Qed.

Lemma useNewSamples_src_ext n m mx s1 s2 fuel : forall e d,
  agree n s1 s2 -> m = Z.min (numChannels s1) n ->
  useNewSamples fuel s1 m mx e d = useNewSamples fuel s2 m mx e d.
Proof.
  induction fuel as [|fuel IH]; intros e d A Hm; cbn [useNewSamples];
    rewrite (proj1 (proj2 A)); [reflexivity|].
  destruct (_ <=? _); [|reflexivity].
  rewrite (multiply_src_ext n m _ _ s1 s2) by assumption.
  destruct (multiply m _ _ s2 _ _ _ _ _) as [fb|]; [|reflexivity].
  destruct (processAndWriteBack _ _) as [e1|]; [|reflexivity].
  apply IH; assumption.
Qed.

Lemma consumeInput_src_ext n m mx s1 s2 e :
  agree n s1 s2 -> m = Z.min (numChannels s1) n ->
  consumeInput e s1 m mx = consumeInput e s2 m mx.
Proof.
  intros A Hm. unfold consumeInput.
  rewrite (useLeftOvers_src_ext n m mx s1 s2) by assumption.
  rewrite (proj1 (proj2 A)).
  destruct (useLeftOvers _ s2 _ _ _ _) as [[ea offa]|]; [|reflexivity].
  cbn [fst snd].
  destruct (0 <? notYetUsedAudioDataCount ea).
  - destruct (copy m _ 0 _ _ _) as [nyu1|]; [|reflexivity].
    rewrite (copy_src_ext n m nyu1 _ s1 s2) by assumption. reflexivity.
  - rewrite (useNewSamples_src_ext n m mx s1 s2) by assumption.
    destruct (useNewSamples _ s2 _ _ _ _) as [[eb db]|]; [|reflexivity].
    cbn [fst snd].
    rewrite (copy_src_ext n m _ _ s1 s2) by assumption. reflexivity.
Qed.

Lemma process_src_ext e inputBlock1 inputBlock2 outputBlock :
  agree (nChIn e) inputBlock1 inputBlock2 ->
  process e inputBlock1 outputBlock = process e inputBlock2 outputBlock.
Proof.
  intros A. unfold process.
  rewrite <- (proj1 A), <- (proj1 (proj2 A)).
  rewrite (consumeInput_src_ext (nChIn e) _ _ inputBlock1 inputBlock2)
    by (assumption || reflexivity).
  reflexivity.
Qed.


(** *** The two variants side by side *)

Section Variants.

Variable nCh : Z.
Hypothesis Hhooks : forall n b,
  processFrameInBuffer n b = Hann_processFrameInBuffer b.

Definition HInv (t : HannProcessor) : Prop :=
  h_fftSize t - h_hopSize t = h_hopSize t /\
  numChannels (h_outputBuffer t) = nCh.

Definition lift1 (r : option HannProcessor) : option Engine :=
  option_map (toEngine nCh) r.

Definition lift2 {A : Type} (r : option (HannProcessor * A))
    : option (Engine * A) :=
  option_map (fun x => (toEngine nCh (fst x), snd x)) r.

Ltac hfields_in H :=
  unfold toEngine, setOutput, setFrame, setCount, setCarry,
         h_setOutput, h_setFrame, h_setCount, h_setCarry in H;
  cbn [window fftInOutBuffer fftSize hopSize nChIn nChOut
       notYetUsedAudioData outputBuffer outputOffset
       notYetUsedAudioDataCount
       h_fftInOutBuffer h_fftSize h_hopSize hannWindow
       h_notYetUsedAudioData h_outputBuffer h_outputOffset
       h_notYetUsedAudioDataCount fst snd] in H.

Ltac hfields :=
  unfold toEngine, setOutput, setFrame, setCount, setCarry,
         h_setOutput, h_setFrame, h_setCount, h_setCarry;
  cbn [window fftInOutBuffer fftSize hopSize nChIn nChOut
       notYetUsedAudioData outputBuffer outputOffset
       notYetUsedAudioDataCount
       h_fftInOutBuffer h_fftSize h_hopSize hannWindow
       h_notYetUsedAudioData h_outputBuffer h_outputOffset
       h_notYetUsedAudioDataCount fst snd];
  repeat match goal with
  | H : ?T |- _ =>
      match type of T with Prop => progress hfields_in H end
  end.

Lemma sim_writeBackFrame t :
  HInv t ->
  writeBackFrame (toEngine nCh t) = lift1 (Hann_writeBackFrame t) /\
  forall t', Hann_writeBackFrame t = Some t' -> HInv t'.
Proof.
  intros [H1 H2]. unfold writeBackFrame, Hann_writeBackFrame. hfields.
  rewrite H1, H2.
  destruct (addFrom _ _ _ _ _ _) as [ob1|] eqn:E1; [|split; [reflexivity|discriminate]].
  destruct (copy _ _ _ _ _ _) as [ob2|] eqn:E2; [|split; [reflexivity|discriminate]].
  split; [reflexivity|]. intros t' [= <-]. unfold HInv. hfields.
  split; [assumption|].
  destruct (addFrom_inv _ _ _ _ _ _ _ E1) as (A1 & _).
  destruct (copy_inv _ _ _ _ _ _ _ E2) as (B1 & _). congruence.
Qed.

Lemma sim_processAndWriteBack mx t :
  HInv t ->
  processAndWriteBack mx (toEngine nCh t) =
    lift1 (Hann_processAndBufferOutput t) /\
  forall t', Hann_processAndBufferOutput t = Some t' -> HInv t'.
Proof.
  intros Hi. unfold processAndWriteBack, Hann_processAndBufferOutput.
  hfields. rewrite Hhooks.
  apply (sim_writeBackFrame
           (h_setFrame t (Hann_processFrameInBuffer (h_fftInOutBuffer t)))).
  exact Hi.
Qed.

Lemma sim_useLeftOvers inputBlock n mx fuel : forall t off,
  HInv t ->
  useLeftOvers fuel inputBlock n mx (toEngine nCh t) off =
    lift2 (Hann_useLeftOvers fuel inputBlock n t off) /\
  forall t' off', Hann_useLeftOvers fuel inputBlock n t off = Some (t', off') ->
                  HInv t'.
Proof.
  induction fuel as [|fuel IH]; intros t off Hi;
    cbn [useLeftOvers Hann_useLeftOvers]; hfields;
    destruct (_ && _);
    try (split; [reflexivity | try discriminate; intros ? ? [= <- <-]; exact Hi]).
  destruct (multiply n (h_fftInOutBuffer t) _ _ _ _ _ _ _) as [fb1|];
    [|split; [reflexivity|discriminate]].
  destruct (multiply n fb1 _ _ _ _ _ _ _) as [fb2|];
    [|split; [reflexivity|discriminate]].
  destruct (sim_processAndWriteBack mx (h_setFrame t fb2) Hi) as [S1 S2].
  hfields. rewrite S1.
  destruct (Hann_processAndBufferOutput _) as [t1|] eqn:E;
    [|split; [reflexivity|discriminate]].
  cbn [lift1 option_map].
  apply (IH (h_setCount t1 (h_notYetUsedAudioDataCount t - h_hopSize t))).
  exact (S2 t1 eq_refl).
Qed.

Lemma sim_useNewSamples inputBlock n mx fuel : forall t d,
  HInv t ->
  useNewSamples fuel inputBlock n mx (toEngine nCh t) d =
    lift2 (Hann_useNewSamples fuel inputBlock n t d) /\
  forall t' d', Hann_useNewSamples fuel inputBlock n t d = Some (t', d') ->
                HInv t'.
Proof.
  induction fuel as [|fuel IH]; intros t d Hi;
    cbn [useNewSamples Hann_useNewSamples]; hfields;
    destruct (_ <=? _);
    try (split; [reflexivity | try discriminate; intros ? ? [= <- <-]; exact Hi]).
  destruct (multiply n (h_fftInOutBuffer t) _ _ _ _ _ _ _) as [fb|];
    [|split; [reflexivity|discriminate]].
  destruct (sim_processAndWriteBack mx (h_setFrame t fb) Hi) as [S1 S2].
  hfields. rewrite S1.
  destruct (Hann_processAndBufferOutput _) as [t1|] eqn:E;
    [|split; [reflexivity|discriminate]].
  cbn [lift1 option_map].
  apply (IH t1). exact (S2 t1 eq_refl).
Qed.

Lemma clearChannels_empty n b num : clearChannels n n b num = Some b.
Proof.
  unfold clearChannels, chansOk. rewrite Z.leb_refl. cbn [orb].
  f_equal. apply buffer_eq; try reflexivity.
  intros c i. cbn [setData at_]. decide_tests; try reflexivity. lia.
Qed.

Lemma sim_consumeInput inputBlock n mx t :
  HInv t ->
  consumeInput (toEngine nCh t) inputBlock n mx =
    lift1 (Hann_consumeInput t inputBlock n) /\
  forall t', Hann_consumeInput t inputBlock n = Some t' -> HInv t'.
Proof.
  intros Hi. unfold consumeInput, Hann_consumeInput.
  destruct (sim_useLeftOvers inputBlock n mx
              (Z.to_nat (h_notYetUsedAudioDataCount t)) t 0 Hi) as [S1 S2].
  cbn [toEngine notYetUsedAudioDataCount] in S1, S2 |- *. rewrite S1.
  destruct (Hann_useLeftOvers _ _ _ _ _) as [[t1 off1]|];
    [|split; [reflexivity|discriminate]].
  specialize (S2 t1 off1 eq_refl).
  cbn [lift2 option_map fst snd]. hfields.
  destruct (0 <? h_notYetUsedAudioDataCount t1).
  - destruct (copy n _ 0 _ _ _) as [nyu1|];
      [|split; [reflexivity|discriminate]].
    destruct (copy n nyu1 _ _ _ _) as [nyu2|];
      [|split; [reflexivity|discriminate]].
    split; [reflexivity|]. intros t' [= <-]. exact S2.
  - destruct (sim_useNewSamples inputBlock n mx
                (Z.to_nat (numSamples inputBlock -
                           - h_notYetUsedAudioDataCount t1))
                t1 (- h_notYetUsedAudioDataCount t1) S2) as [S3 S4].
    hfields. rewrite S3.
    destruct (Hann_useNewSamples _ _ _ _ _) as [[t2 d2]|];
      [|split; [reflexivity|discriminate]].
    specialize (S4 t2 d2 eq_refl).
    cbn [lift2 option_map fst snd].
    destruct (if 0 <? _ then _ else _) as [nyu|];
      [|split; [reflexivity|discriminate]].
    split; [reflexivity|]. intros t' [= <-]. exact S4.
Qed.

Lemma sim_returnSamples t L outputBlock :
  HInv t -> numChannels outputBlock <= nCh ->
  returnSamples (toEngine nCh t) L (numChannels outputBlock) outputBlock =
    lift2 (Hann_returnSamples t L outputBlock) /\
  forall t' out, Hann_returnSamples t L outputBlock = Some (t', out) ->
                 HInv t'.
Proof.
  intros [H1 H2] Hc. unfold returnSamples, Hann_returnSamples. hfields.
  replace (h_outputOffset t + h_fftSize t - h_hopSize t - L)
    with (h_outputOffset t + h_hopSize t - L) by lia.
  destruct (copy _ outputBlock _ _ _ _) as [o1|];
    [|split; [reflexivity|discriminate]].
  destruct (copy _ (h_outputBuffer t) _ _ _ _) as [ob1|] eqn:E2;
    [|split; [reflexivity|discriminate]].
  rewrite clearChannels_empty.
  split; [reflexivity|]. intros t' out [= <- _]. unfold HInv. hfields.
  split; [assumption|].
  destruct (copy_inv _ _ _ _ _ _ _ E2) as (B1 & _). congruence.
Qed.

Lemma sim_process t inputBlock outputBlock :
  HInv t ->
  numChannels inputBlock <= nCh -> numChannels outputBlock <= nCh ->
  process (toEngine nCh t) inputBlock outputBlock =
    lift2 (Hann_process t inputBlock outputBlock) /\
  forall t' out, Hann_process t inputBlock outputBlock = Some (t', out) ->
                 HInv t'.
Proof.
  intros Hi Hci Hco. unfold process, Hann_process.
  cbn [toEngine nChIn nChOut].
  rewrite (Z.min_l _ _ Hci), (Z.min_l _ _ Hco).
  destruct (sim_consumeInput inputBlock (numChannels inputBlock)
              (Z.max (numChannels inputBlock) (numChannels outputBlock))
              t Hi) as [S1 S2].
  rewrite S1.
  destruct (Hann_consumeInput _ _ _) as [t1|];
    [|split; [reflexivity|discriminate]].
  cbn [lift1 option_map].
  apply sim_returnSamples; [exact (S2 t1 eq_refl) | exact Hco].
Qed.

Lemma sim_runCalls calls : forall t,
  HInv t ->
  Forall (fun c => numChannels (fst c) <= nCh /\ numChannels (snd c) <= nCh)
         calls ->
  runCalls (toEngine nCh t) calls = lift2 (Hann_runCalls t calls).
Proof.
  induction calls as [|[i o] rest IH]; intros t Hi HF;
    cbn [runCalls Hann_runCalls]; [reflexivity|].
  inversion HF as [|? ? [Hci Hco] HF']; subst. cbn [fst snd] in Hci, Hco.
  destruct (sim_process t i o Hi Hci Hco) as [S1 S2]. rewrite S1.
  destruct (Hann_process t i o) as [[t1 out]|]; [|reflexivity].
  cbn [lift2 option_map fst snd].
  rewrite (IH t1 (S2 t1 out eq_refl) HF').
  destruct (Hann_runCalls t1 rest) as [[t2 outs]|]; reflexivity.
Qed.

Lemma sim_prepare e t sampleRate B :
  window e = hannWindow t -> fftSize e = h_fftSize t ->
  hopSize e = h_hopSize t ->
  h_fftSize t - h_hopSize t = h_hopSize t ->
  prepare e sampleRate B nCh nCh = lift1 (Hann_prepare t B nCh) /\
  forall t', Hann_prepare t B nCh = Some t' -> HInv t'.
Proof.
  intros Hw Hf Hh Hhalf. unfold prepare, Hann_prepare, setSize. cbv zeta.
  rewrite Hw, Hf, Hh, Z.max_id.
  replace (h_fftSize t - h_hopSize t) with (h_hopSize t) by lia.
  destruct ((0 <=? nCh) && (0 <=? h_fftSize t - 1));
    cbv iota beta; [|split; [reflexivity|discriminate]].
  destruct ((0 <=? nCh) && (0 <=? 2 * h_fftSize t));
    cbv iota beta; [|split; [reflexivity|discriminate]].
  match goal with |- context [(0 <=? nCh) && (0 <=? ?m)] =>
    destruct ((0 <=? nCh) && (0 <=? m))
  end; cbv iota beta; [|split; [reflexivity|discriminate]].
  destruct (offsetLoop _ _ _ _) as [offset|];
    cbv iota beta; [|split; [reflexivity|discriminate]].
  split; [reflexivity|]. intros t' [= <-]. unfold HInv, Hann_reset, clear.
  cbn [h_fftSize h_hopSize h_outputBuffer numChannels setData].
  split; [assumption | reflexivity].
Qed.

End Variants.


(** C6 (as amended).  [OverlappingFFTProcessor::reset] changes nothing at
    all, the carry-over count and the hop offset included; the [reset] of
    the template variant sets the carry-over count to zero and leaves the
    hop offset, the sizes and every buffer as they are. *)
Theorem reset_effect (e : Engine) (t : HannProcessor) :
  reset e = e /\
  h_notYetUsedAudioDataCount (Hann_reset t) = 0 /\
  h_outputOffset (Hann_reset t) = h_outputOffset t /\
  h_fftInOutBuffer (Hann_reset t) = h_fftInOutBuffer t /\
  h_notYetUsedAudioData (Hann_reset t) = h_notYetUsedAudioData t /\
  h_outputBuffer (Hann_reset t) = h_outputBuffer t /\
  hannWindow (Hann_reset t) = hannWindow t /\
  h_fftSize (Hann_reset t) = h_fftSize t /\
  h_hopSize (Hann_reset t) = h_hopSize t.
Proof. repeat split. Qed.

(** *** Latency *)

Lemma overlapAdd_skip w N H x m k : forall j,
  0 < H <= N -> m < Z.of_nat j * H ->
  overlapAdd w N H x (k + j) m = overlapAdd w N H x j m.
Proof.
  induction k as [|k IH]; intros j HH Hm; [reflexivity|].
  cbn [plus overlapAdd].
  assert (Z.of_nat j * H <= Z.of_nat (k + j) * H) by nia.
  decide_tests; try lia. apply IH; assumption.
Qed.

Lemma overlapAdd_16_4 w x m j :
  12 <= m -> (m / 4 < Z.of_nat j) ->
  overlapAdd w 16 4 x j m =
  add (add (add (mul (x m) (w (m mod 4 + 12))) (mul (x m) (w (m mod 4 + 8))))
           (mul (x m) (w (m mod 4 + 4))))
      (mul (x m) (w (m mod 4))).
Proof.
  intros Hm Hj.
  pose proof (Z.div_mod m 4 ltac:(lia)) as Hdm.
  pose proof (Z.mod_pos_bound m 4 ltac:(lia)) as Hmb.
  assert (Hq : 3 <= m / 4) by lia.
  set (q3 := Z.to_nat (m / 4 - 3)).
  assert (Hq3 : Z.of_nat q3 = m / 4 - 3) by (unfold q3; lia).
  clearbody q3.
  replace j with ((j - S (S (S (S q3)))) + S (S (S (S q3))))%nat by lia.
  rewrite overlapAdd_skip by lia.
  cbn [overlapAdd].
  assert (E3 : m - Z.of_nat q3 * 4 = m mod 4 + 12) by lia.
  assert (E2 : m - Z.of_nat (S q3) * 4 = m mod 4 + 8) by lia.
  assert (E1 : m - Z.of_nat (S (S q3)) * 4 = m mod 4 + 4) by lia.
  assert (E0 : m - Z.of_nat (S (S (S q3))) * 4 = m mod 4) by lia.
  rewrite E3, E2, E1, E0.
  assert (Hi : 0 <= m mod 4 < 4) by lia.
  decide_tests; try lia. reflexivity.
Qed.



(** * Further properties of the code *)

(** ** The constructor and [createWindow] *)


(** ** What [process] leaves as it is *)

Lemma SameSetup_refl e : SameSetup e e.
Proof. repeat split. Qed.

Lemma SameSetup_trans e1 e2 e3 :
  SameSetup e1 e2 -> SameSetup e2 e3 -> SameSetup e1 e3.
Proof.
  intros (A1 & A2 & A3 & A4 & A5 & A6 & A7 & A8 & A9)
         (B1 & B2 & B3 & B4 & B5 & B6 & B7 & B8 & B9).
  repeat split; congruence.
Qed.

Ltac setup_fields :=
  unfold SameSetup, sameShape;
  cbn [setOutput setFrame setCarry setCount setData
       window fftInOutBuffer fftSize hopSize nChIn nChOut
       notYetUsedAudioData outputBuffer outputOffset
       notYetUsedAudioDataCount numChannels numSamples fst snd].

Lemma writeBackFrame_setup e e1 :
  writeBackFrame e = Some e1 ->
  SameSetup e e1 /\ fftInOutBuffer e1 = fftInOutBuffer e /\
  notYetUsedAudioData e1 = notYetUsedAudioData e.
Proof.
  unfold writeBackFrame.
  destruct (addFrom _ _ _ _ _ _) as [ob1|] eqn:E1; [|discriminate].
  destruct (copy _ _ _ _ _ _) as [ob2|] eqn:E2; [|discriminate].
  intros [= <-].
  destruct (addFrom_inv _ _ _ _ _ _ _ E1) as (A1 & A2 & _).
  destruct (copy_inv _ _ _ _ _ _ _ E2) as (B1 & B2 & _).
  setup_fields. repeat split; congruence.
Qed.

Lemma processAndWriteBack_setup m e e1 :
  processAndWriteBack m e = Some e1 ->
  SameSetup e e1 /\
  fftInOutBuffer e1 = processFrameInBuffer m (fftInOutBuffer e) /\
  notYetUsedAudioData e1 = notYetUsedAudioData e.
Proof.
  unfold processAndWriteBack. intros Hw.
  apply writeBackFrame_setup in Hw. revert Hw. setup_fields.
  intros (S1 & S2 & S3). repeat split; try apply S1; assumption.
Qed.

Lemma useLeftOvers_setup fuel inputBlock n m : forall e off e' off',
  useLeftOvers fuel inputBlock n m e off = Some (e', off') ->
  SameSetup e e' /\ notYetUsedAudioData e' = notYetUsedAudioData e /\
  (KeepsShape -> sameShape (fftInOutBuffer e') (fftInOutBuffer e)).
Proof.
  induction fuel as [|fuel IH]; intros e off e' off'; cbn [useLeftOvers];
    destruct (_ && _); try discriminate;
    try (intros [= <- <-]; split; [apply SameSetup_refl|];
         split; [reflexivity | intros _; split; reflexivity]).
  destruct (multiply _ _ _ _ _ _ _ _ _) as [fb1|] eqn:M1; [|discriminate].
  destruct (multiply _ fb1 _ _ _ _ _ _ _) as [fb2|] eqn:M2; [|discriminate].
  destruct (processAndWriteBack _ _) as [e1|] eqn:E; [|discriminate].
  apply processAndWriteBack_setup in E. destruct E as (E1 & E2 & E3).
  destruct (multiply_inv _ _ _ _ _ _ _ _ _ _ M1) as (A1 & A2 & _).
  destruct (multiply_inv _ _ _ _ _ _ _ _ _ _ M2) as (B1 & B2 & _).
  intros HR. apply IH in HR. destruct HR as (H1 & H2 & H3).
  revert E1 E2 E3 H1 H2 H3. setup_fields.
  intros E1 E2 E3 H1 H2 H3.
  split; [|split].
  - destruct E1 as (? & ? & ? & ? & ? & ? & ? & ? & ?).
    destruct H1 as (? & ? & ? & ? & ? & ? & ? & ? & ?).
    repeat split; congruence.
  - congruence.
  - intros Hk. destruct (H3 Hk) as [C1 C2]. rewrite C1, C2, E2.
    destruct (Hk m fb2) as [K1 K2]. rewrite K1, K2. split; congruence.
Qed.

Lemma useNewSamples_setup fuel inputBlock n m : forall e d e' d',
  useNewSamples fuel inputBlock n m e d = Some (e', d') ->
  SameSetup e e' /\ notYetUsedAudioData e' = notYetUsedAudioData e /\
  (KeepsShape -> sameShape (fftInOutBuffer e') (fftInOutBuffer e)).
Proof.
  induction fuel as [|fuel IH]; intros e d e' d'; cbn [useNewSamples];
    destruct (_ <=? _); try discriminate;
    try (intros [= <- <-]; split; [apply SameSetup_refl|];
         split; [reflexivity | intros _; split; reflexivity]).
  destruct (multiply _ _ _ _ _ _ _ _ _) as [fb1|] eqn:M1; [|discriminate].
  destruct (processAndWriteBack _ _) as [e1|] eqn:E; [|discriminate].
  apply processAndWriteBack_setup in E. destruct E as (E1 & E2 & E3).
  destruct (multiply_inv _ _ _ _ _ _ _ _ _ _ M1) as (A1 & A2 & _).
  intros HR. apply IH in HR. destruct HR as (H1 & H2 & H3).
  revert E1 E2 E3 H1 H2 H3. setup_fields.
  intros E1 E2 E3 H1 H2 H3.
  split; [|split].
  - destruct E1 as (? & ? & ? & ? & ? & ? & ? & ? & ?).
    destruct H1 as (? & ? & ? & ? & ? & ? & ? & ? & ?).
    repeat split; congruence.
  - congruence.
  - intros Hk. destruct (H3 Hk) as [C1 C2]. rewrite C1, C2, E2.
    destruct (Hk m fb1) as [K1 K2]. rewrite K1, K2. split; congruence.
Qed.

Lemma consumeInput_setup e inputBlock n m e1 :
  consumeInput e inputBlock n m = Some e1 ->
  SameSetup e e1 /\
  (KeepsShape -> sameShape (fftInOutBuffer e1) (fftInOutBuffer e)).
Proof.
  unfold consumeInput.
  destruct (useLeftOvers _ _ _ _ _ _) as [[ea offa]|] eqn:E1; [|discriminate].
  apply useLeftOvers_setup in E1. destruct E1 as (Ha & Ha2 & Ha3).
  cbn [fst snd].
  destruct (0 <? notYetUsedAudioDataCount ea).
  - destruct (copy _ _ _ _ _ _) as [nyu1|] eqn:C1; [|discriminate].
    destruct (copy _ nyu1 _ _ _ _) as [nyu2|] eqn:C2; [|discriminate].
    destruct (copy_inv _ _ _ _ _ _ _ C1) as (A1 & A2 & _).
    destruct (copy_inv _ _ _ _ _ _ _ C2) as (B1 & B2 & _).
    intros [= <-]. revert Ha Ha3. setup_fields. intros Ha Ha3.
    destruct Ha as (? & ? & ? & ? & ? & ? & ? & ? & ?).
    repeat split; try congruence; apply Ha3; assumption.
  - destruct (useNewSamples _ _ _ _ _ _) as [[eb db]|] eqn:E2; [|discriminate].
    apply useNewSamples_setup in E2. destruct E2 as (Hb & Hb2 & Hb3).
    cbn [fst snd].
    destruct (0 <? _).
    + destruct (copy _ _ _ _ _ _) as [nyu|] eqn:C1; [|discriminate].
      destruct (copy_inv _ _ _ _ _ _ _ C1) as (A1 & A2 & _).
      intros [= <-]. revert Ha Ha3 Hb Hb3. setup_fields. intros Ha Ha3 Hb Hb3.
      destruct Ha as (? & ? & ? & ? & ? & ? & ? & ? & ?).
      destruct Hb as (? & ? & ? & ? & ? & ? & ? & ? & ?).
      repeat split; try congruence;
        destruct (Ha3 ltac:(assumption)); destruct (Hb3 ltac:(assumption));
        congruence.
    + intros [= <-]. revert Ha Ha3 Hb Hb3. setup_fields. intros Ha Ha3 Hb Hb3.
      destruct Ha as (? & ? & ? & ? & ? & ? & ? & ? & ?).
      destruct Hb as (? & ? & ? & ? & ? & ? & ? & ? & ?).
      repeat split; try congruence;
        destruct (Ha3 ltac:(assumption)); destruct (Hb3 ltac:(assumption));
        congruence.
Qed.

Lemma returnSamples_setup e L n outputBlock e1 out :
  returnSamples e L n outputBlock = Some (e1, out) ->
  SameSetup e e1 /\ fftInOutBuffer e1 = fftInOutBuffer e /\
  notYetUsedAudioData e1 = notYetUsedAudioData e /\
  notYetUsedAudioDataCount e1 = notYetUsedAudioDataCount e /\
  sameShape out outputBlock.
Proof.
  unfold returnSamples.
  destruct (copy _ outputBlock _ _ _ _) as [o1|] eqn:C1; [|discriminate].
  destruct (copy _ (outputBuffer e) _ _ _ _) as [ob1|] eqn:C2; [|discriminate].
  destruct (clearChannels _ _ _ _) as [o2|] eqn:C3; [|discriminate].
  destruct (copy_inv _ _ _ _ _ _ _ C1) as (A1 & A2 & _).
  destruct (copy_inv _ _ _ _ _ _ _ C2) as (B1 & B2 & _).
  destruct (clearChannels_inv _ _ _ _ _ C3) as (D1 & D2 & _).
  intros [= <- <-]. setup_fields. repeat split; congruence.
Qed.

Lemma process_setup e inputBlock outputBlock e' out :
  process e inputBlock outputBlock = Some (e', out) ->
  SameSetup e e' /\ sameShape out outputBlock /\
  (KeepsShape -> sameShape (fftInOutBuffer e') (fftInOutBuffer e)).
Proof.
  unfold process.
  destruct (consumeInput _ _ _ _) as [e1|] eqn:E1; [|discriminate].
  apply consumeInput_setup in E1. destruct E1 as (S1 & S3).
  intros HR. apply returnSamples_setup in HR.
  destruct HR as (R1 & R2 & _ & _ & R5).
  split; [eapply SameSetup_trans; eassumption|].
  split; [exact R5|].
  intros Hk. rewrite R2. apply S3. exact Hk.
Qed.

Lemma Reachable_setup e0 B e : Reachable e0 B e -> SameSetup e0 e.
Proof.
  induction 1 as [|e inp outB e' out HR IH HL Hroom HP].
  - apply SameSetup_refl.
  - eapply SameSetup_trans; [exact IH|].
    apply process_setup in HP. apply HP.
Qed.

(** X4.  A [process] call changes neither the window, the frame size, the
    hop size or the prepared channel counts, nor the size of the carry-over
    buffer or of the output buffer, and it hands back an output block of
    the shape of the caller's; [fftInOutBuffer] keeps its size as well
    when the frame transform does. *)
Theorem process_keeps_the_setup (e : Engine)
    (inputBlock outputBlock : AudioBuffer) (e' : Engine) (out : AudioBuffer) :
  process e inputBlock outputBlock = Some (e', out) ->
  window e' = window e /\ fftSize e' = fftSize e /\ hopSize e' = hopSize e /\
  getNumInputChannels e' = getNumInputChannels e /\
  getNumOutputChannels e' = getNumOutputChannels e /\
  sameShape (notYetUsedAudioData e') (notYetUsedAudioData e) /\
  sameShape (outputBuffer e') (outputBuffer e) /\
  sameShape out outputBlock /\
  (KeepsShape -> sameShape (fftInOutBuffer e') (fftInOutBuffer e)).
Proof.
  intros HP. apply process_setup in HP.
  destruct HP as ((A1 & A2 & A3 & A4 & A5 & A6 & A7 & A8 & A9) & HS & HK).
  unfold getNumInputChannels, getNumOutputChannels.
  do 5 (split; [assumption|]).
  split; [split; assumption|]. split; [split; assumption|].
  split; assumption.
Qed.

(** ** In-place processing *)

Lemma returnSamples_dst e L n o1 o2 :
  sameShape o1 o2 ->
  option_map fst (returnSamples e L n o1) =
    option_map fst (returnSamples e L n o2) /\
  forall r1 r2,
    returnSamples e L n o1 = Some r1 -> returnSamples e L n o2 = Some r2 ->
    forall c i, 0 <= c < numChannels o1 -> 0 <= i < L ->
                at_ (snd r1) c i = at_ (snd r2) c i.
Proof.
  intros [Hc Hs].
  unfold returnSamples, copy, clearChannels, chansOk. cbv zeta.
  rewrite Hc, Hs.
  repeat match goal with
  | |- context [if ?c then _ else None] =>
      destruct c; [|split; [reflexivity | discriminate]];
      cbv iota beta; cbn [setData numChannels numSamples];
      try rewrite Hc; try rewrite Hs
  end.
  split; [reflexivity|].
  intros r1 r2 [= <-] [= <-] c i Hci Hi.
  cbn [snd setData at_].
  decide_tests; try reflexivity; lia.
Qed.

(** X6.  Processing a block in place ([ProcessContextReplacing]) and
    processing it into another block of the same shape
    ([ProcessContextNonReplacing]) lead to the same engine state, fail
    together, and return the same samples: the block is read in full
    before its first sample is overwritten, and what the output block held
    is never read. *)
Theorem in_place_processing (e : Engine) (block other : AudioBuffer) :
  sameShape block other ->
  option_map fst (processReplacing e block) =
    option_map fst (processNonReplacing e block other) /\
  forall r1 r2,
    processReplacing e block = Some r1 ->
    processNonReplacing e block other = Some r2 ->
    forall c i, 0 <= c < numChannels block -> 0 <= i < numSamples block ->
                at_ (snd r1) c i = at_ (snd r2) c i.
Proof.
  intros Hsh. unfold processReplacing, processNonReplacing, process.
  rewrite <- (proj1 Hsh).
  destruct (consumeInput _ _ _ _) as [e1|];
    [|split; [reflexivity | discriminate]].
  apply returnSamples_dst. exact Hsh.
Qed.

(** ** Empty blocks *)

Lemma copy_nothing n dst doff src soff :
  chansOk dst 0 n doff 0 = true -> chansOk src 0 n soff 0 = true ->
  copy n dst doff src soff 0 = Some dst.
Proof.
  intros H1 H2. unfold copy. rewrite H1, H2. cbn [andb]. f_equal.
  apply buffer_eq; try reflexivity.
  intros c i. cbn [setData at_]. decide_tests; try reflexivity. lia.
Qed.

Lemma copy_onto_itself n b num :
  chansOk b 0 n 0 num = true -> copy n b 0 b 0 num = Some b.
Proof.
  intros H1. unfold copy. rewrite H1. cbn [andb]. f_equal.
  apply buffer_eq; try reflexivity.
  intros c i. cbn [setData at_]. decide_tests; try reflexivity.
  f_equal. lia.
Qed.

Lemma clearChannels_nothing lo hi dst :
  chansOk dst lo hi 0 0 = true -> clearChannels lo hi dst 0 = Some dst.
Proof.
  intros H1. unfold clearChannels. rewrite H1. f_equal.
  apply buffer_eq; try reflexivity.
  intros c i. cbn [setData at_]. decide_tests; try reflexivity. lia.
Qed.

Lemma useLeftOvers_exit fuel inputBlock n m e off :
  ~ (0 < notYetUsedAudioDataCount e /\
     fftSize e <= notYetUsedAudioDataCount e + numSamples inputBlock) ->
  useLeftOvers fuel inputBlock n m e off = Some (e, off).
Proof.
  intros Hx.
  assert (E : (0 <? notYetUsedAudioDataCount e) &&
              (fftSize e <=? notYetUsedAudioDataCount e + numSamples inputBlock)
              = false).
  { destruct (_ && _) eqn:E; [|reflexivity].
    apply andb_true_iff in E. destruct E as [E1 E2].
    apply Z.ltb_lt in E1. apply Z.leb_le in E2. exfalso. apply Hx.
    split; assumption. }
  destruct fuel; cbn [useLeftOvers]; rewrite E; reflexivity.
Qed.

Lemma useNewSamples_exit fuel inputBlock n m e d :
  numSamples inputBlock - d < fftSize e ->
  useNewSamples fuel inputBlock n m e d = Some (e, d).
Proof.
  intros Hx.
  assert (E : (fftSize e <=? numSamples inputBlock - d) = false)
    by (apply Z.leb_gt; exact Hx).
  destruct fuel; cbn [useNewSamples]; rewrite E; reflexivity.
Qed.

Lemma setCarry_same e :
  setCarry e (notYetUsedAudioData e) (notYetUsedAudioDataCount e) = e.
Proof. destruct e. reflexivity. Qed.

Lemma setOutput_same e :
  setOutput e (outputBuffer e) (outputOffset e) = e.
Proof. destruct e. reflexivity. Qed.

(** X7.  An empty input block changes nothing: on an engine prepared with
    no more output than input channels, a [process] call with a block of
    0 samples returns the state it was given and the caller's output
    block as it was. *)
Theorem empty_block_changes_nothing (e : Engine)
    (sampleRate B nIn nOut : Z) (e0 e1 : Engine)
    (inputBlock outputBlock : AudioBuffer) :
  Valid e -> KeepsShape ->
  prepare e sampleRate B nIn nOut = Some e0 ->
  0 <= nOut <= nIn ->
  Reachable e0 B e1 ->
  numSamples inputBlock = 0 -> 0 <= numSamples outputBlock ->
  process e1 inputBlock outputBlock = Some (e1, outputBlock).
Proof.
  intros Hv Hk Hp Hsafe HR HL Hout.
  destruct (prepare_spec _ _ _ _ _ _ Hv Hp)
    as (Hs & Hf & _ & _ & _ & Hin & Hon & _).
  destruct (Reachable_Rel e0 B e1 Hs Hk Hf HR) as (T & j & R).
  destruct R as [C RT Rlo Rhi Rst Roff _ _ _ _].
  destruct C as [Cw Cf Ch Ci Co Cnc Cns Cfc Cfs Coc Cos].
  destruct Hs as [[Hh Hvv] HB Hnc Hns Hfc Hfs Hoc Hos].
  unfold process, consumeInput. rewrite HL.
  rewrite useLeftOvers_exit by (rewrite HL, Cf; lia).
  cbn [fst snd].
  set (numChIn := Z.min (numChannels inputBlock) (nChIn e1)).
  set (numChOut := Z.min (numChannels outputBlock) (nChOut e1)).
  assert (Hci : numChIn <= numChannels inputBlock /\ numChIn <= nChIn e0)
    by (unfold numChIn; lia).
  assert (Hco : numChOut <= numChannels outputBlock /\ numChOut <= nChIn e0 /\
                (numChannels outputBlock <= numChOut \/ 0 <= numChOut))
    by (unfold numChOut; lia).
  clearbody numChIn numChOut.
  assert (Hcarry :
    (if 0 <? notYetUsedAudioDataCount e1
     then
       nyu1 <- copy numChIn (notYetUsedAudioData e1) 0 (notYetUsedAudioData e1)
                 (notYetUsedAudioDataCount e1 - notYetUsedAudioDataCount e1)
                 (notYetUsedAudioDataCount e1) ;;
       nyu2 <- copy numChIn nyu1 (notYetUsedAudioDataCount e1) inputBlock 0 0 ;;
       Some (setCarry e1 nyu2 (notYetUsedAudioDataCount e1 + 0))
     else
       r2 <- useNewSamples (Z.to_nat (0 - - notYetUsedAudioDataCount e1))
               inputBlock numChIn (Z.max numChIn numChOut) e1
               (- notYetUsedAudioDataCount e1) ;;
       nyu <- (if 0 <? 0 - snd r2
               then copy numChIn (notYetUsedAudioData (fst r2)) 0 inputBlock
                         (snd r2) (0 - snd r2)
               else Some (notYetUsedAudioData (fst r2))) ;;
       Some (setCarry (fst r2) nyu (0 - snd r2))) = Some e1).
  { destruct (0 <? notYetUsedAudioDataCount e1) eqn:E;
      [apply Z.ltb_lt in E | apply Z.ltb_ge in E].
    - rewrite Z.sub_diag, Z.add_0_r.
      rewrite copy_onto_itself by (apply chansOk_true; lia).
      rewrite copy_nothing by (apply chansOk_true; lia).
      rewrite setCarry_same. reflexivity.
    - rewrite useNewSamples_exit by (rewrite HL, Cf; lia).
      cbn [fst snd].
      replace (0 - - notYetUsedAudioDataCount e1) with 0 by lia.
      cbn [Z.ltb Z.compare].
      replace 0 with (notYetUsedAudioDataCount e1) at 1 by lia.
      rewrite setCarry_same. reflexivity. }
  rewrite Hcarry. clear Hcarry. unfold returnSamples. cbv zeta.
  rewrite copy_nothing by (apply chansOk_true; lia).
  match goal with |- context [copy numChOut (outputBuffer e1) 0 _ 0 ?s] =>
    assert (Hsh : chansOk (outputBuffer e1) 0 numChOut 0 s = true)
  end.
  { apply chansOk_true.
    match goal with |- context [if ?c then _ else _] =>
      destruct c eqn:Et
    end; [apply Z.ltb_lt in Et | apply Z.ltb_ge in Et]; lia. }
  rewrite (copy_onto_itself _ _ _ Hsh).
  rewrite clearChannels_nothing by (apply chansOk_true; lia).
  rewrite Z.sub_0_r, setOutput_same. reflexivity.
Qed.

(** ** Sequences of calls on a prepared engine *)

Lemma runCalls_Reachable e0 B : forall calls e e' outs,
  Reachable e0 B e -> Forall (validCall B) calls ->
  runCalls e calls = Some (e', outs) -> Reachable e0 B e'.
Proof.
  induction calls as [|[i o] rest IH]; intros e e' outs HR HF;
    cbn [runCalls].
  - intros [= <- _]. exact HR.
  - inversion HF as [|? ? [HL Hroom] HF']; subst. cbn [fst snd] in HL, Hroom.
    destruct (process e i o) as [[e1 out]|] eqn:HP; [|discriminate].
    cbn [fst snd].
    destruct (runCalls e1 rest) as [[e2 outs2]|] eqn:HC; [|discriminate].
    intros [= <- _]. eapply IH; [|exact HF'|exact HC].
    eapply reach_process; eassumption.
Qed.

Lemma consumed_cons i o rest :
  consumed ((i, o) :: rest) = numSamples i + consumed rest.
Proof. reflexivity. Qed.

Lemma runCalls_counters e0 B :
  Sized e0 B -> KeepsShape ->
  forall calls e T j e' outs,
  Rel e0 (fun _ _ => zero) 0 0 False T e j ->
  Forall (validCall B) calls ->
  runCalls e calls = Some (e', outs) ->
  exists j', Rel e0 (fun _ _ => zero) 0 0 False (T + consumed calls) e' j'.
Proof.
  intros Hs Hk.
  induction calls as [|[i o] rest IH]; intros e T j e' outs R HF;
    cbn [runCalls].
  - intros [= <- _]. exists j.
    replace (T + consumed []) with T by (unfold consumed; cbn; lia).
    exact R.
  - inversion HF as [|? ? [HL Hroom] HF']; subst. cbn [fst snd] in HL, Hroom.
    pose proof (process_spec e0 B (fun _ _ => zero)
                  (numChannels i) (numChannels o) False Hs Hk T e j
                  i o (Rel_counters _ _ _ _ _ _ _ _ _ _ R) HL eq_refl
                  (fun F => match F with end) eq_refl Hroom) as PS.
    destruct (process e i o) as [[e1 out]|]; [|discriminate].
    destruct PS as [[j1 R1] _]. cbn [fst snd].
    destruct (runCalls e1 rest) as [[e2 outs2]|] eqn:HC; [|discriminate].
    intros [= <- _].
    destruct (IH e1 (T + numSamples i) j1 e2 outs2
                (Rel_counters _ _ _ _ _ _ _ _ _ _ R1) HF' HC) as [j2 R2].
    exists j2. rewrite consumed_cons, Z.add_assoc. exact R2.
Qed.

(** X8.  Between two calls the carry-over count and the hop offset depend
    on nothing but the number [T] of samples fed since [prepare], however
    they were cut into blocks: the count is [T] as long as no frame is
    complete ([T < fftSize]) and [fftSize - hopSize + (T - fftSize) mod
    hopSize] from then on, and the hop offset is [fftSize - 1] minus the
    count. *)
Theorem counters_follow_the_stream_position (e : Engine)
    (sampleRate B nIn nOut : Z) (e0 : Engine)
    (calls : list (AudioBuffer * AudioBuffer))
    (e' : Engine) (outs : list AudioBuffer) :
  Valid e -> KeepsShape ->
  prepare e sampleRate B nIn nOut = Some e0 ->
  Forall (validCall B) calls ->
  runCalls e0 calls = Some (e', outs) ->
  notYetUsedAudioDataCount e' =
    (if consumed calls <? fftSize e then consumed calls
     else fftSize e - hopSize e + (consumed calls - fftSize e) mod hopSize e) /\
  outputOffset e' = fftSize e - 1 - notYetUsedAudioDataCount e'.
Proof.
  intros Hv Hk Hp HF HC.
  destruct (prepare_spec _ _ _ _ _ _ Hv Hp)
    as (Hs & Hf & _ & Hfs & Hhs & _).
  pose proof (Rel_fresh e0 B (fun _ _ => zero) 0 0 False Hs Hf) as R0.
  destruct (runCalls_counters e0 B Hs Hk calls e0 0 0%nat e' outs R0 HF HC)
    as [j R].
  destruct R as [_ RT Rlo Rhi Rst Roff _ _ _ _].
  rewrite Hhs in RT. rewrite Hfs in Rhi, Roff. rewrite Hfs, Hhs in Rst.
  destruct Hv as [Hh Hvv].
  split; [|exact Roff].
  rewrite Z.add_0_l in RT.
  destruct (consumed calls <? fftSize e) eqn:E;
    [apply Z.ltb_lt in E | apply Z.ltb_ge in E].
  - destruct Rst as [->|Hge]; [lia|].
    destruct j as [|j]; [lia|]. nia.
  - destruct j as [|j]; [cbn in RT; lia|].
    destruct Rst as [Hz|Hge]; [discriminate Hz|].
    replace (consumed calls - fftSize e) with
      ((notYetUsedAudioDataCount e' - (fftSize e - hopSize e)) +
       Z.of_nat j * hopSize e) by lia.
    rewrite Z.mod_add by lia.
    rewrite Z.mod_small by lia. lia.
Qed.

Lemma runCalls_safe e0 B :
  Sized e0 B -> KeepsShape -> Fresh e0 -> 0 <= nChOut e0 <= nChIn e0 ->
  forall calls e, Reachable e0 B e -> Forall (validCall B) calls ->
  exists e' outs, runCalls e calls = Some (e', outs) /\
    Forall2 (fun c out => sameShape out (snd c)) calls outs.
Proof.
  intros Hs Hk Hf Hsafe.
  induction calls as [|[i o] rest IH]; intros e HR HF; cbn [runCalls].
  - exists e, []. split; [reflexivity | constructor].
  - inversion HF as [|? ? [HL Hroom] HF']; subst. cbn [fst snd] in HL, Hroom.
    destruct (process_safe e0 B e i o Hs Hk Hf HR Hsafe HL Hroom)
      as (e1 & out & HP & S1 & S2 & _).
    rewrite HP. cbn [fst snd].
    destruct (IH e1 (reach_process _ _ _ _ _ _ _ HR HL Hroom HP) HF')
      as (e2 & outs & HC & HS).
    rewrite HC. exists e2, (out :: outs). split; [reflexivity|].
    constructor; [split; assumption | exact HS].
Qed.

(** X9.  An engine prepared with no more output than input channels serves
    every sequence of calls whose blocks hold at most [maximumBlockSize]
    samples: no access leaves a buffer, and each call hands back a block
    of the shape of the caller's output block, so as many samples leave
    the engine as entered it. *)
Theorem every_call_is_served (e : Engine)
    (sampleRate B nIn nOut : Z) (e0 : Engine)
    (calls : list (AudioBuffer * AudioBuffer)) :
  Valid e -> KeepsShape ->
  prepare e sampleRate B nIn nOut = Some e0 ->
  0 <= nOut <= nIn ->
  Forall (validCall B) calls ->
  exists e' outs, runCalls e0 calls = Some (e', outs) /\
    Forall2 (fun c out => sameShape out (snd c)) calls outs.
Proof.
  intros Hv Hk Hp Hsafe HF.
  destruct (prepare_spec _ _ _ _ _ _ Hv Hp)
    as (Hs & Hf & _ & _ & _ & Hin & Hon & _).
  apply (runCalls_safe e0 B Hs Hk Hf); try assumption.
  - rewrite Hin, Hon. exact Hsafe.
  - apply reach_prepared.
Qed.

(** *** More output than input channels *)

Lemma writeBackFrame_faults e :
  0 <= numChannels (outputBuffer e) < nChOut e -> writeBackFrame e = None.
Proof.
  intros Hc. unfold writeBackFrame, addFrom.
  destruct (chansOk (outputBuffer e) 0 (nChOut e) _ _) eqn:E; [|reflexivity].
  apply chansOk_true in E. exfalso. lia.
Qed.

Lemma useLeftOvers_no_frame fuel inputBlock n m e off r :
  0 <= numChannels (outputBuffer e) < nChOut e ->
  useLeftOvers fuel inputBlock n m e off = Some r -> r = (e, off).
Proof.
  intros Hc. destruct fuel as [|fuel]; cbn [useLeftOvers];
    destruct (_ && _); try discriminate;
    try (intros [= <-]; reflexivity).
  destruct (multiply _ _ _ _ _ _ _ _ _) as [fb1|]; [|discriminate].
  destruct (multiply _ fb1 _ _ _ _ _ _ _) as [fb2|]; [|discriminate].
  unfold processAndWriteBack.
  rewrite writeBackFrame_faults by exact Hc. discriminate.
Qed.

Lemma useNewSamples_no_frame fuel inputBlock n m e d r :
  0 <= numChannels (outputBuffer e) < nChOut e ->
  useNewSamples fuel inputBlock n m e d = Some r -> r = (e, d).
Proof.
  intros Hc. destruct fuel as [|fuel]; cbn [useNewSamples];
    destruct (_ <=? _); try discriminate;
    try (intros [= <-]; reflexivity).
  destruct (multiply _ _ _ _ _ _ _ _ _) as [fb1|]; [|discriminate].
  unfold processAndWriteBack.
  rewrite writeBackFrame_faults by exact Hc. discriminate.
Qed.

Lemma process_no_frame e inputBlock outputBlock e' out :
  0 <= numChannels (outputBuffer e) < nChOut e ->
  process e inputBlock outputBlock = Some (e', out) ->
  outputOffset e' = outputOffset e - numSamples inputBlock.
Proof.
  intros Hc. unfold process, consumeInput.
  destruct (useLeftOvers _ _ _ _ _ _) as [r|] eqn:E1; [|discriminate].
  apply (useLeftOvers_no_frame _ _ _ _ _ _ _ Hc) in E1. subst r.
  cbn [fst snd].
  assert (G : forall e1, outputOffset e1 = outputOffset e ->
    returnSamples e1 (numSamples inputBlock)
      (Z.min (numChannels outputBlock) (nChOut e)) outputBlock
      = Some (e', out) ->
    outputOffset e' = outputOffset e - numSamples inputBlock).
  { intros e1 He1 HR. unfold returnSamples in HR.
    destruct (copy _ outputBlock _ _ _ _) as [o1|]; [|discriminate].
    destruct (copy _ _ _ _ _ _) as [ob1|]; [|discriminate].
    destruct (clearChannels _ _ _ _) as [o2|]; [|discriminate].
    injection HR as <- _. cbn [setOutput outputOffset]. rewrite He1.
    reflexivity. }
  destruct (0 <? notYetUsedAudioDataCount e).
  - destruct (copy _ _ _ _ _ _) as [nyu1|]; [|discriminate].
    destruct (copy _ nyu1 _ _ _ _) as [nyu2|]; [|discriminate].
    apply G. reflexivity.
  - destruct (useNewSamples _ _ _ _ _ _) as [r|] eqn:E2; [|discriminate].
    apply (useNewSamples_no_frame _ _ _ _ _ _ _ Hc) in E2. subst r.
    cbn [fst snd].
    destruct (if 0 <? _ then _ else _) as [nyu|]; [|discriminate].
    apply G. reflexivity.
Qed.

Lemma runCalls_no_frame e0 :
  0 <= numChannels (outputBuffer e0) < nChOut e0 ->
  forall calls e e' outs,
  SameSetup e0 e ->
  runCalls e calls = Some (e', outs) ->
  outputOffset e' = outputOffset e - consumed calls.
Proof.
  intros Hc.
  induction calls as [|[i o] rest IH]; intros e e' outs HS; cbn [runCalls].
  - intros [= <- _]. unfold consumed. cbn. lia.
  - destruct (process e i o) as [[e1 out]|] eqn:HP; [|discriminate].
    cbn [fst snd].
    destruct (runCalls e1 rest) as [[e2 outs2]|] eqn:HC; [|discriminate].
    intros [= <- _].
    pose proof HS as (_ & _ & _ & _ & A5 & _ & _ & A8 & _).
    assert (Hc1 : 0 <= numChannels (outputBuffer e) < nChOut e)
      by (rewrite A5, A8; exact Hc).
    rewrite consumed_cons.
    rewrite (IH e1 e2 outs2).
    + rewrite (process_no_frame _ _ _ _ _ Hc1 HP). lia.
    + eapply SameSetup_trans; [exact HS|].
      apply process_setup in HP. apply HP.
    + exact HC.
Qed.

(** X10.  An engine prepared with more output than input channels never
    completes a frame: [writeBackFrame] runs over [nChOut] channels of the
    output buffer, which has [nChIn] of them, so every sequence of calls
    that feeds [fftSize] samples or more has a call that leaves the
    buffer. *)
Theorem more_outputs_than_inputs_stops_at_first_frame (e : Engine)
    (sampleRate B nIn nOut : Z) (e0 : Engine)
    (calls : list (AudioBuffer * AudioBuffer)) :
  Valid e -> KeepsShape ->
  prepare e sampleRate B nIn nOut = Some e0 ->
  nIn < nOut ->
  Forall (validCall B) calls ->
  fftSize e <= consumed calls ->
  runCalls e0 calls = None.
Proof.
  intros Hv Hk Hp Hbad HF Hlong.
  destruct (prepare_spec _ _ _ _ _ _ Hv Hp)
    as (Hs & Hf & _ & Hfs & _ & Hin & Hon & Hn & _).
  destruct (runCalls e0 calls) as [[e' outs]|] eqn:HC; [|reflexivity].
  exfalso.
  assert (Hc : 0 <= numChannels (outputBuffer e0) < nChOut e0)
    by (rewrite (sz_ob_c _ _ Hs), Hin, Hon; lia).
  pose proof (runCalls_no_frame e0 Hc calls e0 e' outs (SameSetup_refl e0) HC)
    as Hoff.
  pose proof (runCalls_Reachable e0 B calls e0 e' outs
                (reach_prepared e0 B) HF HC) as HR.
  destruct (Reachable_Rel e0 B e' Hs Hk Hf HR) as (T & j & R).
  destruct R as [_ _ Rlo Rhi _ Roff _ _ _ _].
  destruct Hf as (_ & F2 & _).
  rewrite Hfs in Rhi, Roff, F2. lia.
Qed.

(** ** What reaches the output *)

(** X11.  Whatever the frame transform does, the first [fftSize - 1]
    samples a prepared engine returns are zeros on every channel: the
    first frame is written back at the hop offset [fftSize - 1]. *)
Theorem lead_in_is_silent (e : Engine) (sampleRate B nIn nOut : Z)
    (e0 : Engine) (X Y : Z -> Z -> sample) (Cin Cout : Z) (ls : list Z)
    (acc : Z -> Z -> sample) (r : Engine * (Z -> Z -> sample)) :
  Valid e -> KeepsShape ->
  prepare e sampleRate B nIn nOut = Some e0 ->
  Forall (fun l => 0 <= l <= B) ls ->
  runChunks e0 X Y Cin Cout 0 ls acc = Some r ->
  forall c n, 0 <= c < Cout -> 0 <= n < total ls -> n < fftSize e - 1 ->
              snd r c n = zero.
Proof.
  intros Hv Hk Hp HF HR c n Hc Hn Hlt.
  destruct (prepare_spec _ _ _ _ _ _ Hv Hp)
    as (Hs & Hf & _ & Hfs & Hhs & _).
  pose proof (Rel_fresh e0 B X Cin Cout True Hs Hf) as R0.
  pose proof (runChunks_spec e0 B X Y Cin Cout Hs Hk ls 0 e0 0%nat acc
                R0 HF) as S1.
  rewrite HR in S1. destruct r as [e1 out]. destruct S1 as [_ S1].
  cbn [snd]. destruct (S1 c n) as [A1 _]. rewrite A1 by (assumption || lia).
  unfold outStream. destruct (inChan c 0 _); [|reflexivity].
  destruct Hv as [Hv1 Hv2].
  rewrite (streamAfter_any e0 B X Cin Cout Hs _ 0%nat)
    by (rewrite Hfs, Hhs; nia).
  reflexivity.
Qed.

Lemma frameAfter_stale e0 X Cin Cout :
  (forall n b, processFrameInBuffer n b = b) ->
  forall j c i, ~ (0 <= c < Z.min Cin (nChIn e0)) ->
  at_ (frameAfter e0 X Cin Cout j) c i = at_ (fftInOutBuffer e0) c i.
Proof.
  intros Hid. induction j as [|j IH]; intros c i Hc; [reflexivity|].
  cbn [frameAfter]. rewrite Hid. unfold fillFrame. cbn [setData at_].
  decide_tests; try lia; apply IH; assumption.
Qed.

Lemma streamAfter_stale e0 B X Cin Cout :
  Sized e0 B -> (forall n b, processFrameInBuffer n b = b) ->
  forall j c n, ~ (0 <= c < Z.min Cin (nChIn e0)) -> 0 <= c < nChOut e0 ->
  streamAfter e0 X Cin Cout j c n =
  staleAdd (at_ (fftInOutBuffer e0) c) (fftSize e0) (hopSize e0) j
           (n - (fftSize e0 - 1)).
Proof.
  intros Hs Hid. destruct Hs as [[Hh Hv] _ _ _ _ _ _ _].
  induction j as [|j IH]; intros c n Hc Hc'; [reflexivity|].
  cbn [streamAfter staleAdd]. unfold foldFrame.
  rewrite IH by assumption.
  rewrite !(frameAfter_stale e0 X Cin Cout Hid (S j)) by assumption.
  decide_tests; try lia; try reflexivity.
  - f_equal. f_equal. lia.
  - f_equal. lia.
Qed.

(** X12.  An output channel that no input channel feeds (the input block
    has fewer channels than the output block and than the engine was
    prepared for) does not carry silence: with the identity transform it
    receives, after the lead-in, the overlap-add of its row of
    [fftInOutBuffer], which [prepare] allocates and never clears, and
    nothing of the input. *)
Theorem unfed_output_channel_carries_frame_memory (e : Engine)
    (sampleRate B nIn nOut : Z) (e0 : Engine)
    (X Y : Z -> Z -> sample) (Cin Cout : Z) (ls : list Z)
    (acc : Z -> Z -> sample) (r : Engine * (Z -> Z -> sample)) :
  Valid e ->
  (forall n b, processFrameInBuffer n b = b) ->
  prepare e sampleRate B nIn nOut = Some e0 ->
  Forall (fun l => 0 <= l <= B) ls ->
  runChunks e0 X Y Cin Cout 0 ls acc = Some r ->
  forall c n, 0 <= c -> Z.min Cin nIn <= c < Z.min Cout nOut ->
              0 <= n < total ls ->
    snd r c n = staleAdd (junkFrame c) (fftSize e) (hopSize e)
                         (Z.to_nat (n + 1)) (n - (fftSize e - 1)).
Proof.
  intros Hv Hid Hp HF HR c n Hc0 Hc Hn.
  assert (Hk : KeepsShape) by (intros m b; rewrite Hid; split; reflexivity).
  destruct (prepare_spec _ _ _ _ _ _ Hv Hp)
    as (Hs & Hf & _ & Hfs & Hhs & Hin & Hout & _ & Hfb).
  pose proof (Rel_fresh e0 B X Cin Cout True Hs Hf) as R0.
  pose proof (runChunks_spec e0 B X Y Cin Cout Hs Hk ls 0 e0 0%nat acc
                R0 HF) as S1.
  rewrite HR in S1. destruct r as [e1 out]. destruct S1 as [_ S1].
  cbn [snd]. destruct (S1 c n) as [A1 _]. rewrite A1 by lia.
  unfold outStream.
  assert (E : inChan c 0 (Z.min Cout (nChOut e0)) = true)
    by (apply inChan_true; lia).
  rewrite E.
  rewrite (streamAfter_stale e0 B X Cin Cout Hs Hid) by lia.
  rewrite Hfs, Hhs, Hfb. reflexivity.
Qed.

Lemma frameAfter_carry e0 X Cin Cout nyu k : forall j,
  frameAfter (setCarry e0 nyu k) X Cin Cout j = frameAfter e0 X Cin Cout j.
Proof.
  induction j as [|j IH]; [reflexivity|].
  cbn [frameAfter]. rewrite IH. reflexivity.
Qed.

Lemma streamAfter_carry e0 X Cin Cout nyu k : forall j,
  streamAfter (setCarry e0 nyu k) X Cin Cout j = streamAfter e0 X Cin Cout j.
Proof.
  induction j as [|j IH]; [reflexivity|].
  cbn [streamAfter]. rewrite IH, frameAfter_carry. reflexivity.
Qed.

(** X13.  What [notYetUsedAudioData] holds after [prepare], which
    allocates it and does not clear it, never reaches the output: an
    engine whose carry-over buffer starts with any other content returns
    the same samples. *)
Theorem carry_over_memory_is_never_returned (e : Engine)
    (sampleRate B nIn nOut : Z) (e0 : Engine)
    (X Y : Z -> Z -> sample) (Cin Cout : Z) (ls : list Z)
    (acc : Z -> Z -> sample) (junk : Z -> Z -> sample)
    (r r' : Engine * (Z -> Z -> sample)) :
  Valid e -> KeepsShape ->
  prepare e sampleRate B nIn nOut = Some e0 ->
  Forall (fun l => 0 <= l <= B) ls ->
  runChunks e0 X Y Cin Cout 0 ls acc = Some r ->
  runChunks (setCarry e0 (setData (notYetUsedAudioData e0) junk) 0)
            X Y Cin Cout 0 ls acc = Some r' ->
  forall c n, 0 <= c < Cout -> 0 <= n < total ls -> snd r c n = snd r' c n.
Proof.
  intros Hv Hk Hp HF HR HR' c n Hc Hn.
  destruct (prepare_spec _ _ _ _ _ _ Hv Hp) as (Hs & Hf & _).
  set (e0' := setCarry e0 (setData (notYetUsedAudioData e0) junk) 0) in HR'.
  assert (Hs' : Sized e0' B).
  { destruct Hs as [V HB Hnc Hns Hfc Hfs Hoc Hos].
    constructor; assumption. }
  assert (Hf' : Fresh e0').
  { destruct Hf as (F1 & F2 & F3). repeat split; assumption. }
  pose proof (runChunks_spec e0 B X Y Cin Cout Hs Hk ls 0 e0 0%nat acc
                (Rel_fresh e0 B X Cin Cout True Hs Hf) HF) as S1.
  pose proof (runChunks_spec e0' B X Y Cin Cout Hs' Hk ls 0 e0' 0%nat acc
                (Rel_fresh e0' B X Cin Cout True Hs' Hf') HF) as S2.
  rewrite HR in S1. rewrite HR' in S2.
  destruct r as [e1 out]. destruct r' as [e1' out'].
  destruct S1 as [_ S1]. destruct S2 as [_ S2]. cbn [snd].
  destruct (S1 c n) as [A1 _]. destruct (S2 c n) as [A2 _].
  rewrite A1, A2 by (assumption || lia).
  unfold outStream, e0'. rewrite streamAfter_carry. reflexivity.
Qed.

(** ** The demo plug-in *)

Lemma runBlocks_runCalls : forall buffers p,
  runBlocks p buffers =
  option_map (fun r => (mkPlugin (fst r), snd r))
             (runCalls (myProcessor p) (map (fun b => (b, b)) buffers)).
Proof.
  induction buffers as [|b rest IH]; intros [m]; cbn [runBlocks runCalls map];
    [reflexivity|].
  unfold processBlock, processReplacing. cbn [myProcessor].
  destruct (process m b b) as [[e1 out]|]; [|reflexivity].
  cbn [fst snd]. rewrite IH. cbn [myProcessor].
  destruct (runCalls e1 _) as [[e2 outs]|]; reflexivity.
Qed.

(** X14.  The demo plug-in owns an engine with frames of 2048 samples and
    a hop of 512, prepared for two input and two output channels.  Once
    [prepareToPlay] has run with [samplesPerBlock >= 1], [processBlock]
    serves every host buffer of at most [samplesPerBlock] samples,
    whatever its number of channels, and hands back a buffer of the same
    shape; this needs of the FFT override no more than that it keeps the
    size of [fftInOutBuffer]. *)
Theorem plugin_serves_every_host_buffer (sampleRate samplesPerBlock : Z)
    (buffers : list AudioBuffer) :
  KeepsShape ->
  1 <= samplesPerBlock ->
  Forall (fun b => 0 <= numSamples b <= samplesPerBlock) buffers ->
  exists p p0 p' outs,
    createPluginFilter = Some p /\
    fftSize (myProcessor p) = 2048 /\ hopSize (myProcessor p) = 512 /\
    prepareToPlay p sampleRate samplesPerBlock = Some p0 /\
    getNumInputChannels (myProcessor p0) = 2 /\
    getNumOutputChannels (myProcessor p0) = 2 /\
    runBlocks p0 buffers = Some (p', outs) /\
    Forall2 (fun b out => sameShape out b) buffers outs.
Proof.
  intros Hk HB HF.
  destruct (construct 11 2) as [m|] eqn:Hc; [|discriminate Hc].
  destruct (construct_valid 11 2 m Hc) as (Hv & Hfs & Hhs & _).
  destruct (prepare_total m sampleRate samplesPerBlock 2 2 Hv HB) as [e0 Hp];
    [lia|].
  destruct (prepare_spec _ _ _ _ _ _ Hv Hp)
    as (Hs & Hf & _ & _ & _ & Hin & Hon & _).
  assert (HF' : Forall (validCall samplesPerBlock)
                       (map (fun b => (b, b)) buffers)).
  { apply Forall_map. revert HF. apply Forall_impl.
    intros b Hb. unfold validCall. cbn [fst snd]. lia. }
  destruct (runCalls_safe e0 samplesPerBlock Hs Hk Hf
              ltac:(rewrite Hin, Hon; lia)
              (map (fun b => (b, b)) buffers) e0
              (reach_prepared e0 samplesPerBlock) HF')
    as (e' & outs & HC & HS).
  exists (mkPlugin m), (mkPlugin e0), (mkPlugin e'), outs.
  unfold createPluginFilter, MyProcessor, prepareToPlay.
  rewrite Hc. cbn [myProcessor]. rewrite Hp.
  unfold getNumInputChannels, getNumOutputChannels.
  rewrite runBlocks_runCalls. cbn [myProcessor]. rewrite HC.
  repeat split; try assumption; try reflexivity.
  clear - HS. revert outs HS.
  induction buffers as [|b rest IH]; intros outs HS; inversion HS; subst;
    constructor; [assumption | apply IH; assumption].
Qed.

(** ** The older class and the runtime variant side by side *)

Lemma compensation_divisor p d :
  0 < d <= p ->
  Z.quot (Z.quot (Z.shiftl 1 p) (Z.shiftr (Z.shiftl 1 p) d)) 2 =
  Z.shiftl 1 (d - 1).
Proof.
  intros Hd.
  rewrite !Z.shiftl_1_l, Z.shiftr_div_pow2 by lia.
  assert (Hq : 2 ^ p / 2 ^ d = 2 ^ (p - d))
    by (rewrite Z.pow_sub_r by lia; reflexivity).
  rewrite Hq.
  assert (H1 : 2 ^ p = 2 ^ d * 2 ^ (p - d))
    by (rewrite <- Z.pow_add_r by lia; f_equal; lia).
  assert (Hpos : 0 < 2 ^ (p - d)) by (apply Z.pow_pos_nonneg; lia).
  rewrite H1, Z.quot_mul by lia.
  replace d with (1 + (d - 1)) at 1 by lia.
  rewrite Z.pow_add_r by lia. change (2 ^ 1) with 2.
  rewrite Z.mul_comm. apply Z.quot_mul. lia.
Qed.

Section OlderClass.

Variable nCh : Z.
Hypothesis Hhooks : forall n b,
  processFrameInBuffer n b = Hop_processFrameInBuffer b.

Definition OInv (t : HannProcessor) : Prop :=
  numChannels (h_outputBuffer t) = nCh.

Ltac ofields :=
  unfold toEngine, setOutput, setFrame, setCount, setCarry,
         h_setOutput, h_setFrame, h_setCount, h_setCarry;
  cbn [window fftInOutBuffer fftSize hopSize nChIn nChOut
       notYetUsedAudioData outputBuffer outputOffset
       notYetUsedAudioDataCount
       h_fftInOutBuffer h_fftSize h_hopSize hannWindow
       h_notYetUsedAudioData h_outputBuffer h_outputOffset
       h_notYetUsedAudioDataCount fst snd].

Lemma old_writeBackFrame t :
  OInv t ->
  writeBackFrame (toEngine nCh t) = lift1 nCh (Hop_writeBackFrame t) /\
  forall t', Hop_writeBackFrame t = Some t' -> OInv t'.
Proof.
  intros H2. unfold writeBackFrame, Hop_writeBackFrame. ofields.
  rewrite H2.
  replace (h_outputOffset t + h_fftSize t - h_hopSize t)
    with (h_outputOffset t + (h_fftSize t - h_hopSize t)) by lia.
  destruct (addFrom _ _ _ _ _ _) as [ob1|] eqn:E1;
    [|split; [reflexivity|discriminate]].
  destruct (copy _ _ _ _ _ _) as [ob2|] eqn:E2;
    [|split; [reflexivity|discriminate]].
  split; [reflexivity|]. intros t' [= <-]. unfold OInv. ofields.
  destruct (addFrom_inv _ _ _ _ _ _ _ E1) as (A1 & _).
  destruct (copy_inv _ _ _ _ _ _ _ E2) as (B1 & _). congruence.
Qed.

Lemma old_processAndWriteBack mx t :
  OInv t ->
  processAndWriteBack mx (toEngine nCh t) =
    lift1 nCh (Hop_processAndBufferOutput t) /\
  forall t', Hop_processAndBufferOutput t = Some t' -> OInv t'.
Proof.
  intros Hi. unfold processAndWriteBack, Hop_processAndBufferOutput.
  ofields. rewrite Hhooks.
  apply (old_writeBackFrame
           (h_setFrame t (Hop_processFrameInBuffer (h_fftInOutBuffer t)))).
  exact Hi.
Qed.

Lemma old_useLeftOvers inputBlock n mx fuel : forall t off,
  OInv t ->
  useLeftOvers fuel inputBlock n mx (toEngine nCh t) off =
    lift2 nCh (Hop_useLeftOvers fuel inputBlock n t off) /\
  forall t' off', Hop_useLeftOvers fuel inputBlock n t off = Some (t', off') ->
                  OInv t'.
Proof.
  induction fuel as [|fuel IH]; intros t off Hi;
    cbn [useLeftOvers Hop_useLeftOvers]; ofields;
    destruct (_ && _);
    try (split; [reflexivity | try discriminate; intros ? ? [= <- <-]; exact Hi]).
  destruct (multiply n (h_fftInOutBuffer t) _ _ _ _ _ _ _) as [fb1|];
    [|split; [reflexivity|discriminate]].
  destruct (multiply n fb1 _ _ _ _ _ _ _) as [fb2|];
    [|split; [reflexivity|discriminate]].
  destruct (old_processAndWriteBack mx (h_setFrame t fb2) Hi) as [S1 S2].
  revert S1 S2. ofields. intros S1 S2. rewrite S1.
  destruct (Hop_processAndBufferOutput _) as [t1|] eqn:E;
    [|split; [reflexivity|discriminate]].
  cbn [lift1 option_map].
  apply (IH (h_setCount t1 (h_notYetUsedAudioDataCount t - h_hopSize t))).
  exact (S2 t1 eq_refl).
Qed.

Lemma old_useNewSamples inputBlock n mx fuel : forall t d,
  OInv t ->
  useNewSamples fuel inputBlock n mx (toEngine nCh t) d =
    lift2 nCh (Hop_useNewSamples fuel inputBlock n t d) /\
  forall t' d', Hop_useNewSamples fuel inputBlock n t d = Some (t', d') ->
                OInv t'.
Proof.
  induction fuel as [|fuel IH]; intros t d Hi;
    cbn [useNewSamples Hop_useNewSamples]; ofields;
    destruct (_ <=? _);
    try (split; [reflexivity | try discriminate; intros ? ? [= <- <-]; exact Hi]).
  destruct (multiply n (h_fftInOutBuffer t) _ _ _ _ _ _ _) as [fb|];
    [|split; [reflexivity|discriminate]].
  destruct (old_processAndWriteBack mx (h_setFrame t fb) Hi) as [S1 S2].
  revert S1 S2. ofields. intros S1 S2. rewrite S1.
  destruct (Hop_processAndBufferOutput _) as [t1|] eqn:E;
    [|split; [reflexivity|discriminate]].
  cbn [lift1 option_map].
  apply (IH t1). exact (S2 t1 eq_refl).
Qed.

Lemma old_consumeInput inputBlock n mx t :
  OInv t ->
  consumeInput (toEngine nCh t) inputBlock n mx =
    lift1 nCh (Hop_consumeInput t inputBlock n) /\
  forall t', Hop_consumeInput t inputBlock n = Some t' -> OInv t'.
Proof.
  intros Hi. unfold consumeInput, Hop_consumeInput.
  destruct (old_useLeftOvers inputBlock n mx
              (Z.to_nat (h_notYetUsedAudioDataCount t)) t 0 Hi) as [S1 S2].
  cbn [toEngine notYetUsedAudioDataCount] in S1, S2 |- *. rewrite S1.
  destruct (Hop_useLeftOvers _ _ _ _ _) as [[t1 off1]|];
    [|split; [reflexivity|discriminate]].
  specialize (S2 t1 off1 eq_refl).
  cbn [lift2 option_map fst snd]. ofields.
  destruct (0 <? h_notYetUsedAudioDataCount t1).
  - destruct (copy n _ 0 _ _ _) as [nyu1|];
      [|split; [reflexivity|discriminate]].
    destruct (copy n nyu1 _ _ _ _) as [nyu2|];
      [|split; [reflexivity|discriminate]].
    split; [reflexivity|]. intros t' [= <-]. exact S2.
  - destruct (old_useNewSamples inputBlock n mx
                (Z.to_nat (numSamples inputBlock -
                           - h_notYetUsedAudioDataCount t1))
                t1 (- h_notYetUsedAudioDataCount t1) S2) as [S3 S4].
    revert S3 S4. ofields. intros S3 S4. rewrite S3.
    destruct (Hop_useNewSamples _ _ _ _ _) as [[t2 d2]|];
      [|split; [reflexivity|discriminate]].
    specialize (S4 t2 d2 eq_refl).
    cbn [lift2 option_map fst snd].
    destruct (if 0 <? _ then _ else _) as [nyu|];
      [|split; [reflexivity|discriminate]].
    split; [reflexivity|]. intros t' [= <-]. exact S4.
Qed.

Lemma old_returnSamples t L outputBlock :
  OInv t -> numChannels outputBlock <= nCh ->
  returnSamples (toEngine nCh t) L (numChannels outputBlock) outputBlock =
    lift2 nCh (Hop_returnSamples t L outputBlock) /\
  forall t' out, Hop_returnSamples t L outputBlock = Some (t', out) ->
                 OInv t'.
Proof.
  intros H2 Hc. unfold returnSamples, Hop_returnSamples. ofields.
  destruct (copy _ outputBlock _ _ _ _) as [o1|];
    [|split; [reflexivity|discriminate]].
  destruct (copy _ (h_outputBuffer t) _ _ _ _) as [ob1|] eqn:E2;
    [|split; [reflexivity|discriminate]].
  rewrite clearChannels_empty.
  split; [reflexivity|]. intros t' out [= <- _]. unfold OInv. ofields.
  destruct (copy_inv _ _ _ _ _ _ _ E2) as (B1 & _). congruence.
Qed.

Lemma old_process t inputBlock outputBlock :
  OInv t ->
  numChannels inputBlock <= nCh -> numChannels outputBlock <= nCh ->
  process (toEngine nCh t) inputBlock outputBlock =
    lift2 nCh (Hop_process t inputBlock outputBlock) /\
  forall t' out, Hop_process t inputBlock outputBlock = Some (t', out) ->
                 OInv t'.
Proof.
  intros Hi Hci Hco. unfold process, Hop_process.
  cbn [toEngine nChIn nChOut].
  rewrite (Z.min_l _ _ Hci), (Z.min_l _ _ Hco).
  destruct (old_consumeInput inputBlock (numChannels inputBlock)
              (Z.max (numChannels inputBlock) (numChannels outputBlock))
              t Hi) as [S1 S2].
  rewrite S1.
  destruct (Hop_consumeInput _ _ _) as [t1|];
    [|split; [reflexivity|discriminate]].
  cbn [lift1 option_map].
  apply old_returnSamples; [exact (S2 t1 eq_refl) | exact Hco].
Qed.

Lemma old_runCalls calls : forall t,
  OInv t ->
  Forall (fun c => numChannels (fst c) <= nCh /\ numChannels (snd c) <= nCh)
         calls ->
  runCalls (toEngine nCh t) calls = lift2 nCh (Hop_runCalls t calls).
Proof.
  induction calls as [|[i o] rest IH]; intros t Hi HF;
    cbn [runCalls Hop_runCalls]; [reflexivity|].
  inversion HF as [|? ? [Hci Hco] HF']; subst. cbn [fst snd] in Hci, Hco.
  destruct (old_process t i o Hi Hci Hco) as [S1 S2]. rewrite S1.
  destruct (Hop_process t i o) as [[t1 out]|]; [|reflexivity].
  cbn [lift2 option_map fst snd].
  rewrite (IH t1 (S2 t1 out eq_refl) HF').
  destruct (Hop_runCalls t1 rest) as [[t2 outs]|]; reflexivity.
Qed.

Lemma old_prepare e t sampleRate B :
  window e = hannWindow t -> fftSize e = h_fftSize t ->
  hopSize e = h_hopSize t ->
  prepare e sampleRate B nCh nCh = lift1 nCh (Hop_prepare t B nCh) /\
  forall t', Hop_prepare t B nCh = Some t' -> OInv t'.
Proof.
  intros Hw Hf Hh. unfold prepare, Hop_prepare, setSize. cbv zeta.
  rewrite Hw, Hf, Hh, Z.max_id.
  destruct ((0 <=? nCh) && (0 <=? h_fftSize t - 1));
    cbv iota beta; [|split; [reflexivity|discriminate]].
  destruct ((0 <=? nCh) && (0 <=? 2 * h_fftSize t));
    cbv iota beta; [|split; [reflexivity|discriminate]].
  match goal with |- context [(0 <=? nCh) && (0 <=? ?m)] =>
    destruct ((0 <=? nCh) && (0 <=? m))
  end; cbv iota beta; [|split; [reflexivity|discriminate]].
  destruct (offsetLoop _ _ _ _) as [offset|];
    cbv iota beta; [|split; [reflexivity|discriminate]].
  split; [reflexivity|]. intros t' [= <-]. unfold OInv, clear.
  cbn [h_outputBuffer numChannels setData]. reflexivity.
Qed.

End OlderClass.


(** ** In-place processing with the two older classes *)

Lemma Hann_returnSamples_dst t L o1 o2 :
  sameShape o1 o2 ->
  option_map fst (Hann_returnSamples t L o1) =
    option_map fst (Hann_returnSamples t L o2) /\
  forall r1 r2,
    Hann_returnSamples t L o1 = Some r1 -> Hann_returnSamples t L o2 = Some r2 ->
    forall c i, 0 <= c < numChannels o1 -> 0 <= i < L ->
                at_ (snd r1) c i = at_ (snd r2) c i.
Proof.
  intros [Hc Hs].
  unfold Hann_returnSamples, copy, chansOk. cbv zeta.
  rewrite Hc, Hs.
  repeat match goal with
  | |- context [if ?c then _ else None] =>
      destruct c; [|split; [reflexivity | discriminate]];
      cbv iota beta
  end.
  split; [reflexivity|].
  intros r1 r2 [= <-] [= <-] c i Hci Hi.
  cbn [snd setData at_].
  decide_tests; try reflexivity; lia.
Qed.

Lemma Hop_returnSamples_dst t L o1 o2 :
  sameShape o1 o2 ->
  option_map fst (Hop_returnSamples t L o1) =
    option_map fst (Hop_returnSamples t L o2) /\
  forall r1 r2,
    Hop_returnSamples t L o1 = Some r1 -> Hop_returnSamples t L o2 = Some r2 ->
    forall c i, 0 <= c < numChannels o1 -> 0 <= i < L ->
                at_ (snd r1) c i = at_ (snd r2) c i.
Proof.
  intros [Hc Hs].
  unfold Hop_returnSamples, copy, chansOk. cbv zeta.
  rewrite Hc, Hs.
  repeat match goal with
  | |- context [if ?c then _ else None] =>
      destruct c; [|split; [reflexivity | discriminate]];
      cbv iota beta
  end.
  split; [reflexivity|].
  intros r1 r2 [= <-] [= <-] c i Hci Hi.
  cbn [snd setData at_].
  decide_tests; try reflexivity; lia.
Qed.

(** X18.  The two older classes turn a replacing context into a
    non-replacing one over the same block; this in-place call leads to
    the same state and returns the same samples as a call into another
    block of the same shape, and fails when that call fails. *)
Theorem older_classes_process_in_place (t : HannProcessor)
    (block other : AudioBuffer) :
  sameShape block other ->
  (option_map fst (Hann_processReplacing t block) =
     option_map fst (Hann_process t block other) /\
   forall r1 r2,
     Hann_processReplacing t block = Some r1 ->
     Hann_process t block other = Some r2 ->
     forall c i, 0 <= c < numChannels block -> 0 <= i < numSamples block ->
                 at_ (snd r1) c i = at_ (snd r2) c i) /\
  (option_map fst (Hop_processReplacing t block) =
     option_map fst (Hop_process t block other) /\
   forall r1 r2,
     Hop_processReplacing t block = Some r1 ->
     Hop_process t block other = Some r2 ->
     forall c i, 0 <= c < numChannels block -> 0 <= i < numSamples block ->
                 at_ (snd r1) c i = at_ (snd r2) c i).
Proof.
  intros Hsh. split.
  - unfold Hann_processReplacing, Hann_process.
    destruct (Hann_consumeInput _ _ _) as [t1|];
      [|split; [reflexivity | discriminate]].
    apply Hann_returnSamples_dst. exact Hsh.
  - unfold Hop_processReplacing, Hop_process.
    destruct (Hop_consumeInput _ _ _) as [t1|];
      [|split; [reflexivity | discriminate]].
    apply Hop_returnSamples_dst. exact Hsh.
Qed.

(** ** The stream the engine computes *)

(** X19.  However the input stream is cut into blocks, the samples a
    prepared engine returns are those of [outStream]: frame [j] is the
    frame transform applied to [fftInOutBuffer] after its first
    [fftSize] samples were overwritten, on the channels fed by the input,
    with the windowed input from position [j * hopSize] on, and it is
    folded into the output at position [fftSize - 1 + j * hopSize],
    added to what earlier frames left there on its first
    [fftSize - hopSize] samples and stored on its last [hopSize]. *)
Theorem output_is_the_overlap_add_of_the_frames (e : Engine)
    (sampleRate B nIn nOut : Z) (e0 : Engine)
    (X Y : Z -> Z -> sample) (Cin Cout : Z) (ls : list Z)
    (acc : Z -> Z -> sample) (r : Engine * (Z -> Z -> sample)) :
  Valid e -> KeepsShape ->
  prepare e sampleRate B nIn nOut = Some e0 ->
  Forall (fun l => 0 <= l <= B) ls ->
  runChunks e0 X Y Cin Cout 0 ls acc = Some r ->
  (forall c n, 0 <= c < Cout -> 0 <= n < total ls ->
     snd r c n = outStream e0 X Cin Cout c n) /\
  (forall c n, ~ 0 <= n < total ls -> snd r c n = acc c n) /\
  (forall j,
     frameAfter e0 X Cin Cout (S j) =
     processFrameInBuffer
       (Z.max (Z.min Cin nIn) (Z.min Cout nOut))
       (fillFrame e0 X Cin (frameAfter e0 X Cin Cout j) (Z.of_nat j))) /\
  (forall j,
     streamAfter e0 X Cin Cout (S j) =
     foldFrame e0 (streamAfter e0 X Cin Cout j) (frameAfter e0 X Cin Cout (S j))
               (fftSize e - 1 + Z.of_nat j * hopSize e)).
Proof.
  intros Hv Hk Hp HF HR.
  destruct (prepare_spec _ _ _ _ _ _ Hv Hp)
    as (Hs & Hf & _ & Hfs & Hhs & Hin & Hon & _).
  pose proof (runChunks_spec e0 B X Y Cin Cout Hs Hk ls 0 e0 0%nat acc
                (Rel_fresh e0 B X Cin Cout True Hs Hf) HF) as S1.
  rewrite HR in S1. destruct r as [e1 out]. destruct S1 as [_ S1].
  cbn [snd]. split; [|split; [|split]].
  - intros c n Hc Hn. destruct (S1 c n) as [A1 _].
    apply A1; [assumption | lia].
  - intros c n Hn. destruct (S1 c n) as [_ A2]. apply A2. lia.
  - intros j. cbn [frameAfter]. rewrite Hin, Hon. reflexivity.
  - intros j. cbn [streamAfter]. rewrite Hfs, Hhs. reflexivity.
Qed.

(** ** The size of the output buffer *)

Lemma frameAfter_output e0 X Cin Cout ob off : forall j,
  frameAfter (setOutput e0 ob off) X Cin Cout j = frameAfter e0 X Cin Cout j.
Proof.
  induction j as [|j IH]; [reflexivity|].
  cbn [frameAfter]. rewrite IH. reflexivity.
Qed.

Lemma streamAfter_output e0 X Cin Cout ob off : forall j,
  streamAfter (setOutput e0 ob off) X Cin Cout j = streamAfter e0 X Cin Cout j.
Proof.
  induction j as [|j IH]; [reflexivity|].
  cbn [streamAfter]. rewrite IH, frameAfter_output. reflexivity.
Qed.

(** X20.  [process] needs the first [fftSize - 1 + maximumBlockSize]
    samples per channel of the output buffer only: [prepare] allocates at
    least that many, and with an output buffer cut down to exactly that
    size every sequence of blocks is served as well and the same samples
    are returned. *)
Theorem output_buffer_is_larger_than_needed (e : Engine)
    (sampleRate B nIn nOut : Z) (e0 : Engine)
    (X Y : Z -> Z -> sample) (Cin Cout : Z) (ls : list Z)
    (acc : Z -> Z -> sample) :
  Valid e -> KeepsShape ->
  prepare e sampleRate B nIn nOut = Some e0 ->
  0 <= nOut <= nIn ->
  Forall (fun l => 0 <= l <= B) ls ->
  fftSize e - 1 + B <= numSamples (outputBuffer e0) /\
  exists r r',
    runChunks e0 X Y Cin Cout 0 ls acc = Some r /\
    runChunks
      (setOutput e0 (mkBuffer nIn (fftSize e - 1 + B) (fun _ _ => zero))
                 (fftSize e - 1))
      X Y Cin Cout 0 ls acc = Some r' /\
    forall c n, 0 <= c < Cout -> 0 <= n < total ls -> snd r c n = snd r' c n.
Proof.
  intros Hv Hk Hp Hsafe HF.
  destruct (prepare_spec _ _ _ _ _ _ Hv Hp)
    as (Hs & Hf & _ & Hfs & Hhs & Hin & Hon & _).
  split; [rewrite <- Hfs; exact (sz_ob_s _ _ Hs)|].
  set (e0' := setOutput e0 (mkBuffer nIn (fftSize e - 1 + B)
                                     (fun _ _ => zero)) (fftSize e - 1)).
  assert (Hs' : Sized e0' B).
  { destruct Hs as [V HB Hnc Hns Hfc Hfs' Hoc Hos].
    constructor; try assumption; unfold e0';
      cbn [setOutput outputBuffer numChannels numSamples nChIn fftSize];
      [symmetry; exact Hin | lia]. }
  assert (Hf' : Fresh e0').
  { destruct Hf as (F1 & F2 & F3). repeat split; try assumption.
    unfold e0'. cbn [setOutput outputOffset fftSize]. lia. }
  pose proof (runChunks_spec e0 B X Y Cin Cout Hs Hk ls 0 e0 0%nat acc
                (Rel_fresh e0 B X Cin Cout True Hs Hf) HF) as S1.
  pose proof (runChunks_spec e0' B X Y Cin Cout Hs' Hk ls 0 e0' 0%nat acc
                (Rel_fresh e0' B X Cin Cout True Hs' Hf') HF) as S2.
  destruct (runChunks e0 X Y Cin Cout 0 ls acc) as [[e1 out]|];
    [|exfalso; apply S1; unfold Safe; lia].
  destruct (runChunks e0' X Y Cin Cout 0 ls acc) as [[e1' out']|];
    [|exfalso; apply S2; unfold Safe, e0'; cbn [setOutput nChIn nChOut]; lia].
  exists (e1, out), (e1', out'). split; [reflexivity|].
  split; [reflexivity|].
  intros c n Hc Hn. cbn [snd].
  destruct S1 as [_ S1]. destruct S2 as [_ S2].
  destruct (S1 c n) as [A1 _]. destruct (S2 c n) as [A2 _].
  rewrite A1, A2 by (assumption || lia).
  unfold outStream, e0'. rewrite streamAfter_output. reflexivity.
Qed.

(** X21.  The clamp of the shift length in [process] never discards a
    sample: whenever [tooMuch] is positive the output buffer holds
    nothing but zeros, no frame having been written back yet. *)
Theorem shift_clamp_discards_no_sample (e : Engine)
    (sampleRate B nIn nOut : Z) (e0 e1 e2 : Engine)
    (inputBlock outputBlock : AudioBuffer) :
  Valid e -> KeepsShape ->
  prepare e sampleRate B nIn nOut = Some e0 ->
  Reachable e0 B e1 ->
  0 <= numSamples inputBlock <= B ->
  consumeInput e1 inputBlock
    (Z.min (numChannels inputBlock) (nChIn e1))
    (Z.max (Z.min (numChannels inputBlock) (nChIn e1))
           (Z.min (numChannels outputBlock) (nChOut e1))) = Some e2 ->
  let shiftStart := numSamples inputBlock in
  let shiftL := outputOffset e2 + fftSize e2 - hopSize e2
                - numSamples inputBlock in
  let tooMuch := shiftStart + shiftL - numSamples (outputBuffer e2) in
  0 < tooMuch ->
  forall c i, at_ (outputBuffer e2) c i = zero.
Proof.
  intros Hv Hk Hp HR HL HC shiftStart shiftL tooMuch Hclamp.
  destruct (prepare_spec _ _ _ _ _ _ Hv Hp) as (Hs & Hf & _).
  exact (clamp_only_on_silence e0 B e1 inputBlock outputBlock e2
           Hs Hk Hf HR HL HC Hclamp).
Qed.

(** ** Reconstruction *)

Lemma overlapAdd_S w N H x j m :
  overlapAdd w N H x (S j) m =
  if inRange (m - Z.of_nat j * H) 0 (N - H)
  then add (overlapAdd w N H x j m) (mul (x m) (w (m - Z.of_nat j * H)))
  else if inRange (m - Z.of_nat j * H) (N - H) H
  then mul (x m) (w (m - Z.of_nat j * H))
  else overlapAdd w N H x j m.
Proof. reflexivity. Qed.

Lemma overlapAdd_cover w N H K x m :
  0 < H -> N = K * H -> 2 <= K -> N - H <= m ->
  forall i : nat, Z.of_nat i <= K - 1 ->
  overlapAdd w N H x (S (Z.to_nat (m / H - (K - 1)) + i)) m =
  hopSum (fun k => mul (x m) (w k)) (m mod H + N - H) H i.
Proof.
  intros HH HN HK Hm.
  pose proof (Z.div_mod m H ltac:(lia)) as Hdm.
  pose proof (Z.mod_pos_bound m H HH) as Hr.
  assert (Hq : K - 1 <= m / H).
  { apply Z.div_le_lower_bound; [lia|]. nia. }
  set (b := m / H - (K - 1)).
  assert (Hb : 0 <= b) by (unfold b; lia).
  induction i as [|i IH]; intros Hi.
  - rewrite Nat.add_0_r, overlapAdd_S. cbn [hopSum].
    rewrite Z2Nat.id by exact Hb.
    assert (Ek : m - b * H = m mod H + N - H) by (unfold b; nia).
    rewrite Ek.
    assert (E1 : inRange (m mod H + N - H) 0 (N - H) = false)
      by (apply inRange_false; lia).
    assert (E2 : inRange (m mod H + N - H) (N - H) H = true)
      by (apply inRange_true; lia).
    rewrite E1, E2. reflexivity.
  - rewrite Nat.add_succ_r, overlapAdd_S. cbn [hopSum].
    rewrite IH by lia.
    assert (Ek : m - Z.of_nat (S (Z.to_nat b + i)) * H =
                 m mod H + N - H - Z.of_nat (S i) * H) by (unfold b; nia).
    rewrite Ek.
    assert (E1 : inRange (m mod H + N - H - Z.of_nat (S i) * H) 0 (N - H)
                 = true) by (apply inRange_true; nia).
    rewrite E1. reflexivity.
Qed.

Lemma overlapAdd_steady w N H K x m j :
  0 < H -> N = K * H -> 2 <= K -> N - H <= m -> m / H < Z.of_nat j ->
  overlapAdd w N H x j m =
  hopSum (fun k => mul (x m) (w k)) (m mod H + N - H) H (Z.to_nat (K - 1)).
Proof.
  intros HH HN HK Hm Hj.
  pose proof (Z.div_mod m H ltac:(lia)) as Hdm.
  pose proof (Z.mod_pos_bound m H HH) as Hr.
  assert (Hq : K - 1 <= m / H).
  { apply Z.div_le_lower_bound; [lia|]. nia. }
  set (j0 := S (Z.to_nat (m / H - (K - 1)) + Z.to_nat (K - 1))).
  assert (Hj0 : Z.of_nat j0 = m / H + 1) by (unfold j0; lia).
  replace j with ((j - j0) + j0)%nat by lia.
  rewrite overlapAdd_skip by nia.
  unfold j0.
  apply (overlapAdd_cover w N H K x m HH HN HK Hm). lia.
Qed.

Lemma hopSum_ext f g top H :
  (forall k, f k = g k) -> forall i, hopSum f top H i = hopSum g top H i.
Proof.
  intros E. induction i as [|i IH]; cbn [hopSum]; [apply E|].
  rewrite IH, E. reflexivity.
Qed.


(** ** A hop offset that lags behind the carry-over count *)

Lemma process_single_sample e inputBlock outputBlock e' out :
  numSamples inputBlock = 1 ->
  0 <= notYetUsedAudioDataCount e ->
  notYetUsedAudioDataCount e + 1 < fftSize e ->
  process e inputBlock outputBlock = Some (e', out) ->
  notYetUsedAudioDataCount e' = notYetUsedAudioDataCount e + 1 /\
  outputOffset e' = outputOffset e - 1.
Proof.
  intros HL Hc0 Hc1. unfold process, consumeInput.
  rewrite useLeftOvers_exit by (rewrite HL; lia).
  cbn [fst snd]. rewrite HL.
  assert (G : forall e1,
    notYetUsedAudioDataCount e1 = notYetUsedAudioDataCount e + 1 ->
    outputOffset e1 = outputOffset e ->
    returnSamples e1 1 (Z.min (numChannels outputBlock) (nChOut e)) outputBlock
      = Some (e', out) ->
    notYetUsedAudioDataCount e' = notYetUsedAudioDataCount e + 1 /\
    outputOffset e' = outputOffset e - 1).
  { intros e1 Hc He1 HR. unfold returnSamples in HR.
    destruct (copy _ outputBlock _ _ _ _) as [o1|]; [|discriminate].
    destruct (copy _ _ _ _ _ _) as [ob1|]; [|discriminate].
    destruct (clearChannels _ _ _ _) as [o2|]; [|discriminate].
    injection HR as <- _.
    cbn [setOutput outputOffset notYetUsedAudioDataCount].
    rewrite He1, Hc. split; reflexivity. }
  destruct (0 <? notYetUsedAudioDataCount e) eqn:E;
    [apply Z.ltb_lt in E | apply Z.ltb_ge in E].
  - destruct (copy _ _ _ _ _ _) as [nyu1|]; [|discriminate].
    destruct (copy _ nyu1 _ _ _ _) as [nyu2|]; [|discriminate].
    apply G; reflexivity.
  - rewrite useNewSamples_exit by (rewrite HL; lia).
    cbn [fst snd].
    destruct (if 0 <? _ then _ else _) as [nyu|]; [|discriminate].
    apply G; [|reflexivity].
    cbn [setCarry notYetUsedAudioDataCount]. lia.
Qed.

Lemma process_frame_before_the_buffer e inputBlock outputBlock :
  0 < notYetUsedAudioDataCount e ->
  fftSize e <= notYetUsedAudioDataCount e + numSamples inputBlock ->
  outputOffset e < 0 -> 0 < nChOut e ->
  process e inputBlock outputBlock = None.
Proof.
  intros Hc Hfull Hoff Hn. unfold process, consumeInput.
  destruct (Z.to_nat (notYetUsedAudioDataCount e)) as [|fuel] eqn:Ef; [lia|].
  cbn [useLeftOvers].
  assert (E : (0 <? notYetUsedAudioDataCount e) &&
              (fftSize e <=? notYetUsedAudioDataCount e + numSamples inputBlock)
              = true).
  { apply andb_true_iff. split; [apply Z.ltb_lt | apply Z.leb_le]; lia. }
  rewrite E.
  destruct (multiply _ _ _ _ _ _ _ _ _) as [fb1|]; [|reflexivity].
  destruct (multiply _ fb1 _ _ _ _ _ _ _) as [fb2|]; [|reflexivity].
  unfold processAndWriteBack, writeBackFrame, addFrom.
  cbn [setFrame outputBuffer nChOut outputOffset fftInOutBuffer fftSize
       hopSize].
  destruct (chansOk (outputBuffer e) 0 (nChOut e) _ _) eqn:G; [|reflexivity].
  apply chansOk_true in G. exfalso. lia.
Qed.

Lemma single_samples_reach_the_fault : forall (k : nat) calls e,
  Z.to_nat (fftSize e - 1 - notYetUsedAudioDataCount e) = k ->
  0 <= notYetUsedAudioDataCount e <= fftSize e - 1 ->
  2 <= fftSize e ->
  outputOffset e + notYetUsedAudioDataCount e < fftSize e - 1 ->
  0 < nChOut e ->
  Forall (fun c => numSamples (fst c) = 1) calls ->
  (k < length calls)%nat ->
  runCalls e calls = None.
Proof.
  induction k as [|k IH]; intros calls e Hk Hc HN Hlag Hn HF Hlen;
    (destruct calls as [|[i o] rest]; [cbn in Hlen; lia|]);
    inversion HF as [|? ? HL HF']; subst; cbn [fst] in HL;
    cbn [runCalls].
  - rewrite process_frame_before_the_buffer by lia. reflexivity.
  - destruct (process e i o) as [[e1 out]|] eqn:HP; [|reflexivity].
    cbn [fst snd].
    assert (H0 : 0 <= notYetUsedAudioDataCount e) by lia.
    assert (H1 : notYetUsedAudioDataCount e + 1 < fftSize e) by lia.
    destruct (process_single_sample _ _ _ _ _ HL H0 H1 HP) as [C1 C2].
    destruct (process_setup _ _ _ _ _ HP)
      as ((_ & A2 & _ & _ & A5 & _) & _).
    rewrite (IH rest e1); [reflexivity | | | | | | exact HF' |];
      try rewrite A2; try rewrite A5; try rewrite C1; try rewrite C2;
      try lia.
    cbn [length] in Hlen. lia.
Qed.

Lemma Hann_runCalls_keeps (nCh : Z)
    (Hhooks : forall n b,
       processFrameInBuffer n b = Hann_processFrameInBuffer b) calls :
  forall t t' outs,
  HInv nCh t ->
  Forall (fun c => numChannels (fst c) <= nCh /\ numChannels (snd c) <= nCh)
         calls ->
  Hann_runCalls t calls = Some (t', outs) -> HInv nCh t'.
Proof.
  induction calls as [|[i o] rest IH]; intros t t' outs Hi HF;
    cbn [Hann_runCalls].
  - intros [= <- _]. exact Hi.
  - inversion HF as [|? ? [Hci Hco] HF']; subst. cbn [fst snd] in Hci, Hco.
    destruct (sim_process nCh Hhooks t i o Hi Hci Hco) as [_ S2].
    destruct (Hann_process t i o) as [[t1 out]|]; [|discriminate].
    cbn [fst snd].
    destruct (Hann_runCalls t1 rest) as [[t2 outs2]|] eqn:HC; [|discriminate].
    intros [= <- _]. exact (IH t1 t2 outs2 (S2 t1 out eq_refl) HF' HC).
Qed.

End Engine.

(** * Concrete engines

    Integer samples with exact arithmetic; [ztable] stands in for the Hann
    table of the JUCE library, and the identity is the default frame
    transform of both variants. *)

Definition ztable (size i : Z) : Z := i * (size - 1 - i).
Definition zjunk (c i : Z) : Z := 7.
Definition zid (n : Z) (b : AudioBuffer Z) : AudioBuffer Z := b.
Definition zid' (b : AudioBuffer Z) : AudioBuffer Z := b.

Definition zconstruct : Z -> Z -> option (Engine Z) :=
  construct Z 0 1 Z.mul Z.quot (fun n => n) ztable.
Definition zprepare : Engine Z -> Z -> Z -> Z -> Z -> option (Engine Z) :=
  prepare Z 0 zjunk zjunk.
Definition zprocess
    : Engine Z -> AudioBuffer Z -> AudioBuffer Z ->
      option (Engine Z * AudioBuffer Z) :=
  process Z 0 Z.add Z.mul zid.

(** [OverlappingFFTProcessor (2, 1)]: frames of 4 samples, hop of 2. *)
Definition engine42 : Engine Z :=
  mkEngine Z (createWindow Z 1 Z.mul Z.quot (fun n => n) ztable 4 2)
           (emptyBuffer Z 0) 4 2 0 0 (emptyBuffer Z 0) (emptyBuffer Z 0) 0 0.

(** ... prepared for blocks of at most 4 samples, mono in, mono out. *)
Definition prepared42 : Engine Z :=
  mkEngine Z (window Z engine42) (mkBuffer Z 1 8 zjunk) 4 2 1 1
           (mkBuffer Z 1 3 zjunk) (mkBuffer Z 1 9 (fun _ _ => 0)) 3 0.

(** a mono block of one sample and a mono block of four samples *)
Definition oneSample : AudioBuffer Z := mkBuffer Z 1 1 (fun _ _ => 5).
Definition ramp (c i : Z) : Z := 10 * c + i + 1.
Definition fourSamples : AudioBuffer Z := mkBuffer Z 1 4 ramp.

Lemma engine42_constructed : zconstruct 2 1 = Some engine42.
Proof. reflexivity. Qed.

Lemma engine42_valid : Valid Z engine42.
Proof. unfold Valid. cbn. lia. Qed.

Lemma prepared42_prepared : zprepare engine42 44100 4 1 1 = Some prepared42.
Proof. reflexivity. Qed.

Lemma zid_keeps_shape : KeepsShape Z zid.
Proof. intros n b. split; reflexivity. Qed.

(** ... the same engine prepared for blocks of at most 1024 samples, *)
Definition prepared42_1024 : Engine Z :=
  mkEngine Z (window Z engine42) (mkBuffer Z 1 8 zjunk) 4 2 1 1
           (mkBuffer Z 1 3 zjunk) (mkBuffer Z 1 2049 (fun _ _ => 0)) 3 0.

(** ... and for one input channel and two output channels. *)
Definition prepared42_1_2 : Engine Z :=
  mkEngine Z (window Z engine42) (mkBuffer Z 2 8 zjunk) 4 2 1 2
           (mkBuffer Z 1 3 zjunk) (mkBuffer Z 1 9 (fun _ _ => 0)) 3 0.

Lemma prepared42_1024_prepared :
  zprepare engine42 44100 1024 1 1 = Some prepared42_1024.
Proof. reflexivity. Qed.

Lemma prepared42_1_2_prepared :
  zprepare engine42 44100 4 1 2 = Some prepared42_1_2.
Proof. reflexivity. Qed.

(** two blocks of two channels that differ on channel 1 only *)
Definition twoChannelsA : AudioBuffer Z :=
  mkBuffer Z 2 1 (fun c i => if c =? 0 then 5 else 1).
Definition twoChannelsB : AudioBuffer Z :=
  mkBuffer Z 2 1 (fun c i => if c =? 0 then 5 else 2).
Definition stereoOut : AudioBuffer Z := mkBuffer Z 2 1 (fun _ _ => 9).

(** ** Witnesses *)

(** C8, witness. *)
Lemma carry_over_count_bounded_witness :
  exists r, zprocess prepared42 oneSample oneSample = Some r /\
    0 <= notYetUsedAudioDataCount Z (fst r) <= fftSize Z (fst r) - 1 /\
    numSamples Z (notYetUsedAudioData Z (fst r)) = fftSize Z (fst r) - 1.
Proof.
  eexists. split; [reflexivity|].
  apply (carry_over_count_bounded Z 0 Z.add Z.mul zjunk zjunk zid
           engine42 44100 4 1 1 prepared42).
  - exact engine42_valid.
  - exact zid_keeps_shape.
  - reflexivity.
  - eapply reach_process with (inputBlock := oneSample)
                              (outputBlock := oneSample).
    + apply reach_prepared.
    + cbn. lia.
    + cbn. lia.
    + reflexivity.
Defined.

(** C4, witness. *)
Lemma block_size_independence_witness :
  (0 <= 1 <= 1 ->
   exists r1 r2,
     runChunks Z 0 Z.add Z.mul zid prepared42_1024 ramp zjunk 1 1 0
               [1024] zjunk = Some r1 /\
     runChunks Z 0 Z.add Z.mul zid prepared42_1024 ramp zjunk 1 1 0
               [256; 256; 256; 256] zjunk = Some r2) /\
  (forall r1 r2,
     runChunks Z 0 Z.add Z.mul zid prepared42_1024 ramp zjunk 1 1 0
               [1024] zjunk = Some r1 ->
     runChunks Z 0 Z.add Z.mul zid prepared42_1024 ramp zjunk 1 1 0
               [256; 256; 256; 256] zjunk = Some r2 ->
     forall c n, 0 <= c < 1 -> 0 <= n < total [1024] ->
                 snd r1 c n = snd r2 c n).
Proof.
  apply (block_size_independence Z 0 Z.add Z.mul zjunk zjunk zid
           engine42 44100 1024 1 1 prepared42_1024).
  - exact engine42_valid.
  - exact zid_keeps_shape.
  - reflexivity.
  - repeat constructor; lia.
  - repeat constructor; lia.
  - reflexivity.
Defined.

Definition eightSamples : AudioBuffer Z := mkBuffer Z 1 8 ramp.


(** two blocks of four samples, of two and of three channels, that differ
    above channel 0 only, and an output block of two channels *)
Definition twoChannelsFour : AudioBuffer Z :=
  mkBuffer Z 2 4 (fun c i => if c =? 0 then i + 1 else 100).
Definition threeChannelsFour : AudioBuffer Z :=
  mkBuffer Z 3 4 (fun c i => if c =? 0 then i + 1 else 200).
Definition stereoFour : AudioBuffer Z := mkBuffer Z 2 4 (fun _ _ => 9).



(** [OverlappingFFTProcessor (4, 2)]: frames of 16 samples, hop of 4. *)
Definition engine164 : Engine Z :=
  mkEngine Z (createWindow Z 1 Z.mul Z.quot (fun n => n) ztable 16 4)
           (emptyBuffer Z 0) 16 4 0 0 (emptyBuffer Z 0) (emptyBuffer Z 0) 0 0.

(** ** Inputs on which claims fail *)

(** C6, counterexample.  After [prepare] and one block of one sample the
    carry-over count is 1, and [reset] leaves it there. *)
Lemma reset_keeps_carry_over_count :
  exists r,
    zprepare engine42 44100 4 1 1 = Some prepared42 /\
    zprocess prepared42 oneSample oneSample = Some r /\
    notYetUsedAudioDataCount Z (reset Z (fst r)) <> 0.
Proof.
  eexists. split; [reflexivity|]. split; [reflexivity|].
  vm_compute. discriminate.
Qed.


(** C1, failing input.  Prepared for one input and two output channels,
    [outputBuffer] has one channel; returning one sample to a block of two
    channels reads a second channel of it. *)
Theorem process_faults_on_second_output_channel :
  zprepare engine42 44100 4 1 2 = Some prepared42_1_2 /\
  numChannels Z (outputBuffer Z prepared42_1_2) = 1 /\
  zprocess prepared42_1_2 oneSample stereoOut = None.
Proof. repeat split. Qed.

(** C5, failing input.  With the same preparation a block that completes
    a frame makes [writeBackFrame] add into channel 1 of the one-channel
    [outputBuffer], although the caller's output block has one channel
    only. *)
Theorem writeBackFrame_leaves_outputBuffer :
  zprepare engine42 44100 4 1 2 = Some prepared42_1_2 /\
  numChannels Z (outputBuffer Z prepared42_1_2) = 1 /\
  nChOut Z prepared42_1_2 = 2 /\
  writeBackFrame Z Z.add prepared42_1_2 = None /\
  zprocess prepared42_1_2 fourSamples fourSamples = None.
Proof. repeat split. Qed.

(** ** The concrete scenario of the specification, on rationals

    [fftSizeExponent = 4], [hopDivider = 2], one mono call of 64 samples
    all equal to 1.0, the identity transform.  [qtable] is the table that
    [fillWindowingTables (_, 16, hann, false)] fills,
    [0.5 - 0.5 cos (2 pi i / 15)], to six decimals. *)

Definition qtable (size i : Z) : Q :=
  nth (Z.to_nat i)
      [0; 43227 # 1000000; 165435 # 1000000; 345492 # 1000000;
       552264 # 1000000; 750000 # 1000000; 904508 # 1000000;
       989074 # 1000000; 989074 # 1000000; 904508 # 1000000;
       750000 # 1000000; 552264 # 1000000; 345492 # 1000000;
       165435 # 1000000; 43227 # 1000000; 0]%Q
      0%Q.
Definition qjunk (c i : Z) : Q := 0%Q.
Definition qid (n : Z) (b : AudioBuffer Q) : AudioBuffer Q := b.
Definition qones (c i : Z) : Q := 1%Q.
(** "approximately", to within 1e-4 *)
Definition near (x y : Q) : Prop := (Qabs (x - y) <= 1 # 10000)%Q.

(** No sample of [f] at the [len] positions from [from] on is within 1e-4
    of 1.0. *)
Definition noneNearOne (f : Z -> Q) (from len : nat) : bool :=
  forallb (fun k => negb (Qle_bool (Qabs (f (Z.of_nat k) - 1)) (1 # 10000)))
          (seq from len).

(** [OverlappingFFTProcessor (4, 2)] on rationals, as constructed and as
    prepared for blocks of at most 64 samples, mono in, mono out. *)
Definition qengine164 : Engine Q :=
  mkEngine Q (createWindow Q 1%Q Qmult Qdiv inject_Z qtable 16 4)
           (emptyBuffer Q 0%Q) 16 4 0 0 (emptyBuffer Q 0%Q)
           (emptyBuffer Q 0%Q) 0 0.

Definition qprepared164 : Engine Q :=
  mkEngine Q (window Q qengine164) (mkBuffer Q 1 32 qjunk) 16 4 1 1
           (mkBuffer Q 1 15 qjunk) (mkBuffer Q 1 139 (fun _ _ => 0%Q)) 15 0.

Lemma qengine164_constructed :
  construct Q 0%Q 1%Q Qmult Qdiv inject_Z qtable 4 2 = Some qengine164.
Proof. reflexivity. Qed.

Lemma qprepared164_prepared :
  prepare Q 0%Q qjunk qjunk qengine164 44100 64 1 1 = Some qprepared164.
Proof. reflexivity. Qed.

Lemma qengine164_valid : Valid Q qengine164.
Proof. unfold Valid. cbn. lia. Qed.




(** ** Constant overlap-add of the Hann window, on rationals

    The table that [fillWindowingTables (_, size, hann, false)] fills is
    [0.5 - 0.5 cos (2 pi i / (size - 1))]; for 4 entries the cosines are
    [1, -1/2, -1/2, 1] and the table is exactly [0, 3/4, 3/4, 0]. *)
Definition hann4 (size i : Z) : Q :=
  nth (Z.to_nat i) [0; 3 # 4; 3 # 4; 0]%Q 0%Q.

(** [OverlappingFFTProcessor (2, 1)] and [OverlappingFFTProcessor (2, 2)]:
    frames of 4 samples with a hop of 2 and of 1, the two hop dividers the
    constructor accepts for this frame size. *)
Definition qhann42 : Engine Q :=
  mkEngine Q (createWindow Q 1%Q Qmult Qdiv inject_Z hann4 4 2)
           (emptyBuffer Q 0%Q) 4 2 0 0 (emptyBuffer Q 0%Q)
           (emptyBuffer Q 0%Q) 0 0.

Definition qhann41 : Engine Q :=
  mkEngine Q (createWindow Q 1%Q Qmult Qdiv inject_Z hann4 4 1)
           (emptyBuffer Q 0%Q) 4 1 0 0 (emptyBuffer Q 0%Q)
           (emptyBuffer Q 0%Q) 0 0.

Lemma qhann42_constructed :
  construct Q 0%Q 1%Q Qmult Qdiv inject_Z hann4 2 1 = Some qhann42.
Proof. reflexivity. Qed.

Lemma qhann41_constructed :
  construct Q 0%Q 1%Q Qmult Qdiv inject_Z hann4 2 2 = Some qhann41.
Proof. reflexivity. Qed.

Lemma Qmult_1_l_leibniz (x : Q) : (1 * x)%Q = x.
Proof. destruct x as [n d]. unfold Qmult. cbn. destruct n; reflexivity. Qed.


(** [OverlappingFFTProcessor (2, 1)] prepared for blocks of at most 4
    samples, mono in, mono out. *)
Definition qhann42_prepared : Engine Q :=
  mkEngine Q (window Q qhann42) (mkBuffer Q 1 8 qjunk) 4 2 1 1
           (mkBuffer Q 1 3 qjunk) (mkBuffer Q 1 9 (fun _ _ => 0%Q)) 3 0.



(** * The template variant on its own

    [FftWithHopSizeAndHannWindowProcessor<fftPowerOf2>] with its own frame
    transform; the runtime variant it is compared with runs the same
    transform, whatever channel count it is handed. *)

Section TemplateVariant.

Variable sample : Type.
Variable zero : sample.
Variables add mul : sample -> sample -> sample.
Variable hannTable : Z -> Z -> sample.
Variables junkCarry junkFrame : Z -> Z -> sample.
Variable Hann_processFrameInBuffer : AudioBuffer sample -> AudioBuffer sample.

Lemma Hann_sizes p :
  1 <= p ->
  h_fftSize sample (Hann_construct sample zero hannTable p) = 2 ^ p /\
  h_hopSize sample (Hann_construct sample zero hannTable p) = 2 ^ (p - 1) /\
  2 * 2 ^ (p - 1) = 2 ^ p /\ 1 <= 2 ^ (p - 1).
Proof.
  intros Hp. unfold Hann_construct, Hann_reset. cbn [h_fftSize h_hopSize].
  rewrite Z.shiftl_1_l.
  assert (Hpow : 2 ^ p = 2 * 2 ^ (p - 1)).
  { replace p with (1 + (p - 1)) at 1 by lia.
    rewrite Z.pow_add_r by lia. reflexivity. }
  assert (Hpos : 0 < 2 ^ (p - 1)) by (apply Z.pow_pos_nonneg; lia).
  repeat split; try lia.
  rewrite Hpow, Z.mul_comm. apply Z.quot_mul. lia.
Qed.

(** X15.  The template variant ([fftPowerOf2 >= 1]) prepared for [nCh]
    channels and blocks of at most [maximumBlockSize >= 1] samples serves
    every sequence of calls whose blocks have at most [nCh] channels: no
    access leaves a buffer, every call hands back a block of the shape of
    the caller's, and the carry-over count ends between 0 and
    [fftSize - 1]. *)
Theorem template_variant_serves_every_call (p B nCh : Z)
    (calls : list (AudioBuffer sample * AudioBuffer sample)) :
  1 <= p -> 1 <= B -> 0 <= nCh ->
  (forall b, sameShape sample (Hann_processFrameInBuffer b) b) ->
  Forall (validCall sample B) calls ->
  Forall (fun c => numChannels sample (fst c) <= nCh /\
                   numChannels sample (snd c) <= nCh) calls ->
  exists t0 t' outs,
    Hann_prepare sample zero junkCarry junkFrame (Hann_construct sample zero hannTable p) B nCh = Some t0 /\
    Hann_runCalls sample add mul Hann_processFrameInBuffer t0 calls = Some (t', outs) /\
    Forall2 (fun c out => sameShape sample out (snd c)) calls outs /\
    0 <= h_notYetUsedAudioDataCount sample t' <= h_fftSize sample t' - 1.
Proof.
  intros Hp HB Hn Hshape HF HC.
  destruct (Hann_sizes p Hp) as (Tf & Th & Hpow & Hpos).
  set (t := Hann_construct sample zero hannTable p) in *.
  set (e := toEngine sample 0 t).
  assert (Hv : Valid sample e) by (unfold Valid, e, toEngine; cbn [fftSize hopSize]; lia).
  assert (Hk : KeepsShape sample (fun (_ : Z) b => Hann_processFrameInBuffer b)) by (intros n b; apply Hshape).
  destruct (sim_prepare sample zero junkCarry junkFrame nCh e t 0 B
              eq_refl eq_refl eq_refl ltac:(lia)) as [S1 S2].
  destruct (prepare_total sample zero junkCarry junkFrame e 0 B nCh nCh
              Hv HB Hn) as [e0 Hp0].
  rewrite Hp0 in S1.
  destruct (Hann_prepare sample zero junkCarry junkFrame t B nCh) as [t0|] eqn:Ht0; [|discriminate S1].
  cbn [lift1 option_map] in S1. injection S1 as S1.
  specialize (S2 t0 eq_refl).
  destruct (prepare_spec sample zero junkCarry junkFrame e 0 B nCh nCh e0
              Hv Hp0) as (Hs & Hf & _ & Hfs & _ & Hin & Hon & _).
  destruct (runCalls_safe sample zero add mul (fun (_ : Z) b => Hann_processFrameInBuffer b) e0 B Hs Hk Hf
              ltac:(rewrite Hin, Hon; lia) calls e0
              (reach_prepared sample zero add mul (fun (_ : Z) b => Hann_processFrameInBuffer b) e0 B) HF)
    as (e' & outs & HR & HS).
  pose proof (sim_runCalls sample zero add mul (fun (_ : Z) b => Hann_processFrameInBuffer b)
                Hann_processFrameInBuffer nCh (fun n b => eq_refl)
                calls t0 S2 HC) as Sim.
  rewrite <- S1, HR in Sim.
  destruct (Hann_runCalls sample add mul Hann_processFrameInBuffer t0 calls) as [[t' outs']|] eqn:Hrun;
    [|discriminate Sim].
  cbn [lift2 option_map fst snd] in Sim. injection Sim as Se So. subst outs'.
  exists t0, t', outs. split; [reflexivity|]. split; [exact Hrun|].
  split; [exact HS|].
  pose proof (runCalls_Reachable sample zero add mul (fun (_ : Z) b => Hann_processFrameInBuffer b) e0 B calls e0 e'
                outs (reach_prepared sample zero add mul (fun (_ : Z) b => Hann_processFrameInBuffer b) e0 B) HF HR)
    as HReach.
  destruct (Reachable_Rel sample zero add mul (fun (_ : Z) b => Hann_processFrameInBuffer b) e0 B e' Hs Hk Hf HReach)
    as (T & j & R).
  destruct R as [C _ Rlo Rhi _ _ _ _ _ _].
  rewrite <- (cf_fft _ _ _ C) in Rhi. rewrite Se in Rlo, Rhi.
  cbn [toEngine notYetUsedAudioDataCount fftSize] in Rlo, Rhi. lia.
Qed.

(** X16.  The template variant does not clamp the channel count of the
    input block: a block of at least one sample with more channels than
    [fftInOutBuffer] and [notYetUsedAudioData] have makes [process] index
    a channel that was not allocated. *)
Theorem template_variant_has_no_channel_clamp
    (t : HannProcessor sample) (inputBlock outputBlock : AudioBuffer sample) :
  0 <= numChannels sample (h_fftInOutBuffer sample t)
    < numChannels sample inputBlock ->
  0 <= numChannels sample (h_notYetUsedAudioData sample t)
    < numChannels sample inputBlock ->
  0 <= h_notYetUsedAudioDataCount sample t ->
  0 < numSamples sample inputBlock ->
  Hann_process sample add mul Hann_processFrameInBuffer t inputBlock outputBlock = None.
Proof.
  intros Hfb Hnyu Hcount HL.
  assert (Mfail : forall doff src soff w wsize woff num,
    multiply sample mul (numChannels sample inputBlock)
      (h_fftInOutBuffer sample t) doff src soff w wsize woff num = None).
  { intros. unfold multiply.
    destruct (chansOk sample (h_fftInOutBuffer sample t) _ _ _ _) eqn:E;
      [|reflexivity].
    apply chansOk_true in E. exfalso. lia. }
  assert (Cfail : forall doff src soff num,
    copy sample (numChannels sample inputBlock)
      (h_notYetUsedAudioData sample t) doff src soff num = None).
  { intros. unfold copy.
    destruct (chansOk sample (h_notYetUsedAudioData sample t) _ _ _ _) eqn:E;
      [|reflexivity].
    apply chansOk_true in E. exfalso. lia. }
  unfold Hann_process, Hann_consumeInput.
  destruct (Z.to_nat (h_notYetUsedAudioDataCount sample t)) as [|fuel] eqn:Ef.
  - assert (Hz : h_notYetUsedAudioDataCount sample t = 0) by lia.
    cbn [Hann_useLeftOvers]. rewrite Hz. cbn [Z.ltb Z.compare andb fst snd].
    rewrite !Hz. cbn [Z.ltb Z.compare Z.opp]. rewrite Z.sub_0_r.
    destruct (Z.to_nat (numSamples sample inputBlock)) as [|fuel2] eqn:Ef2;
      [lia|].
    cbn [Hann_useNewSamples]. rewrite Z.sub_0_r.
    destruct (h_fftSize sample t <=? numSamples sample inputBlock).
    + rewrite Mfail. reflexivity.
    + cbn [fst snd]. rewrite Z.sub_0_r.
      assert (E : (0 <? numSamples sample inputBlock) = true)
        by (apply Z.ltb_lt; exact HL).
      rewrite E, Cfail. reflexivity.
  - cbn [Hann_useLeftOvers].
    destruct (_ && _).
    + rewrite Mfail. reflexivity.
    + cbn [fst snd].
      assert (E : (0 <? h_notYetUsedAudioDataCount sample t) = true)
        by (apply Z.ltb_lt; lia).
      rewrite E, Cfail. reflexivity.
Qed.

(** X23.  [reset ()] of the template variant clears the carry-over count
    and leaves [outputOffset] where it was.  Called between two blocks
    while samples are carried over, it leaves the offset short of
    [fftSize - 1 - notYetUsedAudioDataCount]; from then on a stream of
    single-sample blocks is refused before [fftSize] of them are served:
    the frame they complete is written back before the start of
    [outputBuffer]. *)
Theorem template_reset_between_blocks_breaks_the_offset (p B nCh : Z)
    (calls : list (AudioBuffer sample * AudioBuffer sample))
    (t0 t : HannProcessor sample) (outs : list (AudioBuffer sample))
    (singles : list (AudioBuffer sample * AudioBuffer sample)) :
  1 <= p -> 1 <= B -> 1 <= nCh ->
  (forall b, sameShape sample (Hann_processFrameInBuffer b) b) ->
  Hann_prepare sample zero junkCarry junkFrame (Hann_construct sample zero hannTable p) B nCh = Some t0 ->
  Forall (validCall sample B) calls ->
  Forall (fun c => numChannels sample (fst c) <= nCh /\
                   numChannels sample (snd c) <= nCh) calls ->
  Hann_runCalls sample add mul Hann_processFrameInBuffer t0 calls = Some (t, outs) ->
  0 < h_notYetUsedAudioDataCount sample t ->
  Forall (fun c => numSamples sample (fst c) = 1) singles ->
  Forall (fun c => numChannels sample (fst c) <= nCh /\
                   numChannels sample (snd c) <= nCh) singles ->
  h_fftSize sample t <= Z.of_nat (length singles) ->
  Hann_runCalls sample add mul Hann_processFrameInBuffer (Hann_reset sample t) singles = None.
Proof.
  intros Hp HB Hn Hshape Ht0 HF HC Hrun Hcarry H1 HC1 Hlen.
  destruct (Hann_sizes p Hp) as (Tf & Th & Hpow & Hpos).
  set (tc := Hann_construct sample zero hannTable p) in *.
  set (e := toEngine sample 0 tc).
  assert (Hv : Valid sample e) by (unfold Valid, e, toEngine; cbn [fftSize hopSize]; lia).
  assert (Hk : KeepsShape sample (fun (_ : Z) b => Hann_processFrameInBuffer b)) by (intros n b; apply Hshape).
  destruct (sim_prepare sample zero junkCarry junkFrame nCh e tc 0 B
              eq_refl eq_refl eq_refl ltac:(lia)) as [S1 S2].
  rewrite Ht0 in S1. cbn [lift1 option_map] in S1.
  specialize (S2 t0 Ht0).
  destruct (prepare_spec sample zero junkCarry junkFrame e 0 B nCh nCh _
              Hv S1) as (Hs & Hf & _ & Hfs & _ & _ & _ & _).
  pose proof (sim_runCalls sample zero add mul (fun (_ : Z) b => Hann_processFrameInBuffer b)
                Hann_processFrameInBuffer nCh (fun n b => eq_refl)
                calls t0 S2 HC) as Sim.
  rewrite Hrun in Sim. cbn [lift2 option_map fst snd] in Sim.
  pose proof (runCalls_Reachable sample zero add mul (fun (_ : Z) b => Hann_processFrameInBuffer b) _ B calls _ _
                outs (reach_prepared sample zero add mul (fun (_ : Z) b => Hann_processFrameInBuffer b) _ B) HF Sim)
    as HReach.
  destruct (Reachable_Rel sample zero add mul (fun (_ : Z) b => Hann_processFrameInBuffer b) _ B _ Hs Hk Hf HReach)
    as (T & j & R).
  destruct R as [C _ _ Rhi _ Roff _ _ _ _].
  rewrite <- (cf_fft _ _ _ C) in Rhi, Roff.
  cbn [toEngine notYetUsedAudioDataCount fftSize outputOffset] in Rhi, Roff.
  pose proof (Hann_runCalls_keeps sample zero add mul (fun (_ : Z) b => Hann_processFrameInBuffer b)
                Hann_processFrameInBuffer nCh (fun n b => eq_refl)
                calls t0 t outs S2 HC Hrun) as Hi.
  assert (Hi' : HInv sample nCh (Hann_reset sample t)) by exact Hi.
  pose proof (sim_runCalls sample zero add mul (fun (_ : Z) b => Hann_processFrameInBuffer b)
                Hann_processFrameInBuffer nCh (fun n b => eq_refl)
                singles (Hann_reset sample t) Hi' HC1) as Sim1.
  rewrite (single_samples_reach_the_fault sample zero add mul
             (fun (_ : Z) b => Hann_processFrameInBuffer b)
             (Z.to_nat (h_fftSize sample t - 1)) singles
             (toEngine sample nCh (Hann_reset sample t))) in Sim1.
  - destruct (Hann_runCalls sample add mul Hann_processFrameInBuffer (Hann_reset sample t) singles);
      [discriminate Sim1 | reflexivity].
  - unfold toEngine, Hann_reset.
    cbn [fftSize notYetUsedAudioDataCount h_fftSize h_notYetUsedAudioDataCount].
    rewrite Z.sub_0_r. reflexivity.
  - unfold toEngine, Hann_reset.
    cbn [fftSize notYetUsedAudioDataCount h_fftSize h_notYetUsedAudioDataCount].
    lia.
  - unfold toEngine, Hann_reset. cbn [fftSize h_fftSize]. lia.
  - unfold toEngine, Hann_reset.
    cbn [fftSize notYetUsedAudioDataCount outputOffset h_fftSize
         h_outputOffset h_notYetUsedAudioDataCount].
    lia.
  - unfold toEngine. cbn [nChOut]. lia.
  - exact H1.
  - lia.
Qed.

End TemplateVariant.

(** * Witnesses of the further properties *)

(** [OverlappingFFTProcessor (2, 1)] prepared for two input and two output
    channels, and [OverlappingFFTProcessor (4, 2)] prepared for blocks of
    one sample. *)
Definition prepared42_2_2 : Engine Z :=
  mkEngine Z (window Z engine42) (mkBuffer Z 2 8 zjunk) 4 2 2 2
           (mkBuffer Z 2 3 zjunk) (mkBuffer Z 2 9 (fun _ _ => 0)) 3 0.

Definition prepared164_1 : Engine Z :=
  mkEngine Z (window Z engine164) (mkBuffer Z 1 32 zjunk) 16 4 1 1
           (mkBuffer Z 1 15 zjunk) (mkBuffer Z 1 16 (fun _ _ => 0)) 15 0.

(** [FftWithHopSizeAndHannWindowProcessor<2>] prepared for one channel and
    blocks of at most 4 samples. *)
Definition template42 : HannProcessor Z :=
  mkHann Z (mkBuffer Z 1 8 zjunk) 4 2 (ztable 4) (mkBuffer Z 1 3 zjunk)
         (mkBuffer Z 1 9 (fun _ _ => 0)) 3 0.

Definition noSamples : AudioBuffer Z := mkBuffer Z 1 0 ramp.
Definition fourNines : AudioBuffer Z := mkBuffer Z 1 4 (fun _ _ => 9).
Definition twoCalls : list (AudioBuffer Z * AudioBuffer Z) :=
  [(fourSamples, fourSamples); (oneSample, oneSample)].

Lemma prepared42_2_2_prepared :
  zprepare engine42 44100 4 2 2 = Some prepared42_2_2.
Proof. reflexivity. Qed.

Lemma engine164_valid : Valid Z engine164.
Proof. unfold Valid. cbn. lia. Qed.

Lemma prepared164_1_prepared :
  zprepare engine164 44100 1 1 1 = Some prepared164_1.
Proof. reflexivity. Qed.

Lemma template42_prepared :
  Hann_prepare Z 0 zjunk zjunk (Hann_construct Z 0 ztable 2) 4 1 =
  Some template42.
Proof. reflexivity. Qed.

Lemma twoCalls_valid : Forall (validCall Z 4) twoCalls.
Proof. repeat constructor; cbn; lia. Qed.

(** Running a model on a concrete input: the outcome is named, and that
    there is one is checked by evaluation. *)
Ltac run t :=
  let HR := fresh "HR" in
  destruct t eqn:HR;
  [| exfalso;
     assert (option_map (fun _ => tt) t = Some tt) as HR'
       by (vm_compute; reflexivity);
     rewrite HR in HR'; discriminate HR'].


(** X4, witness. *)
Lemma process_keeps_the_setup_witness :
  exists r, zprocess prepared42 fourSamples fourSamples = Some r /\
    window Z (fst r) = window Z prepared42 /\
    fftSize Z (fst r) = fftSize Z prepared42 /\
    hopSize Z (fst r) = hopSize Z prepared42 /\
    getNumInputChannels Z (fst r) = getNumInputChannels Z prepared42 /\
    getNumOutputChannels Z (fst r) = getNumOutputChannels Z prepared42 /\
    sameShape Z (notYetUsedAudioData Z (fst r))
              (notYetUsedAudioData Z prepared42) /\
    sameShape Z (outputBuffer Z (fst r)) (outputBuffer Z prepared42) /\
    sameShape Z (snd r) fourSamples /\
    (KeepsShape Z zid ->
     sameShape Z (fftInOutBuffer Z (fst r)) (fftInOutBuffer Z prepared42)).
Proof.
  run (zprocess prepared42 fourSamples fourSamples).
  destruct p as [e' out]. exists (e', out). split; [reflexivity|].
  apply (process_keeps_the_setup Z 0 Z.add Z.mul zid prepared42
           fourSamples fourSamples e' out HR).
Defined.

(** X6, witness. *)
Lemma in_place_processing_witness :
  option_map fst (processReplacing Z 0 Z.add Z.mul zid prepared42 fourSamples) =
    option_map fst
      (processNonReplacing Z 0 Z.add Z.mul zid prepared42 fourSamples
                           fourNines) /\
  forall r1 r2,
    processReplacing Z 0 Z.add Z.mul zid prepared42 fourSamples = Some r1 ->
    processNonReplacing Z 0 Z.add Z.mul zid prepared42 fourSamples fourNines
      = Some r2 ->
    forall c i, 0 <= c < numChannels Z fourSamples ->
                0 <= i < numSamples Z fourSamples ->
                at_ Z (snd r1) c i = at_ Z (snd r2) c i.
Proof.
  apply (in_place_processing Z 0 Z.add Z.mul zid prepared42 fourSamples
           fourNines).
  split; reflexivity.
Defined.

(** X7, witness: an empty block after a block of one sample. *)
Lemma empty_block_changes_nothing_witness :
  exists r, zprocess prepared42 oneSample oneSample = Some r /\
    zprocess (fst r) noSamples oneSample = Some (fst r, oneSample).
Proof.
  eexists. split; [reflexivity|].
  apply (empty_block_changes_nothing Z 0 Z.add Z.mul zjunk zjunk zid
           engine42 44100 4 1 1 prepared42).
  - exact engine42_valid.
  - exact zid_keeps_shape.
  - reflexivity.
  - lia.
  - eapply reach_process with (inputBlock := oneSample)
                              (outputBlock := oneSample).
    + apply reach_prepared.
    + cbn. lia.
    + cbn. lia.
    + reflexivity.
  - reflexivity.
  - cbn. lia.
Defined.

(** X8, witness: five samples, frames of 4 with a hop of 2. *)
Lemma counters_follow_the_stream_position_witness :
  exists r, runCalls Z 0 Z.add Z.mul zid prepared42 twoCalls = Some r /\
    consumed Z twoCalls = 5 /\
    notYetUsedAudioDataCount Z (fst r) =
      (if consumed Z twoCalls <? fftSize Z engine42 then consumed Z twoCalls
       else fftSize Z engine42 - hopSize Z engine42 +
            (consumed Z twoCalls - fftSize Z engine42) mod hopSize Z engine42) /\
    outputOffset Z (fst r) =
      fftSize Z engine42 - 1 - notYetUsedAudioDataCount Z (fst r).
Proof.
  run (runCalls Z 0 Z.add Z.mul zid prepared42 twoCalls).
  destruct p as [e' outs].
  exists (e', outs). split; [reflexivity|]. split; [reflexivity|].
  apply (counters_follow_the_stream_position Z 0 Z.add Z.mul zjunk zjunk zid
           engine42 44100 4 1 1 prepared42 twoCalls e' outs
           engine42_valid zid_keeps_shape eq_refl twoCalls_valid HR).
Defined.

(** X9, witness. *)
Lemma every_call_is_served_witness :
  exists e' outs,
    runCalls Z 0 Z.add Z.mul zid prepared42 twoCalls = Some (e', outs) /\
    Forall2 (fun c out => sameShape Z out (snd c)) twoCalls outs.
Proof.
  apply (every_call_is_served Z 0 Z.add Z.mul zjunk zjunk zid
           engine42 44100 4 1 1 prepared42 twoCalls
           engine42_valid zid_keeps_shape eq_refl).
  - lia.
  - exact twoCalls_valid.
Defined.

(** X10, witness: one input channel, two output channels, one frame. *)
Lemma more_outputs_than_inputs_stops_at_first_frame_witness :
  runCalls Z 0 Z.add Z.mul zid prepared42_1_2 twoCalls = None.
Proof.
  apply (more_outputs_than_inputs_stops_at_first_frame Z 0 Z.add Z.mul
           zjunk zjunk zid engine42 44100 4 1 2 prepared42_1_2 twoCalls
           engine42_valid zid_keeps_shape eq_refl).
  - lia.
  - exact twoCalls_valid.
  - cbn. lia.
Defined.

(** X11, witness. *)
Lemma lead_in_is_silent_witness :
  exists r,
    runChunks Z 0 Z.add Z.mul zid prepared42 ramp zjunk 1 1 0 [4] zjunk
      = Some r /\
    snd r 0 2 = 0.
Proof.
  run (runChunks Z 0 Z.add Z.mul zid prepared42 ramp zjunk 1 1 0 [4] zjunk).
  exists p. split; [reflexivity|].
  apply (lead_in_is_silent Z 0 Z.add Z.mul zjunk zjunk zid
           engine42 44100 4 1 1 prepared42 ramp zjunk 1 1 [4] zjunk p
           engine42_valid zid_keeps_shape eq_refl
           ltac:(repeat constructor; lia) HR 0 2);
    cbn; lia.
Defined.

(** X12, witness: prepared for two channels and fed one, the engine
    returns on channel 1 what [fftInOutBuffer] held when it was allocated
    (here the value 7 of [zjunk]). *)
Lemma unfed_output_channel_carries_frame_memory_witness :
  exists r,
    runChunks Z 0 Z.add Z.mul zid prepared42_2_2 ramp zjunk 1 2 0 [4] zjunk
      = Some r /\
    snd r 1 3 = staleAdd Z 0 Z.add (zjunk 1) (fftSize Z engine42)
                         (hopSize Z engine42) (Z.to_nat (3 + 1))
                         (3 - (fftSize Z engine42 - 1)) /\
    snd r 1 3 = 7.
Proof.
  run (runChunks Z 0 Z.add Z.mul zid prepared42_2_2 ramp zjunk 1 2 0 [4]
                 zjunk).
  exists p.
  assert (E : snd p 1 3 =
              staleAdd Z 0 Z.add (zjunk 1) (fftSize Z engine42)
                       (hopSize Z engine42) (Z.to_nat (3 + 1))
                       (3 - (fftSize Z engine42 - 1))).
  { apply (unfed_output_channel_carries_frame_memory Z 0 Z.add Z.mul
             zjunk zjunk zid engine42 44100 4 2 2 prepared42_2_2
             ramp zjunk 1 2 [4] zjunk p
             engine42_valid (fun n b => eq_refl) eq_refl
             ltac:(repeat constructor; lia) HR 1 3);
      cbn; lia. }
  split; [reflexivity|]. split; [exact E|]. rewrite E. reflexivity.
Defined.

(** X13, witness. *)
Lemma carry_over_memory_is_never_returned_witness :
  exists r r',
    runChunks Z 0 Z.add Z.mul zid prepared42 ramp zjunk 1 1 0 [1; 4] zjunk
      = Some r /\
    runChunks Z 0 Z.add Z.mul zid
      (setCarry Z prepared42
         (setData Z (notYetUsedAudioData Z prepared42) (fun _ _ => 99)) 0)
      ramp zjunk 1 1 0 [1; 4] zjunk = Some r' /\
    forall c n, 0 <= c < 1 -> 0 <= n < total [1; 4] -> snd r c n = snd r' c n.
Proof.
  run (runChunks Z 0 Z.add Z.mul zid prepared42 ramp zjunk 1 1 0 [1; 4]
                 zjunk).
  run (runChunks Z 0 Z.add Z.mul zid
         (setCarry Z prepared42
            (setData Z (notYetUsedAudioData Z prepared42) (fun _ _ => 99)) 0)
         ramp zjunk 1 1 0 [1; 4] zjunk).
  exists p, p0. split; [reflexivity|]. split; [reflexivity|].
  apply (carry_over_memory_is_never_returned Z 0 Z.add Z.mul zjunk zjunk zid
           engine42 44100 4 1 1 prepared42 ramp zjunk 1 1 [1; 4] zjunk
           (fun _ _ => 99) p p0
           engine42_valid zid_keeps_shape eq_refl
           ltac:(repeat constructor; lia) HR HR0).
Defined.

(** X14, witness. *)
Lemma plugin_serves_every_host_buffer_witness :
  exists p p0 p' outs,
    createPluginFilter Z 0 1 Z.mul Z.quot (fun n => n) ztable = Some p /\
    fftSize Z (myProcessor Z p) = 2048 /\ hopSize Z (myProcessor Z p) = 512 /\
    prepareToPlay Z 0 zjunk zjunk p 44100 512 = Some p0 /\
    getNumInputChannels Z (myProcessor Z p0) = 2 /\
    getNumOutputChannels Z (myProcessor Z p0) = 2 /\
    runBlocks Z 0 Z.add Z.mul zid p0 [stereoOut; fourSamples; noSamples]
      = Some (p', outs) /\
    Forall2 (fun b out => sameShape Z out b)
            [stereoOut; fourSamples; noSamples] outs.
Proof.
  apply (plugin_serves_every_host_buffer Z 0 1 Z.add Z.mul Z.quot
           (fun n => n) ztable zjunk zjunk zid 44100 512
           [stereoOut; fourSamples; noSamples] zid_keeps_shape).
  - lia.
  - repeat constructor; cbn; lia.
Defined.

(** X15, witness. *)
Lemma template_variant_serves_every_call_witness :
  exists t0 t' outs,
    Hann_prepare Z 0 zjunk zjunk (Hann_construct Z 0 ztable 2) 4 1 = Some t0 /\
    Hann_runCalls Z Z.add Z.mul zid' t0 twoCalls = Some (t', outs) /\
    Forall2 (fun c out => sameShape Z out (snd c)) twoCalls outs /\
    0 <= h_notYetUsedAudioDataCount Z t' <= h_fftSize Z t' - 1.
Proof.
  apply (template_variant_serves_every_call Z 0 Z.add Z.mul ztable
           zjunk zjunk zid' 2 4 1 twoCalls).
  - lia.
  - lia.
  - lia.
  - intros b. split; reflexivity.
  - exact twoCalls_valid.
  - repeat constructor; cbn; lia.
Defined.

(** X16, witness: a block of two channels for an engine prepared for
    one. *)
Lemma template_variant_has_no_channel_clamp_witness :
  Hann_process Z Z.add Z.mul zid' template42 twoChannelsA oneSample = None.
Proof.
  apply (template_variant_has_no_channel_clamp Z Z.add Z.mul zid'
           template42 twoChannelsA oneSample); cbn; lia.
Defined.

(** The scenario on rationals for the older class: its frame transform,
    a ramp, and a block of 16 samples followed by one of 4. *)
Definition qid' (b : AudioBuffer Q) : AudioBuffer Q := b.
Definition qramp (c i : Z) : Q := inject_Z (i + 1).
Definition qcalls : list (AudioBuffer Q * AudioBuffer Q) :=
  [(mkBuffer Q 1 16 qramp, mkBuffer Q 1 16 qjunk);
   (mkBuffer Q 1 4 qramp, mkBuffer Q 1 4 qjunk)].


(** X18, witness. *)
Lemma older_classes_process_in_place_witness :
  (option_map fst
     (Hann_processReplacing Z Z.add Z.mul zid' template42 fourSamples) =
   option_map fst
     (Hann_process Z Z.add Z.mul zid' template42 fourSamples fourNines) /\
   forall r1 r2,
     Hann_processReplacing Z Z.add Z.mul zid' template42 fourSamples
       = Some r1 ->
     Hann_process Z Z.add Z.mul zid' template42 fourSamples fourNines
       = Some r2 ->
     forall c i, 0 <= c < numChannels Z fourSamples ->
                 0 <= i < numSamples Z fourSamples ->
                 at_ Z (snd r1) c i = at_ Z (snd r2) c i) /\
  (option_map fst
     (Hop_processReplacing Z Z.add Z.mul zid' template42 fourSamples) =
   option_map fst
     (Hop_process Z Z.add Z.mul zid' template42 fourSamples fourNines) /\
   forall r1 r2,
     Hop_processReplacing Z Z.add Z.mul zid' template42 fourSamples
       = Some r1 ->
     Hop_process Z Z.add Z.mul zid' template42 fourSamples fourNines
       = Some r2 ->
     forall c i, 0 <= c < numChannels Z fourSamples ->
                 0 <= i < numSamples Z fourSamples ->
                 at_ Z (snd r1) c i = at_ Z (snd r2) c i).
Proof.
  apply (older_classes_process_in_place Z Z.add Z.mul zid' zid' template42
           fourSamples fourNines).
  split; reflexivity.
Defined.

(** X19, witness. *)
Lemma output_is_the_overlap_add_of_the_frames_witness :
  exists r,
    runChunks Z 0 Z.add Z.mul zid prepared42 ramp zjunk 1 1 0 [1; 4] zjunk
      = Some r /\
    forall c n, 0 <= c < 1 -> 0 <= n < total [1; 4] ->
      snd r c n = outStream Z 0 Z.add Z.mul zid prepared42 ramp 1 1 c n.
Proof.
  run (runChunks Z 0 Z.add Z.mul zid prepared42 ramp zjunk 1 1 0 [1; 4]
                 zjunk).
  exists p. split; [reflexivity|].
  apply (output_is_the_overlap_add_of_the_frames Z 0 Z.add Z.mul
           zjunk zjunk zid engine42 44100 4 1 1 prepared42 ramp zjunk 1 1
           [1; 4] zjunk p engine42_valid zid_keeps_shape eq_refl
           ltac:(repeat constructor; lia) HR).
Defined.

(** X20, witness: 7 samples per channel are needed. *)
Lemma output_buffer_is_larger_than_needed_witness :
  fftSize Z engine42 - 1 + 4 <= numSamples Z (outputBuffer Z prepared42) /\
  exists r r',
    runChunks Z 0 Z.add Z.mul zid prepared42 ramp zjunk 1 1 0 [4; 1; 4; 3] zjunk
      = Some r /\
    runChunks Z 0 Z.add Z.mul zid
      (setOutput Z prepared42
         (mkBuffer Z 1 (fftSize Z engine42 - 1 + 4) (fun _ _ => 0))
         (fftSize Z engine42 - 1))
      ramp zjunk 1 1 0 [4; 1; 4; 3] zjunk = Some r' /\
    forall c n, 0 <= c < 1 -> 0 <= n < total [4; 1; 4; 3] -> snd r c n = snd r' c n.
Proof.
  apply (output_buffer_is_larger_than_needed Z 0 Z.add Z.mul zjunk zjunk zid
           engine42 44100 4 1 1 prepared42 ramp zjunk 1 1 [4; 1; 4; 3] zjunk
           engine42_valid zid_keeps_shape eq_refl).
  - lia.
  - repeat constructor; lia.
Defined.

(** X21, witness: frames of 16 samples, a hop of 4 and blocks of one
    sample; after the first sample the shift length 26 is clamped to 15,
    on an output buffer that is still silent. *)
Lemma shift_clamp_discards_no_sample_witness :
  exists e2,
    consumeInput Z Z.add Z.mul zid prepared164_1 oneSample
      (Z.min (numChannels Z oneSample) (nChIn Z prepared164_1))
      (Z.max (Z.min (numChannels Z oneSample) (nChIn Z prepared164_1))
             (Z.min (numChannels Z oneSample) (nChOut Z prepared164_1)))
      = Some e2 /\
    0 < numSamples Z oneSample +
        (outputOffset Z e2 + fftSize Z e2 - hopSize Z e2
         - numSamples Z oneSample) -
        numSamples Z (outputBuffer Z e2) /\
    forall c i, at_ Z (outputBuffer Z e2) c i = 0.
Proof.
  eexists. split; [reflexivity|]. split; [cbn; lia|].
  apply (shift_clamp_discards_no_sample Z 0 Z.add Z.mul zjunk zjunk zid
           engine164 44100 1 1 1 prepared164_1 prepared164_1 _
           oneSample oneSample engine164_valid zid_keeps_shape eq_refl
           (reach_prepared Z 0 Z.add Z.mul zid prepared164_1 1)
           ltac:(cbn; lia) eq_refl).
  cbn. lia.
Defined.

Definition fourSingles : list (AudioBuffer Z * AudioBuffer Z) :=
  [(oneSample, oneSample); (oneSample, oneSample);
   (oneSample, oneSample); (oneSample, oneSample)].

(** X23, witness: one sample is carried over when [reset ()] is called;
    the fourth single-sample block after it is refused. *)
Lemma template_reset_between_blocks_breaks_the_offset_witness :
  exists t outs,
    Hann_runCalls Z Z.add Z.mul zid' template42 [(oneSample, oneSample)]
      = Some (t, outs) /\
    h_notYetUsedAudioDataCount Z t = 1 /\
    Hann_runCalls Z Z.add Z.mul zid' (Hann_reset Z t) fourSingles = None.
Proof.
  assert (C : option_map (fun r => h_notYetUsedAudioDataCount Z (fst r))
                (Hann_runCalls Z Z.add Z.mul zid' template42
                   [(oneSample, oneSample)]) = Some 1)
    by (vm_compute; reflexivity).
  run (Hann_runCalls Z Z.add Z.mul zid' template42 [(oneSample, oneSample)]).
  destruct p as [t outs]. cbn [option_map fst] in C. injection C as C.
  exists t, outs. split; [reflexivity|]. split; [exact C|].
  assert (S : h_fftSize Z t = 4).
  { assert (C' : option_map (fun r => h_fftSize Z (fst r))
                   (Hann_runCalls Z Z.add Z.mul zid' template42
                      [(oneSample, oneSample)]) = Some 4)
      by (vm_compute; reflexivity).
    rewrite HR in C'. cbn [option_map fst] in C'. injection C' as C'.
    exact C'. }
  apply (template_reset_between_blocks_breaks_the_offset Z 0 Z.add Z.mul
           ztable zjunk zjunk zid' 2 4 1 [(oneSample, oneSample)]
           template42 t outs fourSingles).
  - lia.
  - lia.
  - lia.
  - intros b. split; reflexivity.
  - exact template42_prepared.
  - repeat constructor; cbn; lia.
  - repeat constructor; cbn; lia.
  - exact HR.
  - lia.
  - repeat constructor.
  - repeat constructor; cbn; lia.
  - rewrite S. cbn. lia.
Defined.
